(** * vcsgrep: the glob compiler and the argument classifier

    A shallow embedding of [glob_to_grep_pattern] and [ArgParser.__init__]
    from [vcsgrep.py], and the properties of the two that the specification
    states.  A Python string is a [string], its characters are those of
    [ascii]; a Python integer is a [Z]; a list is a [list]; an exception is
    the [Raise] alternative of [outcome], so that a function that returns
    in every case is one that is [Ok] in every case. *)

From Stdlib Require Import Strings.String Strings.Ascii List Bool Arith ZArith Lia.
Import ListNotations.

Open Scope string_scope.
Open Scope list_scope.

(** ** Exceptions *)

Inductive exn : Type :=
| IndexError
| AssertionError (msg : string)
| ValueError (msg : string).

Inductive outcome (A : Type) : Type :=
| Ok (a : A)
| Raise (e : exn).

Arguments Ok {A} a.
Arguments Raise {A} e.

Definition bind {A B : Type} (m : outcome A) (k : A -> outcome B) : outcome B :=
  match m with
  | Ok a => k a
  | Raise e => Raise e
  end.

Notation "x <- m ;; k" := (bind m (fun x => k))
  (at level 61, m at next level, right associativity).

(** ** The string operations of Python the program uses *)

Module Py.

(** [s[i]] for a non-negative [i]. *)
Definition index (s : string) (i : nat) : outcome ascii :=
  match String.get i s with
  | Some c => Ok c
  | None => Raise IndexError
  end.

(** [c in s] for a one-character [c]. *)
Fixpoint char_in (c : ascii) (s : string) : bool :=
  match s with
  | EmptyString => false
  | String d rest => Ascii.eqb c d || char_in c rest
  end.

(** [a in (x, y, ...)]. *)
Definition str_in (a : string) (l : list string) : bool :=
  existsb (String.eqb a) l.

(** [s.startswith(p)]. *)
Fixpoint startswith (s p : string) {struct p} : bool :=
  match p with
  | EmptyString => true
  | String b p' =>
      match s with
      | EmptyString => false
      | String a s' => Ascii.eqb a b && startswith s' p'
      end
  end.

(** [s[n:]]. *)
Fixpoint slice_from (n : nat) (s : string) : string :=
  match n, s with
  | O, _ => s
  | S _, EmptyString => EmptyString
  | S k, String _ rest => slice_from k rest
  end.

(** [s.lstrip(c)]. *)
Fixpoint lstrip (c : ascii) (s : string) : string :=
  match s with
  | EmptyString => EmptyString
  | String d rest => if Ascii.eqb d c then lstrip c rest else s
  end.

(** [s.rstrip(c)]. *)
Fixpoint rstrip (c : ascii) (s : string) : string :=
  match s with
  | EmptyString => EmptyString
  | String d rest =>
      match rstrip c rest with
      | EmptyString => if Ascii.eqb d c then EmptyString else String d EmptyString
      | kept => String d kept
      end
  end.

(** [sep.join(l)]. *)
Definition join (sep : string) (l : list string) : string := String.concat sep l.

(** [not s] for a string. *)
Definition is_empty (s : string) : bool :=
  match s with
  | EmptyString => true
  | String _ _ => false
  end.

End Py.

(** ** The three regular-expression calls of [glob_to_grep_pattern] *)

Module Re.

Definition newline : ascii := "010"%char.

(** [re.sub(r'(^|(?<=/))\.(/|$)', '', s)], scanning from the left.
    [seg_start] says that the position is the start of the string or
    follows a [/].  A [.] there is deleted together with a following [/];
    it is deleted alone when [$] matches after it, which in Python is at
    the end of the string and also just before a newline that ends the
    string. *)
Fixpoint sub_dot_segments (seg_start : bool) (s : string) : string :=
  match s with
  | EmptyString => EmptyString
  | String c rest =>
      if seg_start && Ascii.eqb c "." then
        match rest with
        | EmptyString => EmptyString
        | String d rest' =>
            if Ascii.eqb d "/" then sub_dot_segments true rest'
            else if Ascii.eqb d newline && Py.is_empty rest' then rest
            else String c (sub_dot_segments false rest)
        end
      else String c (sub_dot_segments (Ascii.eqb c "/") rest)
  end.

(** The text of [s] before its first closing bracket, when it has one:
    what the body of a bracket expression can match. *)
Fixpoint until_rbracket (s : string) : option string :=
  match s with
  | EmptyString => None
  | String c rest =>
      if Ascii.eqb c "]" then Some EmptyString
      else option_map (String c) (until_rbracket rest)
  end.

(** One attempt of [(\*\*/?|[*?,{}]|\[[^]]+\])] at the head of [s]; the
    alternatives are tried in this order and the matched text is
    returned. *)
Definition match_meta (s : string) : option string :=
  match s with
  | EmptyString => None
  | String c rest =>
      if Ascii.eqb c "*" && Py.startswith rest "*/" then Some "**/"
      else if Ascii.eqb c "*" && Py.startswith rest "*" then Some "**"
      else if Py.char_in c "*?,{}" then Some (String c EmptyString)
      else if Ascii.eqb c "[" then
        match until_rbracket rest with
        | Some EmptyString => None
        | Some body => Some ("[" ++ body ++ "]")%string
        | None => None
        end
      else None
  end.

(** [re.split] with that pattern: the text between two matches and the
    matches alternate, the text first and last.  [skip] counts the
    characters of the current match that are still to be passed over and
    [lit] is the text read since the last match. *)
Fixpoint split_from (skip : nat) (lit : string) (s : string) : list string :=
  match s with
  | EmptyString => [lit]
  | String c rest =>
      match skip with
      | S k => split_from k lit rest
      | O =>
          match match_meta s with
          | Some m => lit :: m :: split_from (String.length m - 1) EmptyString rest
          | None => split_from 0 (lit ++ String c EmptyString)%string rest
          end
      end
  end.

Definition split (s : string) : list string := split_from 0 EmptyString s.

Definition alphanum : string :=
  "_abcdefghijklmnopqrstuvwxyzABCDEFGHIJKLMNOPQRSTUVWXYZ0123456789".

(** [re.escape]: every character other than an ASCII letter, a digit or
    [_] gets a backslash in front, the NUL character becomes [\000].
    This is the function of the Python versions the examples in the
    docstring of [glob_to_grep_pattern] were written for: they show [/]
    escaped. *)
Fixpoint escape (s : string) : string :=
  match s with
  | EmptyString => EmptyString
  | String c rest =>
      if Py.char_in c alphanum then String c (escape rest)
      else if Ascii.eqb c "000" then ("\000" ++ escape rest)%string
      else String "\" (String c (escape rest))
  end.

End Re.

(** ** [glob_to_grep_pattern] *)

Definition dquote : string := String "034"%char EmptyString.

Definition unexpected_brace_msg (glob : string) : string :=
  ("invalid glob pattern (unexpected " ++ dquote ++ "}" ++ dquote ++ "): " ++ glob)%string.

Definition unclosed_brace_msg (glob : string) : string :=
  ("invalid glob pattern (unclosed " ++ dquote ++ "}" ++ dquote ++ "): " ++ glob)%string.

Record walk_state : Type := mkWalk {
  brace_depth : Z;
  result : list string
}.

Definition emit (frag : string) (w : walk_state) : walk_state :=
  mkWalk (brace_depth w) (result w ++ [frag]).

(** [piece[0] == c]. *)
Definition first_is (piece : string) (c : ascii) : outcome bool :=
  d <- Py.index piece 0 ;; Ok (Ascii.eqb d c).

(** The body of the [for] loop, for the piece at index [i]. *)
Definition walk_piece (glob : string) (i : nat) (piece : string) (w : walk_state)
  : outcome walk_state :=
  if Py.is_empty piece then Ok w
  else if Nat.eqb (i mod 2) 0 then Ok (emit (Re.escape piece) w)
  else if String.eqb piece "?" then Ok (emit "." w)
  else if String.eqb piece "*" then Ok (emit "[^/]*" w)
  else
    star <- first_is piece "*" ;;
    if star then Ok (emit ".*" w)
    else
      bracket <- first_is piece "[" ;;
      if bracket then Ok (emit piece w)
      else if String.eqb piece "{" then
        Ok (mkWalk (brace_depth w + 1) (result w ++ ["("]))
      else if String.eqb piece "," then
        if Z.eqb (brace_depth w) 0 then Ok (emit "," w) else Ok (emit "|" w)
      else if String.eqb piece "}" then
        if Z.eqb (brace_depth w) 0 then Raise (ValueError (unexpected_brace_msg glob))
        else Ok (mkWalk (brace_depth w - 1) (result w ++ [")"]))
      else Raise (AssertionError piece).

(** [for i, piece in enumerate(...)], from index [i] on. *)
Fixpoint walk (glob : string) (i : nat) (pieces : list string) (w : walk_state)
  : outcome walk_state :=
  match pieces with
  | [] => Ok w
  | piece :: rest => w' <- walk_piece glob i piece w ;; walk glob (S i) rest w'
  end.

Definition glob_to_grep_pattern (glob : string) : outcome string :=
  let glob2 := Re.sub_dot_segments true glob in
  if Py.is_empty glob2 then Ok EmptyString
  else
    w <- walk glob 0 (Re.split glob2) (mkWalk 0 ["^"]) ;;
    if Z.ltb 0 (brace_depth w) then Raise (ValueError (unclosed_brace_msg glob))
    else Ok (Py.join EmptyString (result w ++ ["(/|$)"])).

(** ** [ArgParser] *)

Definition editor_flags : list string := ["--vim"; "--gvim"].
Definition grep_default_matcher : string := "-E".
Definition grep_flags_matcher_select : string := "EFGP".
Definition grep_flags_suppress_implicit_pattern_arg : string := "ef".
Definition grep_flags_with_argument : string := "efmABCdD".

(** The attributes of an [ArgParser] object. *)
Record ArgParser : Type := mkArgParser {
  explain : bool;
  help : bool;
  show : bool;
  version : bool;
  include_globs : list string;
  exclude_globs : list string;
  grep_args : list string;
  editor : option string;
  grep_color_arg : string;
  revisions : list string
}.

(** The bound methods [next_arg_processor] can hold. *)
Inductive processor : Type :=
| exclude_globs_append
| revisions_append
| grep_args_append.

(** The object under construction and the local variables of [__init__]. *)
Record locals : Type := mkLocals {
  self : ArgParser;
  extension_globs : list string;
  use_default_matcher : bool;
  next_arg_processor : option processor;
  awaiting_implicit_pattern_arg : bool
}.

Definition on_self (f : ArgParser -> ArgParser) (l : locals) : locals :=
  mkLocals (f (self l)) (extension_globs l) (use_default_matcher l)
           (next_arg_processor l) (awaiting_implicit_pattern_arg l).

Definition set_explain (b : bool) (a : ArgParser) : ArgParser :=
  mkArgParser b (help a) (show a) (version a) (include_globs a) (exclude_globs a)
              (grep_args a) (editor a) (grep_color_arg a) (revisions a).
Definition set_help (b : bool) (a : ArgParser) : ArgParser :=
  mkArgParser (explain a) b (show a) (version a) (include_globs a) (exclude_globs a)
              (grep_args a) (editor a) (grep_color_arg a) (revisions a).
Definition set_show (b : bool) (a : ArgParser) : ArgParser :=
  mkArgParser (explain a) (help a) b (version a) (include_globs a) (exclude_globs a)
              (grep_args a) (editor a) (grep_color_arg a) (revisions a).
Definition set_version (b : bool) (a : ArgParser) : ArgParser :=
  mkArgParser (explain a) (help a) (show a) b (include_globs a) (exclude_globs a)
              (grep_args a) (editor a) (grep_color_arg a) (revisions a).
Definition set_include_globs (v : list string) (a : ArgParser) : ArgParser :=
  mkArgParser (explain a) (help a) (show a) (version a) v (exclude_globs a)
              (grep_args a) (editor a) (grep_color_arg a) (revisions a).
Definition set_exclude_globs (v : list string) (a : ArgParser) : ArgParser :=
  mkArgParser (explain a) (help a) (show a) (version a) (include_globs a) v
              (grep_args a) (editor a) (grep_color_arg a) (revisions a).
Definition set_grep_args (v : list string) (a : ArgParser) : ArgParser :=
  mkArgParser (explain a) (help a) (show a) (version a) (include_globs a) (exclude_globs a)
              v (editor a) (grep_color_arg a) (revisions a).
Definition set_editor (v : option string) (a : ArgParser) : ArgParser :=
  mkArgParser (explain a) (help a) (show a) (version a) (include_globs a) (exclude_globs a)
              (grep_args a) v (grep_color_arg a) (revisions a).
Definition set_grep_color_arg (v : string) (a : ArgParser) : ArgParser :=
  mkArgParser (explain a) (help a) (show a) (version a) (include_globs a) (exclude_globs a)
              (grep_args a) (editor a) v (revisions a).
Definition set_revisions (v : list string) (a : ArgParser) : ArgParser :=
  mkArgParser (explain a) (help a) (show a) (version a) (include_globs a) (exclude_globs a)
              (grep_args a) (editor a) (grep_color_arg a) v.

Definition set_extension_globs (v : list string) (l : locals) : locals :=
  mkLocals (self l) v (use_default_matcher l) (next_arg_processor l)
           (awaiting_implicit_pattern_arg l).
Definition set_use_default_matcher (b : bool) (l : locals) : locals :=
  mkLocals (self l) (extension_globs l) b (next_arg_processor l)
           (awaiting_implicit_pattern_arg l).
Definition set_next_arg_processor (p : option processor) (l : locals) : locals :=
  mkLocals (self l) (extension_globs l) (use_default_matcher l) p
           (awaiting_implicit_pattern_arg l).
Definition set_awaiting_implicit_pattern_arg (b : bool) (l : locals) : locals :=
  mkLocals (self l) (extension_globs l) (use_default_matcher l) (next_arg_processor l) b.

(** [setattr(self, name, True)] for the names of the four switches. *)
Definition setattr_true (name : string) (a : ArgParser) : ArgParser :=
  if String.eqb name "explain" then set_explain true a
  else if String.eqb name "help" then set_help true a
  else if String.eqb name "show" then set_show true a
  else if String.eqb name "version" then set_version true a
  else a.

(** Calling a bound [append]. *)
Definition call (p : processor) (arg : string) (a : ArgParser) : ArgParser :=
  match p with
  | exclude_globs_append => set_exclude_globs (exclude_globs a ++ [arg]) a
  | revisions_append => set_revisions (revisions a ++ [arg]) a
  | grep_args_append => set_grep_args (grep_args a ++ [arg]) a
  end.

(** The ten branches of the [if]/[elif] chain of the loop over the
    arguments, in the order they are tested. *)
Inductive decision : Type :=
| FeedPending (p : processor)
| EditorFlag
| SwitchFlag
| ExcludeFlag
| ColorFlag
| RevisionFlag
| MatcherFlag
| ImplicitPattern
| ExtensionShorthand
| IncludeGlob.

(** [len(arg) >= 2 and arg[0] == '-']: the index is evaluated only when the
    length allows it. *)
Definition dash_test (arg : string) : outcome bool :=
  if Nat.leb 2 (String.length arg)
  then c <- Py.index arg 0 ;; Ok (Ascii.eqb c "-")
  else Ok false.

(** The conditions of the chain: the first that holds decides. *)
Definition decide (l : locals) (arg : string) : outcome decision :=
  match next_arg_processor l with
  | Some p => Ok (FeedPending p)
  | None =>
      if Py.str_in arg editor_flags then Ok EditorFlag
      else if Py.str_in arg ["--explain"; "--help"; "--show"; "--version"] then Ok SwitchFlag
      else if String.eqb arg "-X" then Ok ExcludeFlag
      else if String.eqb arg "--color" || Py.startswith arg "--color=" then Ok ColorFlag
      else if String.eqb arg "--rev" || Py.startswith arg "-r" then Ok RevisionFlag
      else
        dash <- dash_test arg ;;
        if dash then Ok MatcherFlag
        else if awaiting_implicit_pattern_arg l then Ok ImplicitPattern
        else if Py.startswith arg "." && negb (Py.char_in "/" arg) then Ok ExtensionShorthand
        else Ok IncludeGlob
  end.

(** [for i in range(1, len(arg))] over the characters of a matcher flag,
    for the indices [idxs] still to come.  [continue] goes on with the next
    index and [break] returns. *)
Fixpoint scan_flags (arg : string) (idxs : list nat) (l : locals) : outcome locals :=
  match idxs with
  | [] => Ok l
  | i :: later =>
      c <- Py.index arg i ;;
      if Ascii.eqb c "V" then scan_flags arg later (on_self (set_version true) l)
      else
        let l1 :=
          if Py.char_in c grep_flags_suppress_implicit_pattern_arg
          then set_awaiting_implicit_pattern_arg false l
          else if Py.char_in c grep_flags_matcher_select
          then set_use_default_matcher false l
          else l in
        if Py.char_in c grep_flags_with_argument then
          Ok (if Nat.eqb i (String.length arg - 1)
              then set_next_arg_processor (Some grep_args_append) l1
              else l1)
        else scan_flags arg later l1
  end.

(** The bodies of the chain. *)
Definition execute (d : decision) (arg : string) (l : locals) : outcome locals :=
  match d with
  | FeedPending p => Ok (set_next_arg_processor None (on_self (call p arg) l))
  | EditorFlag => Ok (on_self (set_editor (Some (Py.lstrip "-" arg))) l)
  | SwitchFlag => Ok (on_self (setattr_true (Py.slice_from 2 arg)) l)
  | ExcludeFlag => Ok (set_next_arg_processor (Some exclude_globs_append) l)
  | ColorFlag => Ok (on_self (set_grep_color_arg arg) l)
  | RevisionFlag =>
      if Py.str_in arg ["--rev"; "-r"]
      then Ok (set_next_arg_processor (Some revisions_append) l)
      else Ok (on_self (call revisions_append (Py.slice_from 2 arg)) l)
  | MatcherFlag =>
      let l1 := on_self (call grep_args_append arg) l in
      c <- Py.index arg 1 ;;
      if negb (Ascii.eqb c "-")
      then scan_flags arg (seq 1 (String.length arg - 1)) l1
      else Ok l1
  | ImplicitPattern =>
      Ok (on_self (call grep_args_append arg) (set_awaiting_implicit_pattern_arg false l))
  | ExtensionShorthand => Ok (set_extension_globs (extension_globs l ++ [arg]) l)
  | IncludeGlob => Ok (on_self (fun a => set_include_globs (include_globs a ++ [arg]) a) l)
  end.

(** One turn of [for arg in args]. *)
Definition step (l : locals) (arg : string) : outcome locals :=
  d <- decide l arg ;; execute d arg l.

Fixpoint loop (args : list string) (l : locals) : outcome locals :=
  match args with
  | [] => Ok l
  | arg :: rest => l' <- step l arg ;; loop rest l'
  end.

Definition initial : locals :=
  mkLocals (mkArgParser false false false false [] [] [] None "--color" [])
           [] true None true.

(** The state of [__init__] when the loop is left. *)
Definition pass (args : list string) : outcome locals := loop args initial.

(** The glob that stands for the extension shorthands. *)
Definition extension_glob (exts : list string) : string :=
  ("**{" ++ Py.join "," exts ++ "}")%string.

(** The two statements after the loop. *)
Definition finalize (l : locals) : ArgParser :=
  let a1 :=
    match extension_globs l with
    | [] => self l
    | _ :: _ =>
        let ext := extension_glob (extension_globs l) in
        match include_globs (self l) with
        | _ :: _ =>
            set_include_globs
              (map (fun glob => (Py.rstrip "/" glob ++ "/" ++ ext)%string)
                   (include_globs (self l)))
              (self l)
        | [] => set_include_globs [ext] (self l)
        end
    end in
  if use_default_matcher l
  then set_grep_args (grep_default_matcher :: grep_args a1) a1
  else a1.

(** [ArgParser.__init__], called with the arguments [args]. *)
Definition ArgParser_init (args : list string) : outcome ArgParser :=
  l <- pass args ;; Ok (finalize l).

(** ** [glob_to_grep_pattern] and the version of Python *)

(** [re.escape] as it is from Python 3.7 on: a backslash goes in front of
    the characters that mean something in a regular expression and of the
    blank characters, and in front of no other; [/] is left as it is. *)
Module Re37.

(** [b'()[]{}?*+-|^$\\.&~# \t\n\r\v\f']. *)
Definition special_chars : string :=
  ("()[]{}?*+-|^$\.&~# "
   ++ String "009" (String "010" (String "013" (String "011" (String "012" ""))))
  )%string.

Fixpoint escape (s : string) : string :=
  match s with
  | EmptyString => EmptyString
  | String c rest =>
      if Py.char_in c special_chars then String "\" (String c (escape rest))
      else String c (escape rest)
  end.

End Re37.

(** The program needs Python 3 and [shlex.quote], which is there from
    Python 3.3 on.  Of what it calls, [re.escape] is not the same in all
    of these versions: up to Python 3.6 it is [Re.escape], from Python 3.7
    on it is [Re37.escape]. *)
Inductive python : Type :=
| Python36   (* Python 3.3 to 3.6 *)
| Python37.  (* Python 3.7 and later *)

Definition re_escape (v : python) : string -> string :=
  match v with
  | Python36 => Re.escape
  | Python37 => Re37.escape
  end.

(** The body of the [for] loop of [glob_to_grep_pattern] on the Python [v],
    for the piece at index [i]. *)
Definition walk_piece_on (v : python) (glob : string) (i : nat) (piece : string)
  (w : walk_state) : outcome walk_state :=
  if Py.is_empty piece then Ok w
  else if Nat.eqb (i mod 2) 0 then Ok (emit (re_escape v piece) w)
  else if String.eqb piece "?" then Ok (emit "." w)
  else if String.eqb piece "*" then Ok (emit "[^/]*" w)
  else
    star <- first_is piece "*" ;;
    if star then Ok (emit ".*" w)
    else
      bracket <- first_is piece "[" ;;
      if bracket then Ok (emit piece w)
      else if String.eqb piece "{" then
        Ok (mkWalk (brace_depth w + 1) (result w ++ ["("]))
      else if String.eqb piece "," then
        if Z.eqb (brace_depth w) 0 then Ok (emit "," w) else Ok (emit "|" w)
      else if String.eqb piece "}" then
        if Z.eqb (brace_depth w) 0 then Raise (ValueError (unexpected_brace_msg glob))
        else Ok (mkWalk (brace_depth w - 1) (result w ++ [")"]))
      else Raise (AssertionError piece).

Fixpoint walk_on (v : python) (glob : string) (i : nat) (pieces : list string)
  (w : walk_state) : outcome walk_state :=
  match pieces with
  | [] => Ok w
  | piece :: rest => w' <- walk_piece_on v glob i piece w ;; walk_on v glob (S i) rest w'
  end.

(** [glob_to_grep_pattern] on the Python [v]; on [Python36], the Python of
    the examples in its docstring, it is [glob_to_grep_pattern] above. *)
Definition glob_to_grep_pattern_on (v : python) (glob : string) : outcome string :=
  let glob2 := Re.sub_dot_segments true glob in
  if Py.is_empty glob2 then Ok EmptyString
  else
    w <- walk_on v glob 0 (Re.split glob2) (mkWalk 0 ["^"]) ;;
    if Z.ltb 0 (brace_depth w) then Raise (ValueError (unclosed_brace_msg glob))
    else Ok (Py.join EmptyString (result w ++ ["(/|$)"])).

From Stdlib Require Import Sorting.Sorted.

(** ** [ArgParser.__repr__] *)

(** The values of the attributes of an [ArgParser]. *)
Inductive value : Type :=
| VBool (b : bool)
| VStr (s : string)
| VList (l : list string)
| VNone.

Module Repr.

(** [Py_hexdigits]. *)
Definition hexdigit (n : nat) : ascii :=
  match String.get n "0123456789abcdef" with
  | Some c => c
  | None => "0"%char
  end.

(** [\xhh]. *)
Definition escape_x (c : ascii) : string :=
  let n := nat_of_ascii c in
  String "\" (String "x" (String (hexdigit (n / 16)) (String (hexdigit (n mod 16)) ""))).

(** The characters from 128 to 255 that are printable: all but the
    controls, the no-break space and the soft hyphen. *)
Definition printable_latin1 (c : ascii) : bool :=
  let n := nat_of_ascii c in
  Nat.leb 161 n && negb (Nat.eqb n 173).

(** One character of the [repr] of a string whose quote is [quote]. *)
Definition repr_char (quote c : ascii) : string :=
  let n := nat_of_ascii c in
  if Ascii.eqb c quote || Ascii.eqb c "\" then String "\" (String c "")
  else if Ascii.eqb c "009" then "\t"
  else if Ascii.eqb c "010" then "\n"
  else if Ascii.eqb c "013" then "\r"
  else if Nat.ltb n 32 || Nat.eqb n 127 then escape_x c
  else if Nat.ltb n 127 then String c ""
  else if printable_latin1 c then String c ""
  else escape_x c.

Fixpoint repr_chars (quote : ascii) (s : string) : string :=
  match s with
  | EmptyString => EmptyString
  | String c rest => (repr_char quote c ++ repr_chars quote rest)%string
  end.

(** [repr(s)] for a string: in single quotes, or in double quotes when the
    string has a single quote and no double quote. *)
Definition repr_str (s : string) : string :=
  let quote :=
    if Py.char_in "'" s && negb (Py.char_in "034" s) then "034"%char else "'"%char in
  String quote (repr_chars quote s ++ String quote "").

(** [repr(v)]. *)
Definition repr (v : value) : string :=
  match v with
  | VBool true => "True"
  | VBool false => "False"
  | VStr s => repr_str s
  | VList l => ("[" ++ Py.join ", " (map repr_str l) ++ "]")%string
  | VNone => "None"
  end.

(** The truth value of [v]. *)
Definition truthy (v : value) : bool :=
  match v with
  | VBool b => b
  | VStr s => negb (Py.is_empty s)
  | VList l => match l with [] => false | _ :: _ => true end
  | VNone => false
  end.

(** [sorted], for pairs whose first components differ: the pairs are then
    compared by these. *)
Fixpoint insert (x : string * value) (l : list (string * value))
  : list (string * value) :=
  match l with
  | [] => [x]
  | y :: rest => if String.ltb (fst x) (fst y) then x :: l else y :: insert x rest
  end.

Definition sorted (l : list (string * value)) : list (string * value) :=
  fold_right insert [] l.

End Repr.

(** [self.__dict__.items()]: the attributes in the order [__init__] sets
    them. *)
Definition dict_items (a : ArgParser) : list (string * value) :=
  [("explain", VBool (explain a)); ("help", VBool (help a)); ("show", VBool (show a));
   ("version", VBool (version a)); ("include_globs", VList (include_globs a));
   ("exclude_globs", VList (exclude_globs a)); ("grep_args", VList (grep_args a));
   ("editor", match editor a with Some e => VStr e | None => VNone end);
   ("grep_color_arg", VStr (grep_color_arg a)); ("revisions", VList (revisions a))].

(** ['%s: %r' % (k, v)]. *)
Definition repr_line (item : string * value) : string :=
  (fst item ++ ": " ++ Repr.repr (snd item))%string.

(** The generator of [__repr__]: the lines of the items that pass
    [k[0] != '_' and v]. *)
Fixpoint repr_lines (items : list (string * value)) : outcome (list string) :=
  match items with
  | [] => Ok []
  | item :: rest =>
      c <- Py.index (fst item) 0 ;;
      lines <- repr_lines rest ;;
      if negb (Ascii.eqb c "_") && Repr.truthy (snd item)
      then Ok (repr_line item :: lines)
      else Ok lines
  end.

Definition ArgParser_repr (a : ArgParser) : outcome string :=
  lines <- repr_lines (Repr.sorted (dict_items a)) ;;
  Ok (Py.join (String Re.newline "") lines).

(** ** [quote] and [globs_to_grep_pipe] *)

Module Shlex.

(** The characters [[\w@%+=:,./-]] with [re.ASCII]. *)
Definition safe_chars : string :=
  "abcdefghijklmnopqrstuvwxyzABCDEFGHIJKLMNOPQRSTUVWXYZ0123456789_@%+=:,./-".

(** [_find_unsafe(s) is not None]. *)
Fixpoint find_unsafe (s : string) : bool :=
  match s with
  | EmptyString => false
  | String c rest => negb (Py.char_in c safe_chars) || find_unsafe rest
  end.

(** [s.replace("'", "'\"'\"'")]. *)
Fixpoint replace_squote (s : string) : string :=
  match s with
  | EmptyString => EmptyString
  | String c rest =>
      if Ascii.eqb c "'"
      then ("'" ++ dquote ++ "'" ++ dquote ++ "'" ++ replace_squote rest)%string
      else String c (replace_squote rest)
  end.

(** [shlex.quote(s)]. *)
Definition quote (s : string) : string :=
  if Py.is_empty s then "''"
  else if negb (find_unsafe s) then s
  else ("'" ++ replace_squote s ++ "'")%string.

End Shlex.

(** A format string whose conversions are all [%s]. *)
Inductive format_piece : Type :=
| Text (s : string)
| Subst.

(** [pattern % x] for a string [x]. *)
Fixpoint percent (pattern : list format_piece) (x : string) : string :=
  match pattern with
  | [] => EmptyString
  | Text s :: rest => (s ++ percent rest x)%string
  | Subst :: rest => (x ++ percent rest x)%string
  end.

(** ['%s'], the default of [quote], and ['-e %s'] and the like. *)
Definition plain_pattern : list format_piece := [Subst].
Definition flag_pattern (flag : string) : list format_piece :=
  [Text (flag ++ " ")%string; Subst].

(** [quote(args, pattern)]. *)
Definition quote (args : list string) (pattern : list format_piece) : string :=
  Py.join " " (map (fun a => percent pattern (Shlex.quote a)) args).

(** How a function that can raise [SystemExit] ends. *)
Inductive ending (A : Type) : Type :=
| Done (a : A)
| SystemExit (msg : string)
| Uncaught (e : exn).

Arguments Done {A} a.
Arguments SystemExit {A} msg.
Arguments Uncaught {A} e.

(** [map(glob_to_grep_pattern, patterns)], consumed from the left: the
    first exception ends it. *)
Fixpoint compile_all (patterns : list string) : outcome (list string) :=
  match patterns with
  | [] => Ok []
  | glob :: rest =>
      r <- glob_to_grep_pattern glob ;;
      rs <- compile_all rest ;;
      Ok (r :: rs)
  end.

Definition globs_to_grep_pipe (prog : string) (patterns : list string) : ending string :=
  match compile_all patterns with
  | Ok rs => Done ("| grep -EzZ " ++ quote rs (flag_pattern "-e"))%string
  | Raise (ValueError msg) => SystemExit (prog ++ ": " ++ msg)%string
  | Raise e => Uncaught e
  end.

(** ** The script *)

(** The two names the script answers to. *)
Inductive program : Type :=
| hgg
| ggit.

Definition prog_name (prog : program) : string :=
  match prog with
  | hgg => "hgg"
  | ggit => "ggit"
  end.

(** What the script sets out to do in the end.  The output and the
    processes themselves are outside the model, and with them the
    exceptions they can raise: an encoding error of [print], the
    [IndexError] of [splitlines()[0]] in the report of the versions when a
    tool prints nothing, an error of [Popen]. *)
Inductive action : Type :=
| PrintExplain (text : string)          (* [print(args)], exit status 0 *)
| ReportVersions                        (* the versions of the tools, exit status 0 *)
| Usage (prog : program)                (* the usage on stderr, exit status 1 *)
| Exit (msg : string)                   (* [raise SystemExit(msg)] *)
| PipeToEditor (cmd : string) (editor : string)  (* the two [Popen] of an editor on stdin *)
| PrintCommand (cmd : string)           (* [print(cmd)] *)
| Run (cmd : string)                    (* [sys.exit(os.system(cmd))] *)
| Crash (e : exn).                      (* an exception of the constructor, of
                                           [__repr__] or of the making of the command *)

Definition editors_that_need_stdin : list string := ["vim"].

Definition grep : string := "grep --binary-files=without-match -H".

(** The command that lists the files, for Mercurial. *)
Definition hg_command (a : ArgParser) : string :=
  match revisions a with
  | _ :: _ =>
      ("HGPLAIN=1 hg status --print0 --no-status -X 'set:symlink()' "
       ++ quote (include_globs a) (flag_pattern "-I") ++ " "
       ++ quote (exclude_globs a) (flag_pattern "-X") ++ " "
       ++ quote (revisions a) (flag_pattern "--rev"))%string
  | [] =>
      ("HGPLAIN=1 hg files --print0 "
       ++ quote (include_globs a) (flag_pattern "-I") ++ " "
       ++ quote (exclude_globs a) (flag_pattern "-X")
       ++ " --verbose | sed --null-data -n -e "
       ++ Shlex.quote "s/^.........[0-9] [^l] \(.*\)/\1/p")%string
  end.

(** The command that lists the files, for Git. *)
Definition git_command (a : ArgParser) : ending string :=
  match revisions a with
  | _ :: _ => SystemExit (prog_name ggit ++ ": --rev is not implemented for Git")%string
  | [] =>
      let cmd := ("git ls-files --stage -z | sed --null-data -n -e "
                  ++ Shlex.quote "s/^100... .*\t\(.*\)/\1/p")%string in
      match
        match include_globs a with
        | _ :: _ =>
            match globs_to_grep_pipe (prog_name ggit) (include_globs a) with
            | Done pipe => Done (cmd ++ pipe)%string
            | SystemExit msg => SystemExit msg
            | Uncaught e => Uncaught e
            end
        | [] => Done cmd
        end
      with
      | Done cmd1 =>
          match exclude_globs a with
          | _ :: _ =>
              match globs_to_grep_pipe (prog_name ggit) (exclude_globs a) with
              | Done pipe => Done (cmd1 ++ pipe ++ " -v")%string
              | SystemExit msg => SystemExit msg
              | Uncaught e => Uncaught e
              end
          | [] => Done cmd1
          end
      | SystemExit msg => SystemExit msg
      | Uncaught e => Uncaught e
      end
  end.

Definition list_command (prog : program) (a : ArgParser) : ending string :=
  match prog with
  | hgg => Done (hg_command a)
  | ggit => git_command a
  end.

(** [if args.editor:]. *)
Definition chosen_editor (a : ArgParser) : option string :=
  match editor a with
  | Some e => if Py.is_empty e then None else Some e
  | None => None
  end.

(** The script from the line that builds the [ArgParser] on, for the
    program name [prog] and the arguments [argv] that follow it. *)
Definition script (prog : program) (argv : list string) : action :=
  match ArgParser_init argv with
  | Raise e => Crash e
  | Ok a =>
      if explain a then
        match ArgParser_repr a with
        | Ok text => PrintExplain text
        | Raise e => Crash e
        end
      else if version a then ReportVersions
      else if help a
              || match argv with [] => true | _ :: _ => false end
              || match argv with [only] => String.eqb only "-h" | _ => false end
      then Usage prog
      else
        match list_command prog a with
        | SystemExit msg => Exit msg
        | Uncaught e => Crash e
        | Done cmd0 =>
            let grep_args1 :=
              match chosen_editor a with
              | Some _ => grep_args a ++ ["-l"; "--null"]
              | None => grep_args a ++ [grep_color_arg a]
              end in
            let cmd := (cmd0 ++ " | xargs -0 " ++ grep ++ " "
                        ++ quote grep_args1 plain_pattern ++ " --")%string in
            match chosen_editor a with
            | Some e =>
                if Py.str_in e editors_that_need_stdin && negb (show a)
                then PipeToEditor cmd e
                else
                  let cmd1 := (cmd ++ " | xargs --no-run-if-empty -0 " ++ e)%string in
                  if show a then PrintCommand cmd1 else Run cmd1
            | None => if show a then PrintCommand cmd else Run cmd
            end
        end
  end.

(** * The notions of the specification *)

(** ** The classifier *)

(** The attributes that the examples of the class docstring show. *)
Definition shown (a : ArgParser) :=
  (editor a, grep_args a, grep_color_arg a, include_globs a, revisions a,
   (show a, version a)).

Definition shown_of (args : list string) :=
  match ArgParser_init args with
  | Ok a => Some (shown a)
  | Raise _ => None
  end.

(** The pass reaches the token at index [k] of [args], which is [tok], in
    the state [l], and takes the decision [d] for it. *)
Definition dispatched (args : list string) (k : nat) (tok : string) (l : locals)
  (d : decision) : Prop :=
  nth_error args k = Some tok /\ pass (firstn k args) = Ok l /\ decide l tok = Ok d.

(** The scan of a flag cluster that starts at index [a] reads the character
    [c] at index [i]: no character before it took an argument. *)
Definition scanned_from (a : nat) (tok : string) (i : nat) (c : ascii) : Prop :=
  a <= i /\ String.get i tok = Some c /\
  forall j d, a <= j < i -> String.get j tok = Some d ->
              Py.char_in d grep_flags_with_argument = false.

(** [tok] is a cluster of short flags (a long flag starts with two dashes)
    and [c] is one of the flag characters the scan reads in it. *)
Definition short_flag (tok : string) (c : ascii) : Prop :=
  String.get 1 tok <> Some "-"%char /\ exists i, scanned_from 1 tok i c.

(** [tok] selects the matcher mode. *)
Definition selects_matcher (tok : string) : Prop :=
  exists c, short_flag tok c /\ Py.char_in c grep_flags_matcher_select = true.

(** [tok] supplies the pattern. *)
Definition supplies_pattern (tok : string) : Prop :=
  exists c, short_flag tok c /\
            Py.char_in c grep_flags_suppress_implicit_pattern_arg = true.

(** A decision for a token that is neither a flag, nor the argument of a
    flag, nor an option of the tool. *)
Definition positional (d : decision) : bool :=
  match d with
  | ImplicitPattern | ExtensionShorthand | IncludeGlob => true
  | _ => false
  end.

(** A token that is an extension shorthand where it is not the pattern. *)
Definition is_extension (tok : string) : bool :=
  Py.startswith tok "." && negb (Py.char_in "/" tok).

(** What a decision tells about the state and the token it was taken
    for. *)
Definition decided (l : locals) (tok : string) (d : decision) : Prop :=
  match d with
  | FeedPending p => next_arg_processor l = Some p
  | EditorFlag => next_arg_processor l = None /\ Py.str_in tok editor_flags = true
  | SwitchFlag =>
      next_arg_processor l = None
      /\ Py.str_in tok ["--explain"; "--help"; "--show"; "--version"] = true
  | ExcludeFlag => next_arg_processor l = None /\ tok = "-X"
  | ColorFlag =>
      next_arg_processor l = None
      /\ (tok = "--color" \/ Py.startswith tok "--color=" = true)
  | RevisionFlag =>
      next_arg_processor l = None /\ (tok = "--rev" \/ Py.startswith tok "-r" = true)
  | MatcherFlag => next_arg_processor l = None /\ 2 <= String.length tok
  | ImplicitPattern =>
      next_arg_processor l = None /\ awaiting_implicit_pattern_arg l = true
  | ExtensionShorthand =>
      next_arg_processor l = None /\ awaiting_implicit_pattern_arg l = false
      /\ is_extension tok = true
  | IncludeGlob =>
      next_arg_processor l = None /\ awaiting_implicit_pattern_arg l = false
      /\ is_extension tok = false
  end.

(** The five lists a token can be appended to are the same in [l] and [l']. *)
Definition same_lists (l l' : locals) : Prop :=
  grep_args (self l') = grep_args (self l)
  /\ include_globs (self l') = include_globs (self l)
  /\ exclude_globs (self l') = exclude_globs (self l)
  /\ revisions (self l') = revisions (self l)
  /\ extension_globs l' = extension_globs l.

(** Some token of [args] was taken as a matcher flag and selects the
    matcher mode. *)
Definition mode_selected (args : list string) : Prop :=
  exists k tok l, dispatched args k tok l MatcherFlag /\ selects_matcher tok.

(** A token before index [k] was taken as a matcher flag and supplies the
    pattern. *)
Definition pattern_supplied_before (args : list string) (k : nat) : Prop :=
  exists j tok l, j < k /\ dispatched args j tok l MatcherFlag /\ supplies_pattern tok.

(** The turn from [l] to [l'] appends [tok] to the matcher arguments and
    leaves the path filters alone. *)
Definition taken_as_pattern (l l' : locals) (tok : string) : Prop :=
  grep_args (self l') = grep_args (self l) ++ [tok]
  /\ include_globs (self l') = include_globs (self l)
  /\ extension_globs l' = extension_globs l
  /\ awaiting_implicit_pattern_arg l' = false.

(** The turn from [l] to [l'] appends [tok] to the extension shorthands or
    to the include globs and leaves the matcher arguments alone. *)
Definition taken_as_path_filter (l l' : locals) (tok : string) : Prop :=
  grep_args (self l') = grep_args (self l)
  /\ if is_extension tok
     then extension_globs l' = extension_globs l ++ [tok]
          /\ include_globs (self l') = include_globs (self l)
     else include_globs (self l') = include_globs (self l) ++ [tok]
          /\ extension_globs l' = extension_globs l.

(** A run of [n] slashes. *)
Fixpoint slashes (n : nat) : string :=
  match n with
  | O => EmptyString
  | S k => String "/" (slashes k)
  end.

(** The last character of [s] is [c]. *)
Definition ends_with (s : string) (c : ascii) : Prop :=
  exists front, s = (front ++ String c EmptyString)%string.

(** The decisions of the pass, each with its token, in order. *)
Fixpoint trace (args : list string) (l : locals) : outcome (list (decision * string)) :=
  match args with
  | [] => Ok []
  | arg :: rest =>
      d <- decide l arg ;;
      l' <- execute d arg l ;;
      t <- trace rest l' ;;
      Ok ((d, arg) :: t)
  end.

(** Where a turn puts its token. *)
Inductive destination : Type :=
| ToMatcherArgs
| ToIncludeGlobs
| ToExtensions
| ToExcludeGlobs
| ToRevisions
| ToAttribute   (* the editor, a switch or the colour argument *)
| Deferring.    (* a bare [-X], [-r] or [--rev]: the next token is the entry *)

Definition destination_eqb (x y : destination) : bool :=
  match x, y with
  | ToMatcherArgs, ToMatcherArgs
  | ToIncludeGlobs, ToIncludeGlobs
  | ToExtensions, ToExtensions
  | ToExcludeGlobs, ToExcludeGlobs
  | ToRevisions, ToRevisions
  | ToAttribute, ToAttribute
  | Deferring, Deferring => true
  | _, _ => false
  end.

Definition destination_of (turn : decision * string) : destination :=
  match fst turn with
  | FeedPending grep_args_append | MatcherFlag | ImplicitPattern => ToMatcherArgs
  | FeedPending exclude_globs_append => ToExcludeGlobs
  | FeedPending revisions_append => ToRevisions
  | RevisionFlag =>
      if Py.str_in (snd turn) ["--rev"; "-r"] then Deferring else ToRevisions
  | ExcludeFlag => Deferring
  | EditorFlag | SwitchFlag | ColorFlag => ToAttribute
  | ExtensionShorthand => ToExtensions
  | IncludeGlob => ToIncludeGlobs
  end.

(** What a turn appends: the token, or its value for [-rVALUE]. *)
Definition value_of (turn : decision * string) : string :=
  match fst turn with
  | RevisionFlag => Py.slice_from 2 (snd turn)
  | _ => snd turn
  end.

Definition turns_to (dest : destination) (t : list (decision * string))
  : list (decision * string) :=
  filter (fun turn => destination_eqb (destination_of turn) dest) t.

Definition sent_to (dest : destination) (t : list (decision * string)) : list string :=
  map value_of (turns_to dest t).

(** The count of the specification: the entries of the lists, the editor
    when it is set, and the switches that are set. *)
Definition distributed (l : locals) : nat :=
  List.length (grep_args (self l)) + List.length (include_globs (self l))
  + List.length (extension_globs l) + List.length (exclude_globs (self l))
  + List.length (revisions (self l))
  + match editor (self l) with Some _ => 1 | None => 0 end
  + (Nat.b2n (explain (self l)) + Nat.b2n (help (self l)) + Nat.b2n (show (self l))
     + Nat.b2n (version (self l))).

(** The tokens consumed as the argument of [-X], [-r] or [--rev]: the pairs
    that make one entry. *)
Definition paired_arguments (t : list (decision * string)) : nat :=
  List.length (turns_to ToExcludeGlobs t)
  + List.length (filter (fun turn => match fst turn with
                                     | FeedPending revisions_append => true
                                     | _ => false
                                     end) t).

(** ** The glob compiler *)

(** The matches among the pieces of a split: the pieces at the odd
    indices. *)
Fixpoint separators (pieces : list string) : list string :=
  match pieces with
  | _ :: m :: rest => m :: separators rest
  | _ => []
  end.

(** The tokens of a glob that the pattern of the split matched, in order;
    the braces are among them. *)
Definition brace_tokens (glob : string) : list string :=
  separators (Re.split (Re.sub_dot_segments true glob)).

Fixpoint count_token (tok : string) (toks : list string) : Z :=
  match toks with
  | [] => 0
  | t :: rest => (if String.eqb t tok then 1 else 0) + count_token tok rest
  end.

Definition opens (toks : list string) : Z := count_token "{" toks.
Definition closes (toks : list string) : Z := count_token "}" toks.

(** A closing brace is met while no group is open. *)
Definition unexpected_closing_brace (toks : list string) : Prop :=
  exists n, (opens (firstn n toks) < closes (firstn n toks))%Z.

(** No closing brace comes before its opening brace. *)
Definition never_closed_early (toks : list string) : Prop :=
  forall n, (closes (firstn n toks) <= opens (firstn n toks))%Z.

(** A group is still open after the last token. *)
Definition unclosed_brace (toks : list string) : Prop :=
  never_closed_early toks /\ (closes toks < opens toks)%Z.

Definition balanced (toks : list string) : Prop :=
  never_closed_early toks /\ closes toks = opens toks.

(** The texts the pattern of the split can match. *)
Definition meta_shape (m : string) : Prop :=
  m = "**/" \/ m = "**"
  \/ (exists c, m = String c EmptyString /\ Py.char_in c "*?,{}" = true)
  \/ (exists body, m = String "[" body).

(** A list of pieces: text, then match and text any number of times. *)
Inductive alternating : list string -> Prop :=
| alternating_last (lit : string) : alternating [lit]
| alternating_more (lit m : string) (rest : list string) :
    meta_shape m -> alternating rest -> alternating (lit :: m :: rest).

(** The path segments of a glob: [s.split('/')]. *)
Fixpoint segments (s : string) : list string :=
  match s with
  | EmptyString => [EmptyString]
  | String c rest =>
      if Ascii.eqb c "/" then EmptyString :: segments rest
      else match segments rest with
           | seg :: more => String c seg :: more
           | [] => [String c EmptyString]
           end
  end.

(** A dot and a newline. *)
Definition dot_newline : string := String "." (String Re.newline EmptyString).

(** No character of [g] is one of [*], [?], [,], [{], [}]. *)
Definition no_meta_character (g : string) : Prop :=
  forall c, Py.char_in c g = true -> Py.char_in c "*?,{}" = false.

(** [g] has no bracket expression: no [[], then one or more characters
    other than []], then []]. *)
Definition no_bracket_expression (g : string) : Prop :=
  forall pre body post,
    g = (pre ++ "[" ++ body ++ "]" ++ post)%string ->
    Py.char_in "]" body = false -> body = EmptyString.

(** The condition on a list of segments under which nothing is deleted. *)
Definition kept_segments (segs : list string) : Prop :=
  ~ In "." segs /\ (segs <> [] -> last segs EmptyString <> dot_newline).

(** ** Further notions for the classifier *)

(** The token of the last turn of [t] whose decision satisfies [want]. *)
Definition last_token (want : decision -> bool) (t : list (decision * string))
  : option string :=
  option_map snd (find (fun turn => want (fst turn)) (rev t)).

Definition is_editor_flag (d : decision) : bool :=
  match d with EditorFlag => true | _ => false end.

Definition is_color_flag (d : decision) : bool :=
  match d with ColorFlag => true | _ => false end.

(** The cluster of short flags [tok] ends with a flag that takes an
    argument, and the scan gets that far: the argument is the next
    token. *)
Definition takes_next_argument (tok : string) : Prop :=
  String.get 1 tok <> Some "-"%char
  /\ exists c, scanned_from 1 tok (String.length tok - 1) c
               /\ Py.char_in c grep_flags_with_argument = true.

(** A token that the chain of conditions can take for a flag of the
    matcher: two characters or more, the first a dash. *)
Definition looks_like_flag (tok : string) : Prop :=
  2 <= String.length tok /\ String.get 0 tok = Some "-"%char.

(** ** Notions for [__repr__], [quote] and the script *)

(** The text that [--explain] prints for the arguments [args]. *)
Definition explain_of (args : list string) : option string :=
  match ArgParser_init args with
  | Ok a => match ArgParser_repr a with
            | Ok text => Some text
            | Raise _ => None
            end
  | Raise _ => None
  end.

(** Lines joined by newlines. *)
Definition text_of (lines : list string) : string :=
  String.concat (String Re.newline "") lines.

(** The attributes in the order of their names. *)
Definition items_by_name (a : ArgParser) : list (string * value) :=
  [("editor", match editor a with Some e => VStr e | None => VNone end);
   ("exclude_globs", VList (exclude_globs a)); ("explain", VBool (explain a));
   ("grep_args", VList (grep_args a)); ("grep_color_arg", VStr (grep_color_arg a));
   ("help", VBool (help a)); ("include_globs", VList (include_globs a));
   ("revisions", VList (revisions a)); ("show", VBool (show a));
   ("version", VBool (version a))].

(** The attributes that are shown: those that are not false, empty or
    [None]. *)
Definition shown_items (a : ArgParser) : list (string * value) :=
  filter (fun item => Repr.truthy (snd item)) (items_by_name a).

(** What a POSIX shell reads in a text of plain words and pipes: blanks
    part the words and a bar outside quotes parts the commands; between
    single quotes every character stands for itself; between double quotes
    every character other than [$], the backquote and the backslash does;
    outside quotes only the characters that [shlex] calls safe are taken
    into a word, so that a text with anything else the shell could give a
    meaning to has no reading. *)
Inductive sh_token : Type :=
| Word (w : string)
| Pipe.

Inductive sh_mode : Type :=
| Bare
| InSingle
| InDouble.

Definition word_text (word : option string) : string :=
  match word with
  | Some w => w
  | None => EmptyString
  end.

Definition add_char (word : option string) (c : ascii) : option string :=
  Some (word_text word ++ String c EmptyString)%string.

(** The word that was being read, if any, is complete. *)
Definition end_word (word : option string) (toks : list sh_token) : list sh_token :=
  match word with
  | Some w => Word w :: toks
  | None => toks
  end.

(** [word] is the word being read, if one is begun. *)
Fixpoint sh_read (mode : sh_mode) (word : option string) (s : string)
  : option (list sh_token) :=
  match s with
  | EmptyString =>
      match mode with
      | Bare => Some (end_word word [])
      | InSingle | InDouble => None
      end
  | String c rest =>
      match mode with
      | Bare =>
          if Ascii.eqb c " " then option_map (end_word word) (sh_read Bare None rest)
          else if Ascii.eqb c "|"
          then option_map (fun toks => end_word word (Pipe :: toks)) (sh_read Bare None rest)
          else if Ascii.eqb c "'" then sh_read InSingle (Some (word_text word)) rest
          else if Ascii.eqb c "034" then sh_read InDouble (Some (word_text word)) rest
          else if Py.char_in c Shlex.safe_chars then sh_read Bare (add_char word c) rest
          else None
      | InSingle =>
          if Ascii.eqb c "'" then sh_read Bare word rest
          else sh_read InSingle (add_char word c) rest
      | InDouble =>
          if Ascii.eqb c "034" then sh_read Bare word rest
          else if Py.char_in c "$`\" then None
          else sh_read InDouble (add_char word c) rest
      end
  end.

Definition sh_words (s : string) : option (list sh_token) := sh_read Bare None s.

(** The words [ws], and the words [args] each after the word [flag]. *)
Definition words (ws : list string) : list sh_token := map Word ws.

Definition flagged (flag : string) (args : list string) : list sh_token :=
  flat_map (fun a => [Word flag; Word a]) args.

(** The pipeline the script writes, as the shell reads it. *)

(** The listing of the files by Mercurial. *)
Definition hg_tokens (a : ArgParser) : list sh_token :=
  match revisions a with
  | _ :: _ =>
      words ["HGPLAIN=1"; "hg"; "status"; "--print0"; "--no-status"; "-X"; "set:symlink()"]
      ++ flagged "-I" (include_globs a) ++ flagged "-X" (exclude_globs a)
      ++ flagged "--rev" (revisions a)
  | [] =>
      words ["HGPLAIN=1"; "hg"; "files"; "--print0"]
      ++ flagged "-I" (include_globs a) ++ flagged "-X" (exclude_globs a)
      ++ words ["--verbose"]
      ++ Pipe :: words ["sed"; "--null-data"; "-n"; "-e";
                        "s/^.........[0-9] [^l] \(.*\)/\1/p"]
  end.

(** A [grep] on the names of the files, for the patterns [rs], if any. *)
Definition name_filter (rs : list string) (more : list string) : list sh_token :=
  match rs with
  | _ :: _ => Pipe :: words ["grep"; "-EzZ"] ++ flagged "-e" rs ++ words more
  | [] => []
  end.

(** The listing of the files by Git, for the patterns of the globs to
    include and of the globs to exclude. *)
Definition git_tokens (included excluded : list string) : list sh_token :=
  words ["git"; "ls-files"; "--stage"; "-z"]
  ++ Pipe :: words ["sed"; "--null-data"; "-n"; "-e"; "s/^100... .*\t\(.*\)/\1/p"]
  ++ name_filter included [] ++ name_filter excluded ["-v"].

(** The [grep] on the files. *)
Definition grep_tokens (a : ArgParser) : list sh_token :=
  Pipe :: words ["xargs"; "-0"; "grep"; "--binary-files=without-match"; "-H"]
  ++ words (grep_args a)
  ++ words (match editor a with
            | Some _ => ["-l"; "--null"]
            | None => [grep_color_arg a]
            end)
  ++ words ["--"].

(** The editor on the files that match. *)
Definition editor_tokens (a : ArgParser) : list sh_token :=
  match editor a with
  | Some e => Pipe :: words ["xargs"; "--no-run-if-empty"; "-0"; e]
  | None => []
  end.

(** The script goes on to build a command: it is asked neither to explain,
    nor for the versions, nor for the usage. *)
Definition searches (a : ArgParser) (argv : list string) : bool :=
  negb (explain a) && negb (version a)
  && negb (help a
           || match argv with [] => true | _ :: _ => false end
           || match argv with [only] => String.eqb only "-h" | _ => false end).

(** The braces of the glob [g] nest. *)
Definition well_braced (g : string) : Prop := balanced (brace_tokens g).

(** * The examples of the docstrings *)

(** The examples of the docstring. *)
Example doctest_glob :
  glob_to_grep_pattern "" = Ok ""
  /\ glob_to_grep_pattern "img????.cpp" = Ok "^img....\.cpp(/|$)"
  /\ glob_to_grep_pattern "*.cpp" = Ok "^[^/]*\.cpp(/|$)"
  /\ glob_to_grep_pattern "main.[ch]" = Ok "^main\.[ch](/|$)"
  /\ glob_to_grep_pattern "*.{c,cpp,h}" = Ok "^[^/]*\.(c|cpp|h)(/|$)"
  /\ glob_to_grep_pattern "**/*.[ch]" = Ok "^.*[^/]*\.[ch](/|$)"
  /\ glob_to_grep_pattern "." = Ok ""
  /\ glob_to_grep_pattern "./foo/./bar" = Ok "^foo\/bar(/|$)"
  /\ glob_to_grep_pattern "../foo/bar**" = Ok "^\.\.\/foo\/bar.*(/|$)"
  /\ glob_to_grep_pattern "main.{[ch],[ch]pp,*zzz}" = Ok "^main\.([ch]|[ch]pp|[^/]*zzz)(/|$)"
  /\ glob_to_grep_pattern "{foo,ba{r,z}}" = Ok "^(foo|ba(r|z))(/|$)"
  /\ glob_to_grep_pattern "foo{bar" = Raise (ValueError (unclosed_brace_msg "foo{bar"))
  /\ glob_to_grep_pattern "foo{bar}}" = Raise (ValueError (unexpected_brace_msg "foo{bar}}")).
Proof. repeat split; vm_compute; reflexivity. Qed.

(** The examples of the class docstring. *)
Example doctest_args :
  shown_of ["hello"] = Some (None, ["-E"; "hello"], "--color", [], [], (false, false))
  /\ shown_of ["hello"; "--color"] = Some (None, ["-E"; "hello"], "--color", [], [], (false, false))
  /\ shown_of ["hello"; "--color=always"]
     = Some (None, ["-E"; "hello"], "--color=always", [], [], (false, false))
  /\ shown_of ["hello"; "-G"] = Some (None, ["hello"; "-G"], "--color", [], [], (false, false))
  /\ shown_of ["--show"; "hello"; "--gvim"]
     = Some (Some "gvim", ["-E"; "hello"], "--color", [], [], (true, false))
  /\ shown_of ["pat"; ".h"; ".cpp"]
     = Some (None, ["-E"; "pat"], "--color", ["**{.h,.cpp}"], [], (false, false))
  /\ shown_of ["pat"; ".cpp"; "src"; "docs/"]
     = Some (None, ["-E"; "pat"], "--color", ["src/**{.cpp}"; "docs/**{.cpp}"], [],
             (false, false))
  /\ shown_of [".pattern"; "glob1"; ".extglob"; "*.glob2"; "*/glob3"]
     = Some (None, ["-E"; ".pattern"], "--color",
             ["glob1/**{.extglob}"; "*.glob2/**{.extglob}"; "*/glob3/**{.extglob}"], [],
             (false, false))
  /\ shown_of ["-Ffpattern-file"]
     = Some (None, ["-Ffpattern-file"], "--color", [], [], (false, false))
  /\ shown_of ["-Ff"; "pattern-file"]
     = Some (None, ["-Ff"; "pattern-file"], "--color", [], [], (false, false))
  /\ shown_of ["-e"; "pat1"; "-e"; "pat2"; "path"]
     = Some (None, ["-E"; "-e"; "pat1"; "-e"; "pat2"], "--color", ["path"], [],
             (false, false))
  /\ shown_of ["-r"; "ae279a85a0ad"; "hello"]
     = Some (None, ["-E"; "hello"], "--color", [], ["ae279a85a0ad"], (false, false))
  /\ shown_of ["--rev"; "ae279a85a0ad"; "-r"; "."; "hello"]
     = Some (None, ["-E"; "hello"], "--color", [], ["ae279a85a0ad"; "."], (false, false))
  /\ shown_of ["-rae279a85a0ad"; "-r."; "hello"]
     = Some (None, ["-E"; "hello"], "--color", [], ["ae279a85a0ad"; "."], (false, false))
  /\ shown_of ["hello"; "-GV"]
     = Some (None, ["hello"; "-GV"], "--color", [], [], (false, true)).
Proof. repeat split; vm_compute; reflexivity. Qed.

(** * The classifier never raises *)

Section Outcome.

Context {A B : Type}.

Lemma bind_ok (m : outcome A) (k : A -> outcome B) (b : B) :
  bind m k = Ok b <-> exists a, m = Ok a /\ k a = Ok b.
Proof.
  destruct m as [a|e]; simpl; split.
  - intros H. exists a. auto.
  - intros (a' & Ha & Hk). injection Ha as ->. exact Hk.
  - discriminate.
  - intros (a' & Ha & _). discriminate.
Qed.

End Outcome.

Lemma get_lt (s : string) : forall i, i < String.length s -> exists c, String.get i s = Some c.
Proof.
  induction s as [|d s IH]; simpl; intros i Hi.
  - lia.
  - destruct i as [|i]; [eauto|]. apply IH. lia.
Qed.

Lemma get_some_lt (s : string) : forall i c, String.get i s = Some c -> i < String.length s.
Proof.
  induction s as [|d s IH]; simpl; intros i c H.
  - discriminate.
  - destruct i as [|i]; [lia|]. apply IH in H. lia.
Qed.

Lemma index_ok (s : string) (i : nat) (c : ascii) :
  Py.index s i = Ok c <-> String.get i s = Some c.
Proof.
  unfold Py.index. destruct (String.get i s); split; intros H; inversion H; reflexivity.
Qed.

Lemma index_lt (s : string) (i : nat) :
  i < String.length s -> exists c, Py.index s i = Ok c /\ String.get i s = Some c.
Proof.
  intros Hi. destruct (get_lt s i Hi) as [c Hc]. exists c. split; [|exact Hc].
  apply index_ok, Hc.
Qed.

Lemma dash_test_ok (arg : string) :
  exists b, dash_test arg = Ok b /\ (b = true -> 2 <= String.length arg).
Proof.
  unfold dash_test. destruct (Nat.leb 2 (String.length arg)) eqn:Hlen.
  - apply Nat.leb_le in Hlen.
    destruct (index_lt arg 0) as (c & Hc & _); [lia|].
    rewrite Hc. simpl. eauto.
  - exists false. split; [reflexivity|discriminate].
Qed.

Lemma decide_ok (l : locals) (arg : string) : exists d, decide l arg = Ok d.
Proof.
  unfold decide.
  destruct (next_arg_processor l); [eauto|].
  destruct (Py.str_in arg editor_flags); [eauto|].
  destruct (Py.str_in arg _); [eauto|].
  destruct (String.eqb arg "-X"); [eauto|].
  destruct (_ || _); [eauto|].
  destruct (_ || _); [eauto|].
  destruct (dash_test_ok arg) as (b & -> & _). simpl.
  destruct b; [eauto|].
  destruct (awaiting_implicit_pattern_arg l); [eauto|].
  destruct (_ && _); eauto.
Qed.

(** The chain of conditions, read backwards. *)
Lemma decide_inv (l : locals) (tok : string) (d : decision) :
  decide l tok = Ok d -> decided l tok d.
Proof.
  unfold decide.
  destruct (next_arg_processor l) eqn:Hnext; [intros [= <-]; exact Hnext|].
  destruct (Py.str_in tok editor_flags) eqn:Heditor; [intros [= <-]; cbn; auto|].
  destruct (Py.str_in tok ["--explain"; "--help"; "--show"; "--version"]) eqn:Hswitch;
    [intros [= <-]; cbn; auto|].
  destruct (String.eqb_spec tok "-X") as [HX|_]; [intros [= <-]; cbn; auto|].
  destruct (String.eqb_spec tok "--color") as [Hcolor|_]; [intros [= <-]; cbn; auto|].
  destruct (Py.startswith tok "--color=") eqn:Hcolor; [intros [= <-]; cbn; auto|].
  destruct (String.eqb_spec tok "--rev") as [Hrev|_]; [intros [= <-]; cbn; auto|].
  destruct (Py.startswith tok "-r") eqn:Hr; [intros [= <-]; cbn; auto|].
  cbn [orb].
  destruct (dash_test_ok tok) as (b & -> & Hb). cbn [bind].
  destruct b; [intros [= <-]; cbn; auto|].
  destruct (awaiting_implicit_pattern_arg l) eqn:Hawait; [intros [= <-]; cbn; auto|].
  fold (is_extension tok).
  destruct (is_extension tok) eqn:Hext; intros [= <-]; cbn; auto.
Qed.

Lemma decide_matcher_flag_length (l : locals) (arg : string) :
  decide l arg = Ok MatcherFlag -> 2 <= String.length arg.
Proof. intros H. apply decide_inv in H. apply H. Qed.

Lemma scan_flags_cons (arg : string) (i : nat) (later : list nat) (l : locals) :
  scan_flags arg (i :: later) l =
  (c <- Py.index arg i ;;
   if Ascii.eqb c "V" then scan_flags arg later (on_self (set_version true) l)
   else
     let l1 :=
       if Py.char_in c grep_flags_suppress_implicit_pattern_arg
       then set_awaiting_implicit_pattern_arg false l
       else if Py.char_in c grep_flags_matcher_select
       then set_use_default_matcher false l
       else l in
     if Py.char_in c grep_flags_with_argument then
       Ok (if Nat.eqb i (String.length arg - 1)
           then set_next_arg_processor (Some grep_args_append) l1
           else l1)
     else scan_flags arg later l1).
Proof. reflexivity. Qed.

(** The scan stays inside the token: every index of [range(1, len(arg))]
    is one of its characters. *)
Lemma scan_flags_ok (arg : string) :
  forall n a l, a + n <= String.length arg ->
                exists l', scan_flags arg (seq a n) l = Ok l'.
Proof.
  induction n as [|n IH]; intros a l Ha; cbn [seq].
  - simpl. eauto.
  - rewrite scan_flags_cons.
    destruct (index_lt arg a) as (c & Hc & _); [lia|].
    rewrite Hc. cbn [bind].
    destruct (Ascii.eqb c "V").
    + apply IH. lia.
    + cbv zeta. destruct (Py.char_in c grep_flags_with_argument); [eauto|].
      apply IH. lia.
Qed.

Lemma execute_ok (l : locals) (arg : string) (d : decision) :
  decide l arg = Ok d -> exists l', execute d arg l = Ok l'.
Proof.
  intros Hd. destruct d; cbn [execute]; eauto.
  - destruct (Py.str_in arg ["--rev"; "-r"]); eauto.
  - apply decide_matcher_flag_length in Hd.
    destruct (index_lt arg 1) as (c & Hc & _); [lia|].
    rewrite Hc. cbn [bind].
    destruct (negb _); [|eauto].
    apply scan_flags_ok. lia.
Qed.

Lemma step_ok (l : locals) (arg : string) : exists l', step l arg = Ok l'.
Proof.
  unfold step. destruct (decide_ok l arg) as [d Hd]. rewrite Hd. simpl.
  apply execute_ok, Hd.
Qed.

Lemma loop_ok (args : list string) : forall l, exists l', loop args l = Ok l'.
Proof.
  induction args as [|arg rest IH]; intros l; simpl.
  - eauto.
  - destruct (step_ok l arg) as [l1 ->]. simpl. apply IH.
Qed.

Lemma pass_ok (args : list string) : exists l, pass args = Ok l.
Proof. apply loop_ok. Qed.

(** C1.  [ArgParser.__init__] returns an object for every list of
    arguments: none of its index expressions ([arg[0]], [arg[1]],
    [arg[i]]) is evaluated outside the token, so no exception is raised,
    whatever the tokens are. *)
Theorem classify_total (args : list string) : exists a, ArgParser_init args = Ok a.
Proof.
  unfold ArgParser_init. destruct (pass_ok args) as [l ->]. simpl. eauto.
Qed.

(** * The pass, token by token *)

Lemma loop_app (xs ys : list string) :
  forall l, loop (xs ++ ys) l = (l' <- loop xs l ;; loop ys l').
Proof.
  induction xs as [|x xs IH]; intros l; simpl.
  - reflexivity.
  - destruct (step l x) as [l1|e]; simpl; [apply IH|reflexivity].
Qed.

Lemma firstn_succ (args : list string) :
  forall k tok, nth_error args k = Some tok -> firstn (S k) args = firstn k args ++ [tok].
Proof.
  induction args as [|x args IH]; intros [|k] tok H; simpl in *; try discriminate.
  - injection H as ->. reflexivity.
  - f_equal. apply IH, H.
Qed.

Lemma pass_succ (args : list string) (k : nat) (tok : string) (l : locals) :
  nth_error args k = Some tok -> pass (firstn k args) = Ok l ->
  pass (firstn (S k) args) = step l tok.
Proof.
  intros Hk Hl. unfold pass in *. rewrite (firstn_succ _ _ _ Hk), loop_app, Hl.
  simpl. destruct (step l tok); reflexivity.
Qed.

Lemma step_inv (l l' : locals) (tok : string) :
  step l tok = Ok l' <-> exists d, decide l tok = Ok d /\ execute d tok l = Ok l'.
Proof. apply bind_ok. Qed.

Lemma dispatched_step (args : list string) (k : nat) (tok : string) (l : locals)
  (d : decision) :
  dispatched args k tok l d ->
  pass (firstn (S k) args) = execute d tok l.
Proof.
  intros (H1 & H2 & H3). rewrite (pass_succ _ _ _ _ H1 H2).
  unfold step. rewrite H3. reflexivity.
Qed.

(** A variable of the pass that starts true and that a turn can only
    switch off. *)
Section Flag.

Variable flag : locals -> bool.
Variable off : locals -> string -> Prop.

Hypothesis flag_initial : flag initial = true.
Hypothesis flag_step : forall l tok l',
    step l tok = Ok l' -> (flag l' = true <-> flag l = true /\ ~ off l tok).

Lemma flag_prefix (args : list string) :
  forall k l, k <= List.length args -> pass (firstn k args) = Ok l ->
    (flag l = true <->
     forall j tok lj, j < k -> nth_error args j = Some tok ->
                      pass (firstn j args) = Ok lj -> ~ off lj tok).
Proof.
  induction k as [|k IH]; intros l Hk Hl.
  - injection Hl as <-. split; [intros _ j tok lj Hj; lia|auto].
  - destruct (nth_error args k) as [tok|] eqn:Htok;
      [|apply nth_error_None in Htok; lia].
    destruct (pass_ok (firstn k args)) as [l0 Hl0].
    rewrite (pass_succ _ _ _ _ Htok Hl0) in Hl.
    rewrite (flag_step _ _ _ Hl), (IH l0); [|lia|exact Hl0].
    split.
    + intros [Hbefore Hnow] j tok' lj Hj Hj1 Hj2.
      destruct (Nat.eq_dec j k) as [->|Hne].
      * rewrite Htok in Hj1. injection Hj1 as <-.
        rewrite Hl0 in Hj2. injection Hj2 as <-. exact Hnow.
      * apply (Hbefore j); auto. lia.
    + intros H. split.
      * intros j tok' lj Hj. apply H. lia.
      * apply (H k); auto.
Qed.

End Flag.

(** * The scan of a cluster of short flags *)

Lemma scanned_from_head (a : nat) (tok : string) (c : ascii) (P : ascii -> Prop) :
  String.get a tok = Some c ->
  ((exists i c', scanned_from a tok i c' /\ P c') <->
   (P c \/ (Py.char_in c grep_flags_with_argument = false
            /\ exists i c', scanned_from (S a) tok i c' /\ P c'))).
Proof.
  intros Ha. split.
  - intros (i & c' & (Hi & Hget & Hbefore) & HP).
    destruct (Nat.eq_dec i a) as [->|Hne].
    + rewrite Ha in Hget. injection Hget as <-. left. exact HP.
    + right. split.
      * apply (Hbefore a c); [lia|exact Ha].
      * exists i, c'. split; [|exact HP].
        repeat split; [lia|exact Hget|].
        intros j d Hj. apply Hbefore. lia.
  - intros [HP|(Hc & i & c' & (Hi & Hget & Hbefore) & HP)].
    + exists a, c. split; [|exact HP].
      repeat split; [lia|exact Ha|]. intros j d Hj. lia.
    + exists i, c'. split; [|exact HP].
      repeat split; [lia|exact Hget|].
      intros j d Hj Hd.
      destruct (Nat.eq_dec j a) as [->|Hne].
      * rewrite Ha in Hd. injection Hd as <-. exact Hc.
      * apply (Hbefore j); [lia|exact Hd].
Qed.

Lemma scanned_from_end (a : nat) (tok : string) (P : ascii -> Prop) :
  String.length tok <= a -> ~ exists i c, scanned_from a tok i c /\ P c.
Proof.
  intros Ha (i & c & (Hi & Hget & _) & _). apply get_some_lt in Hget. lia.
Qed.

Lemma suppress_char (c : ascii) :
  Py.char_in c grep_flags_suppress_implicit_pattern_arg = true ->
  Py.char_in c grep_flags_with_argument = true
  /\ Py.char_in c grep_flags_matcher_select = false.
Proof.
  unfold grep_flags_suppress_implicit_pattern_arg. cbn [Py.char_in].
  destruct (Ascii.eqb_spec c "e") as [->|_]; [split; reflexivity|].
  destruct (Ascii.eqb_spec c "f") as [->|_]; [split; reflexivity|].
  discriminate.
Qed.

(** What the scan leaves behind: the two variables it can switch off are
    still on exactly when no character it read switches them off, and the
    lists are untouched. *)
Lemma scan_flags_spec (arg : string) :
  forall n a l l',
    a + n = String.length arg ->
    scan_flags arg (seq a n) l = Ok l' ->
    (awaiting_implicit_pattern_arg l' = true <->
     awaiting_implicit_pattern_arg l = true
     /\ ~ exists i c, scanned_from a arg i c
                      /\ Py.char_in c grep_flags_suppress_implicit_pattern_arg = true)
    /\ (use_default_matcher l' = true <->
        use_default_matcher l = true
        /\ ~ exists i c, scanned_from a arg i c
                         /\ Py.char_in c grep_flags_matcher_select = true)
    /\ same_lists l l'.
Proof.
  induction n as [|n IH]; intros a l l' Ha Hscan; cbn [seq] in Hscan.
  - injection Hscan as <-.
    pose proof (scanned_from_end a arg
      (fun c => Py.char_in c grep_flags_suppress_implicit_pattern_arg = true)) as H1.
    pose proof (scanned_from_end a arg
      (fun c => Py.char_in c grep_flags_matcher_select = true)) as H2.
    unfold same_lists. repeat split; try tauto; intros; try split; auto; try lia;
      [apply H1|apply H2]; lia.
  - rewrite scan_flags_cons in Hscan.
    destruct (index_lt arg a) as (c & Hc & Hget); [lia|].
    rewrite Hc in Hscan. cbn [bind] in Hscan.
    rewrite (scanned_from_head a arg c
      (fun c => Py.char_in c grep_flags_suppress_implicit_pattern_arg = true) Hget).
    rewrite (scanned_from_head a arg c
      (fun c => Py.char_in c grep_flags_matcher_select = true) Hget).
    destruct (Ascii.eqb c "V") eqn:HV.
    + apply Ascii.eqb_eq in HV. subst c.
      apply IH in Hscan; [|lia].
      destruct Hscan as (H1 & H2 & H3).
      change (Py.char_in "V" grep_flags_suppress_implicit_pattern_arg) with false.
      change (Py.char_in "V" grep_flags_matcher_select) with false.
      change (Py.char_in "V" grep_flags_with_argument) with false.
      cbn [on_self awaiting_implicit_pattern_arg use_default_matcher] in H1, H2.
      split; [|split].
      * rewrite H1. intuition discriminate.
      * rewrite H2. intuition discriminate.
      * exact H3.
    + cbv zeta in Hscan.
      destruct (Py.char_in c grep_flags_suppress_implicit_pattern_arg) eqn:Hs.
      * destruct (suppress_char c Hs) as [Hw Hm]. rewrite Hw, Hm in *.
        injection Hscan as <-.
        split; [|split].
        -- destruct (Nat.eqb a _); cbn; intuition discriminate.
        -- destruct (Nat.eqb a _); cbn; intuition discriminate.
        -- unfold same_lists. destruct (Nat.eqb a _); cbn; auto.
      * destruct (Py.char_in c grep_flags_matcher_select) eqn:Hm;
          destruct (Py.char_in c grep_flags_with_argument) eqn:Hw.
        -- injection Hscan as <-.
           split; [|split]; [| |unfold same_lists];
             destruct (Nat.eqb a _); cbn; intuition discriminate.
        -- apply IH in Hscan; [|lia]. destruct Hscan as (H1 & H2 & H3).
           cbn in H1, H2. split; [|split].
           ++ rewrite H1. intuition discriminate.
           ++ rewrite H2. intuition discriminate.
           ++ exact H3.
        -- injection Hscan as <-.
           split; [|split]; [| |unfold same_lists];
             destruct (Nat.eqb a _); cbn; intuition discriminate.
        -- apply IH in Hscan; [|lia]. destruct Hscan as (H1 & H2 & H3).
           split; [|split].
           ++ rewrite H1. intuition discriminate.
           ++ rewrite H2. intuition discriminate.
           ++ exact H3.
Qed.

(** * The effect of one turn *)

Lemma short_flag_ex (tok : string) (P : ascii -> Prop) :
  (exists c, short_flag tok c /\ P c) <->
  (String.get 1 tok <> Some "-"%char /\ exists i c, scanned_from 1 tok i c /\ P c).
Proof.
  unfold short_flag. split.
  - intros (c & (H1 & i & Hi) & HP). eauto.
  - intros (H1 & i & c & Hi & HP). eauto.
Qed.

Lemma execute_matcher_flag (l l' : locals) (arg : string) :
  decide l arg = Ok MatcherFlag -> execute MatcherFlag arg l = Ok l' ->
  grep_args (self l') = grep_args (self l) ++ [arg]
  /\ include_globs (self l') = include_globs (self l)
  /\ exclude_globs (self l') = exclude_globs (self l)
  /\ revisions (self l') = revisions (self l)
  /\ extension_globs l' = extension_globs l
  /\ (awaiting_implicit_pattern_arg l' = true <->
      awaiting_implicit_pattern_arg l = true /\ ~ supplies_pattern arg)
  /\ (use_default_matcher l' = true <->
      use_default_matcher l = true /\ ~ selects_matcher arg).
Proof.
  intros Hd Hex. apply decide_matcher_flag_length in Hd.
  cbn [execute] in Hex.
  destruct (index_lt arg 1) as (c & Hc & Hget); [lia|].
  rewrite Hc in Hex. cbn [bind] in Hex.
  unfold supplies_pattern, selects_matcher. rewrite !short_flag_ex, Hget.
  destruct (Ascii.eqb c "-") eqn:Hdash; cbn [negb] in Hex.
  - apply Ascii.eqb_eq in Hdash. subst c. injection Hex as <-. cbn. repeat split; try tauto; intros [_ [H _]]; congruence.
  - apply scan_flags_spec in Hex; [|lia].
    destruct Hex as (H1 & H2 & H3 & H4 & H5 & H6 & H7). cbn in H1, H2, H3, H4, H5, H6, H7.
    apply Ascii.eqb_neq in Hdash.
    assert (Hdash' : Some c <> Some "-"%char) by congruence.
    repeat split; try assumption; try tauto.
Qed.

Lemma use_default_matcher_step (l l' : locals) (tok : string) :
  step l tok = Ok l' ->
  (use_default_matcher l' = true <->
   use_default_matcher l = true
   /\ ~ (decide l tok = Ok MatcherFlag /\ selects_matcher tok)).
Proof.
  intros Hstep. apply step_inv in Hstep. destruct Hstep as (d & Hd & Hex).
  rewrite Hd.
  destruct d;
    try (cbn [execute] in Hex;
         try destruct (Py.str_in tok ["--rev"; "-r"]);
         injection Hex as <-; cbn;
         (split; [intros H; split; [exact H|intros [? _]; discriminate]|tauto])).
  destruct (execute_matcher_flag _ _ _ Hd Hex) as (_ & _ & _ & _ & _ & _ & H).
  rewrite H. tauto.
Qed.

Lemma awaiting_step (l l' : locals) (tok : string) :
  step l tok = Ok l' ->
  (awaiting_implicit_pattern_arg l' = true <->
   awaiting_implicit_pattern_arg l = true
   /\ ~ (decide l tok = Ok ImplicitPattern
         \/ (decide l tok = Ok MatcherFlag /\ supplies_pattern tok))).
Proof.
  intros Hstep. apply step_inv in Hstep. destruct Hstep as (d & Hd & Hex).
  rewrite Hd.
  destruct d;
    try (cbn [execute] in Hex;
         try destruct (Py.str_in tok ["--rev"; "-r"]);
         injection Hex as <-; cbn;
         (split; [intros H; split; [exact H|intros [?|[? _]]; discriminate]|tauto])).
  - destruct (execute_matcher_flag _ _ _ Hd Hex) as (_ & _ & _ & _ & _ & H & _).
    rewrite H. intuition discriminate.
  - cbn [execute] in Hex. injection Hex as <-. cbn. intuition discriminate.
Qed.

Lemma finalize_grep_args (l : locals) :
  grep_args (finalize l) =
  if use_default_matcher l
  then grep_default_matcher :: grep_args (self l)
  else grep_args (self l).
Proof.
  unfold finalize.
  destruct (extension_globs l), (include_globs (self l)), (use_default_matcher l);
    reflexivity.
Qed.

Lemma use_default_matcher_pass (args : list string) (l : locals) :
  pass args = Ok l -> (use_default_matcher l = true <-> ~ mode_selected args).
Proof.
  intros Hl.
  pose proof (flag_prefix use_default_matcher
                (fun l tok => decide l tok = Ok MatcherFlag /\ selects_matcher tok)
                eq_refl (fun l0 tok l1 => use_default_matcher_step l0 l1 tok) args (List.length args) l) as H.
  rewrite firstn_all in H. rewrite (H (le_n _) Hl). clear H.
  unfold mode_selected, dispatched. split.
  - intros H (k & tok & lk & (H1 & H2 & H3) & H4).
    apply (H k tok lk); auto.
    apply nth_error_Some. congruence.
  - intros H j tok lj Hj H1 H2 [H3 H4]. apply H. exists j, tok, lj. auto.
Qed.

(** C5.  The default matcher flag [-E] is put in front of the matcher
    arguments exactly when no token was taken as a matcher flag in which
    the scan read one of the characters [E], [F], [G], [P]; when there was
    one, the matcher arguments are those of the pass.  With [hello -G] no
    default is added. *)
Theorem default_matcher_iff_no_mode_selected (args : list string) :
  exists l a,
    pass args = Ok l /\ ArgParser_init args = Ok a
    /\ (grep_args a = grep_default_matcher :: grep_args (self l) <-> ~ mode_selected args)
    /\ (mode_selected args -> grep_args a = grep_args (self l))
    /\ (exists a', ArgParser_init ["hello"; "-G"] = Ok a' /\ grep_args a' = ["hello"; "-G"]).
Proof.
  destruct (pass_ok args) as [l Hl]. exists l, (finalize l).
  split; [exact Hl|]. split; [unfold ArgParser_init; rewrite Hl; reflexivity|].
  rewrite finalize_grep_args.
  pose proof (use_default_matcher_pass args l Hl) as Hflag.
  assert (Hlen : forall x : list string, x <> grep_default_matcher :: x).
  { intros x H. apply (f_equal (@List.length string)) in H. simpl in H. lia. }
  split; [|split].
  - destruct (use_default_matcher l).
    + split; [intros _; apply Hflag; reflexivity|reflexivity].
    + split; [intros H; elim (Hlen _ H)|intros H; apply Hflag in H; discriminate].
  - intros Hsel. destruct (use_default_matcher l); [|reflexivity].
    exfalso. apply Hflag; [reflexivity|exact Hsel].
  - eexists. split; [vm_compute; reflexivity|reflexivity].
Qed.

(** * The implicit pattern *)

Lemma decide_positional (l : locals) (tok : string) (d : decision) :
  decide l tok = Ok d -> positional d = true ->
  (awaiting_implicit_pattern_arg l = true /\ d = ImplicitPattern)
  \/ (awaiting_implicit_pattern_arg l = false
      /\ d = if is_extension tok then ExtensionShorthand else IncludeGlob).
Proof.
  intros Hd Hpos. apply decide_inv in Hd.
  destruct d; try discriminate; cbn in Hd.
  - left. split; [apply Hd|reflexivity].
  - right. destruct Hd as (_ & Ha & ->). auto.
  - right. destruct Hd as (_ & Ha & ->). auto.
Qed.

Lemma execute_implicit_pattern (l l' : locals) (tok : string) :
  execute ImplicitPattern tok l = Ok l' -> taken_as_pattern l l' tok.
Proof. intros [= <-]. repeat split. Qed.

Lemma execute_path_filter (l l' : locals) (tok : string) :
  execute (if is_extension tok then ExtensionShorthand else IncludeGlob) tok l = Ok l' ->
  taken_as_path_filter l l' tok.
Proof.
  unfold taken_as_path_filter.
  destruct (is_extension tok); intros [= <-]; repeat split.
Qed.

Lemma awaiting_prefix (args : list string) (k : nat) (l : locals) :
  k <= List.length args -> pass (firstn k args) = Ok l ->
  (awaiting_implicit_pattern_arg l = true <->
   forall j tok lj, j < k -> nth_error args j = Some tok ->
                    pass (firstn j args) = Ok lj ->
                    ~ (decide lj tok = Ok ImplicitPattern
                       \/ (decide lj tok = Ok MatcherFlag /\ supplies_pattern tok))).
Proof.
  apply (flag_prefix awaiting_implicit_pattern_arg
           (fun l tok => decide l tok = Ok ImplicitPattern
                         \/ (decide l tok = Ok MatcherFlag /\ supplies_pattern tok))
           eq_refl (fun l0 tok l1 => awaiting_step l0 l1 tok)).
Qed.

Lemma dispatched_lt (args : list string) (k : nat) (tok : string) (l : locals)
  (d : decision) :
  dispatched args k tok l d -> k < List.length args.
Proof. intros (H & _). apply nth_error_Some. congruence. Qed.

(** C6, as amended.  The first token that is neither a flag, nor the
    argument of a flag, nor an option of the tool is appended to the
    matcher arguments, as the implicit pattern, unless a token before it
    was taken as a matcher flag and supplies the pattern: it is a cluster
    of short flags in which the scan reads [e] or [f].  Then the token is
    an extension shorthand or an include glob.  Every later such token is
    an extension shorthand or an include glob.  With
    [-e pat1 -e pat2 path], [path] is an include glob. *)
Theorem implicit_pattern_slot (args : list string) (k : nat) (tok : string)
  (l : locals) (d : decision) :
  dispatched args k tok l d -> positional d = true ->
  (forall j tok' l' d', j < k -> dispatched args j tok' l' d' -> positional d' = false) ->
  exists l1,
    pass (firstn (S k) args) = Ok l1
    /\ (~ pattern_supplied_before args k -> taken_as_pattern l l1 tok)
    /\ (pattern_supplied_before args k -> taken_as_path_filter l l1 tok)
    /\ (forall j tok' l' d',
           k < j -> dispatched args j tok' l' d' -> positional d' = true ->
           exists l1', pass (firstn (S j) args) = Ok l1'
                       /\ taken_as_path_filter l' l1' tok')
    /\ (exists a, ArgParser_init ["-e"; "pat1"; "-e"; "pat2"; "path"] = Ok a
                  /\ include_globs a = ["path"]
                  /\ grep_args a = ["-E"; "-e"; "pat1"; "-e"; "pat2"]).
Proof.
  intros Hk Hpos Hfirst.
  pose proof (dispatched_lt _ _ _ _ _ Hk) as Hlt.
  pose proof Hk as (Hnth & Hpass & Hdec).
  assert (Hawait : awaiting_implicit_pattern_arg l = true <->
                   ~ pattern_supplied_before args k).
  { rewrite (awaiting_prefix args k l); [|lia|exact Hpass]. split.
    - intros H (j & tok' & lj & Hj & (H1 & H2 & H3) & H4).
      apply (H j tok' lj); auto.
    - intros H j tok' lj Hj H1 H2 [H3|[H3 H4]].
      + assert (Hd : dispatched args j tok' lj ImplicitPattern) by (repeat split; auto).
        apply (Hfirst _ _ _ _ Hj) in Hd. discriminate.
      + apply H. exists j, tok', lj. repeat split; auto. }
  destruct (execute_ok l tok d Hdec) as [l1 Hex].
  exists l1. rewrite (dispatched_step _ _ _ _ _ Hk).
  split; [exact Hex|].
  destruct (decide_positional _ _ _ Hdec Hpos) as [[Ha ->]|[Ha ->]].
  - split; [|split; [|split]].
    + intros _. apply execute_implicit_pattern, Hex.
    + intros H. apply Hawait in Ha. contradiction.
    + intros j tok' l' d' Hj Hd' Hpos'.
      pose proof Hd' as (Hnth' & Hpass' & Hdec').
      destruct (execute_ok l' tok' d' Hdec') as [l1' Hex'].
      exists l1'. rewrite (dispatched_step _ _ _ _ _ Hd'). split; [exact Hex'|].
      destruct (decide_positional _ _ _ Hdec' Hpos') as [[Ha' ->]|[Ha' ->]].
      * exfalso.
        apply dispatched_lt in Hd'.
        apply (proj1 (awaiting_prefix args j l' (Nat.lt_le_incl _ _ Hd') Hpass') Ha'
                 k tok l Hj Hnth Hpass).
        left. exact Hdec.
      * apply execute_path_filter, Hex'.
    + eexists. split; [vm_compute; reflexivity|split; reflexivity].
  - split; [|split; [|split]].
    + intros H. apply Hawait in H. congruence.
    + intros _. apply execute_path_filter, Hex.
    + intros j tok' l' d' Hj Hd' Hpos'.
      pose proof Hd' as (Hnth' & Hpass' & Hdec').
      destruct (execute_ok l' tok' d' Hdec') as [l1' Hex'].
      exists l1'. rewrite (dispatched_step _ _ _ _ _ Hd'). split; [exact Hex'|].
      destruct (decide_positional _ _ _ Hdec' Hpos') as [[Ha' ->]|[Ha' ->]].
      * exfalso.
        apply dispatched_lt in Hd'.
        pose proof (proj1 (awaiting_prefix args j l' (Nat.lt_le_incl _ _ Hd') Hpass') Ha')
          as Hnone.
        assert (Hk' : awaiting_implicit_pattern_arg l = true).
        { apply (awaiting_prefix args k l); [lia|exact Hpass|].
          intros i toki li Hi. apply Hnone. lia. }
        congruence.
      * apply execute_path_filter, Hex'.
    + eexists. split; [vm_compute; reflexivity|split; reflexivity].
Qed.

Lemma implicit_pattern_slot_witness :
  dispatched ["hello"; "src"; ".py"] 0 "hello" initial ImplicitPattern
  /\ exists l1, pass (firstn 1 ["hello"; "src"; ".py"]) = Ok l1
                /\ (~ pattern_supplied_before ["hello"; "src"; ".py"] 0 ->
                    taken_as_pattern initial l1 "hello").
Proof.
  assert (H : dispatched ["hello"; "src"; ".py"] 0 "hello" initial ImplicitPattern)
    by (repeat split; reflexivity).
  split; [exact H|].
  destruct (implicit_pattern_slot ["hello"; "src"; ".py"] 0 "hello" initial ImplicitPattern)
    as (l1 & H1 & H2 & _).
  - exact H.
  - reflexivity.
  - intros j tok' l' d' Hj. lia.
  - exists l1. split; [exact H1|exact H2].
Defined.

(** A long flag is not scanned: [--ignore-case] has the character [e],
    which a scan from behind the two dashes would read, and the token after
    it is still the implicit pattern. *)
Lemma long_flag_keeps_pattern_slot :
  Py.char_in "e" "--ignore-case" = true
  /\ scanned_from 2 "--ignore-case" 7 "e"
  /\ exists a, ArgParser_init ["--ignore-case"; "hello"] = Ok a
               /\ grep_args a = ["-E"; "--ignore-case"; "hello"]
               /\ include_globs a = [].
Proof.
  split; [reflexivity|]. split.
  - split; [lia|]. split; [reflexivity|].
    intros j d Hj Hget.
    do 7 (destruct j as [|j]; [try lia; injection Hget as <-; reflexivity|]).
    lia.
  - eexists. split; [vm_compute; reflexivity|split; reflexivity].
Qed.

(** * Extension shorthands *)

Lemma append_empty_r (s : string) : (s ++ "")%string = s.
Proof. induction s as [|c s IH]; simpl; [reflexivity|rewrite IH; reflexivity]. Qed.

(** [rstrip] removes the slashes at the end, all of them and nothing
    else. *)
Lemma rstrip_slashes (s : string) :
  (exists n, s = (Py.rstrip "/" s ++ slashes n)%string)
  /\ ~ ends_with (Py.rstrip "/" s) "/".
Proof.
  induction s as [|d s [[n IHn] IHe]].
  - split; [exists 0; reflexivity|].
    intros [front H]. destruct front; discriminate.
  - cbn [Py.rstrip]. destruct (Py.rstrip "/" s) as [|e kept] eqn:Hr.
    + destruct (Ascii.eqb_spec d "/") as [->|Hd].
      * split; [exists (S n); simpl; rewrite IHn at 1; reflexivity|].
        intros [front H]. destruct front; discriminate.
      * split; [exists n; simpl; rewrite IHn at 1; reflexivity|].
        intros [front H]. destruct front as [|f front]; simpl in H.
        -- injection H as H. contradiction.
        -- injection H as _ H. destruct front; discriminate.
    + split; [exists n; simpl; rewrite IHn at 1; reflexivity|].
      intros [front H]. destruct front as [|f front]; simpl in H; [discriminate|].
      injection H as _ H. apply IHe. exists front. exact H.
Qed.

Lemma decide_extension (l : locals) (tok : string) :
  decide l tok = Ok ExtensionShorthand -> is_extension tok = true.
Proof. intros H. apply decide_inv in H. apply H. Qed.

Lemma step_extension_globs (l l' : locals) (tok : string) :
  step l tok = Ok l' ->
  extension_globs l' = extension_globs l
  \/ (extension_globs l' = extension_globs l ++ [tok] /\ is_extension tok = true).
Proof.
  intros Hstep. apply step_inv in Hstep. destruct Hstep as (d & Hd & Hex).
  destruct d;
    try (cbn [execute] in Hex; try destruct (Py.str_in tok ["--rev"; "-r"]);
         injection Hex as <-; left; reflexivity).
  - left. apply (execute_matcher_flag _ _ _ Hd Hex).
  - right. injection Hex as <-. split; [reflexivity|].
    apply (decide_extension _ _ Hd).
Qed.

(** The extension shorthands are tokens of the arguments, dot-prefixed and
    slash-free. *)
Lemma loop_extension_globs (args : list string) :
  forall l l', loop args l = Ok l' ->
    forall e, In e (extension_globs l') ->
              In e (extension_globs l) \/ (In e args /\ is_extension e = true).
Proof.
  induction args as [|arg rest IH]; intros l l' Hloop e He; simpl in Hloop.
  - injection Hloop as <-. left. exact He.
  - apply bind_ok in Hloop. destruct Hloop as (l1 & Hstep & Hloop).
    destruct (IH _ _ Hloop e He) as [H|[H1 H2]].
    + destruct (step_extension_globs _ _ _ Hstep) as [Heq|[Heq Hext]];
        rewrite Heq in H; [left; exact H|].
      apply in_app_or in H. destruct H as [H|[<-|[]]]; [left; exact H|].
      right. split; [left; reflexivity|exact Hext].
    + right. split; [right; exact H1|exact H2].
Qed.

(** C7.  When the pass has accumulated extension shorthands (tokens of the
    arguments that start with a dot and have no slash), one glob is built
    from all of them, [**{] the shorthands joined by commas [}]; it is the
    only include glob when none was collected, and otherwise every
    collected include glob is replaced by itself without its trailing
    slashes, a slash, and that glob.  With [hello .h .cpp] the include
    globs are [**{.h,.cpp}]. *)
Theorem extension_shorthands_merged (args : list string) (l : locals) :
  pass args = Ok l -> extension_globs l <> [] ->
  let ext := ("**{" ++ String.concat "," (extension_globs l) ++ "}")%string in
  exists a,
    ArgParser_init args = Ok a
    /\ (forall e, In e (extension_globs l) -> In e args /\ is_extension e = true)
    /\ (include_globs (self l) = [] -> include_globs a = [ext])
    /\ (include_globs (self l) <> [] ->
        include_globs a
        = map (fun g => (Py.rstrip "/" g ++ "/" ++ ext)%string) (include_globs (self l)))
    /\ (forall g, (exists n, g = (Py.rstrip "/" g ++ slashes n)%string)
                  /\ ~ ends_with (Py.rstrip "/" g) "/")
    /\ (exists a', ArgParser_init ["hello"; ".h"; ".cpp"] = Ok a'
                   /\ include_globs a' = ["**{.h,.cpp}"]).
Proof.
  intros Hpass Hext ext. exists (finalize l).
  split; [unfold ArgParser_init; rewrite Hpass; reflexivity|].
  split; [|split; [|split; [|split]]].
  - intros e He. destruct (loop_extension_globs _ _ _ Hpass e He) as [[]|H]. exact H.
  - intros Hnone. unfold finalize.
    destruct (extension_globs l) as [|e0 exts] eqn:He; [contradiction|].
    rewrite Hnone. destruct (use_default_matcher l); reflexivity.
  - intros Hsome. unfold finalize.
    destruct (extension_globs l) as [|e0 exts] eqn:He; [contradiction|].
    destruct (include_globs (self l)) as [|g0 gs] eqn:Hg; [contradiction|].
    destruct (use_default_matcher l); reflexivity.
  - apply rstrip_slashes.
  - eexists. split; [vm_compute; reflexivity|reflexivity].
Qed.

Lemma extension_shorthands_merged_witness :
  pass ["pat"; ".cpp"; "src"; "docs/"]
  = Ok (mkLocals (mkArgParser false false false false ["src"; "docs/"] [] ["pat"] None
                              "--color" [])
                 [".cpp"] true None false)
  /\ exists a, ArgParser_init ["pat"; ".cpp"; "src"; "docs/"] = Ok a
               /\ include_globs a = ["src/**{.cpp}"; "docs/**{.cpp}"].
Proof.
  assert (Hpass : pass ["pat"; ".cpp"; "src"; "docs/"]
                  = Ok (mkLocals (mkArgParser false false false false ["src"; "docs/"] []
                                              ["pat"] None "--color" [])
                                 [".cpp"] true None false)) by reflexivity.
  split; [exact Hpass|].
  destruct (extension_shorthands_merged _ _ Hpass) as (a & Ha & _ & _ & Hmap & _).
  - discriminate.
  - exists a. split; [exact Ha|]. apply Hmap. discriminate.
Defined.

(** * Revision flags *)

Lemma startswith_dash_r (tok : string) :
  Py.startswith tok "-r" = true <-> exists rest, tok = String "-" (String "r" rest).
Proof.
  split.
  - destruct tok as [|c0 [|c1 rest]]; cbn [Py.startswith]; try discriminate.
    + rewrite andb_false_r. discriminate.
    + rewrite !andb_true_iff, !Ascii.eqb_eq. intros (-> & -> & _). eauto.
  - intros [rest ->]. reflexivity.
Qed.

Lemma decide_revision_flag (l : locals) (tok : string) :
  next_arg_processor l = None ->
  tok = "--rev" \/ Py.startswith tok "-r" = true ->
  decide l tok = Ok RevisionFlag.
Proof.
  intros Hnone Htok. unfold decide. rewrite Hnone.
  destruct Htok as [->|Htok]; [reflexivity|].
  rewrite Htok. apply startswith_dash_r in Htok. destruct Htok as [rest ->].
  cbn. reflexivity.
Qed.

Lemma step_feed_pending (l : locals) (p : processor) (v : string) :
  next_arg_processor l = Some p ->
  step l v = Ok (set_next_arg_processor None (on_self (call p v) l)).
Proof. intros H. unfold step, decide. rewrite H. reflexivity. Qed.

Lemma scan_flags_pending (arg : string) :
  forall idxs l l', scan_flags arg idxs l = Ok l' ->
    next_arg_processor l' = next_arg_processor l
    \/ next_arg_processor l' = Some grep_args_append.
Proof.
  induction idxs as [|i later IH]; intros l l' Hscan.
  - injection Hscan as <-. left. reflexivity.
  - rewrite scan_flags_cons in Hscan. apply bind_ok in Hscan.
    destruct Hscan as (c & _ & Hscan).
    destruct (Ascii.eqb c "V"); [apply IH in Hscan; exact Hscan|].
    cbv zeta in Hscan.
    destruct (Py.char_in c grep_flags_suppress_implicit_pattern_arg);
      [|destruct (Py.char_in c grep_flags_matcher_select)];
      (destruct (Py.char_in c grep_flags_with_argument);
       [injection Hscan as <-; destruct (Nat.eqb i _); [right|left]; reflexivity
       |apply IH in Hscan; exact Hscan]).
Qed.

Lemma str_in_rev (tok : string) :
  Py.str_in tok ["--rev"; "-r"] = true <-> tok = "--rev" \/ tok = "-r".
Proof.
  unfold Py.str_in. cbn [existsb]. rewrite !orb_true_iff, !String.eqb_eq.
  intuition discriminate.
Qed.

(** A turn sets up the continuation that appends to the revisions exactly
    for the tokens [-r] and [--rev]. *)
Lemma step_defers_revision (l l' : locals) (tok : string) :
  next_arg_processor l = None -> step l tok = Ok l' ->
  (next_arg_processor l' = Some revisions_append <-> tok = "-r" \/ tok = "--rev").
Proof.
  intros Hnone Hstep. apply step_inv in Hstep. destruct Hstep as (d & Hd & Hex).
  assert (Hother : d <> RevisionFlag -> ~ (tok = "-r" \/ tok = "--rev")).
  { intros Hne Htok. apply Hne.
    rewrite (decide_revision_flag l tok Hnone) in Hd; [congruence|].
    destruct Htok as [->| ->]; auto. }
  destruct d;
    try solve [injection Hex as <-; cbn; rewrite ?Hnone;
               split; [discriminate|intros H; elim Hother; [discriminate|exact H]]].
  - cbn [execute] in Hex.
    destruct (Py.str_in tok ["--rev"; "-r"]) eqn:Hin; injection Hex as <-; cbn.
    + apply str_in_rev in Hin. tauto.
    + rewrite Hnone. split; [discriminate|].
      intros H. assert (Hin' : Py.str_in tok ["--rev"; "-r"] = true)
        by (apply str_in_rev; tauto). congruence.
  - cbn [execute] in Hex. apply bind_ok in Hex. destruct Hex as (c & _ & Hex).
    assert (Hp : next_arg_processor l' = None
                 \/ next_arg_processor l' = Some grep_args_append).
    { destruct (negb _).
      - apply scan_flags_pending in Hex. cbn in Hex. rewrite Hnone in Hex. exact Hex.
      - injection Hex as <-. left. exact Hnone. }
    split.
    + intros H. destruct Hp as [Hp|Hp]; rewrite Hp in H; discriminate.
    + intros H. elim Hother; [discriminate|exact H].
Qed.

(** The turn for a token [-rVALUE], reached with no continuation pending. *)
Lemma step_attached_revision (l : locals) (tok : string) :
  next_arg_processor l = None ->
  Py.startswith tok "-r" = true -> tok <> "-r" ->
  step l tok = Ok (on_self (call revisions_append (Py.slice_from 2 tok)) l).
Proof.
  intros Hnone Hpre Hne. unfold step.
  rewrite (decide_revision_flag l tok Hnone (or_intror Hpre)). cbn [bind execute].
  destruct (Py.str_in tok ["--rev"; "-r"]) eqn:Hin; [|reflexivity].
  apply str_in_rev in Hin. destruct Hin as [->| ->]; [discriminate|contradiction].
Qed.

(** The turn for a bare [-r] or [--rev], reached with no continuation
    pending. *)
Lemma step_bare_revision (l : locals) (tok : string) :
  next_arg_processor l = None ->
  tok = "--rev" \/ tok = "-r" ->
  step l tok = Ok (set_next_arg_processor (Some revisions_append) l).
Proof.
  intros Hnone Htok. unfold step.
  rewrite (decide_revision_flag l tok Hnone); [|destruct Htok as [->| ->]; auto].
  cbn [bind execute].
  destruct (Py.str_in tok ["--rev"; "-r"]) eqn:Hin; [reflexivity|].
  apply str_in_rev in Htok. congruence.
Qed.

(** C8, as amended.  A revision flag that the pass reaches with no flag
    argument pending is the bare [--rev] or [-r], or [-r] with the value
    attached.  The matcher arguments are not touched.  For the bare flag
    the following token, whatever it is, is appended to the revisions; for
    [-rVALUE] the token without its first two characters is appended in the
    same turn.  With [-r R1 -r R2 hello] the revisions are [R1] and
    [R2]. *)
Theorem revision_flag_value (args : list string) (k : nat) (tok : string) (l : locals) :
  nth_error args k = Some tok -> pass (firstn k args) = Ok l ->
  next_arg_processor l = None ->
  tok = "--rev" \/ Py.startswith tok "-r" = true ->
  exists l1,
    pass (firstn (S k) args) = Ok l1
    /\ grep_args (self l1) = grep_args (self l)
    /\ (tok = "--rev" \/ tok = "-r" ->
        revisions (self l1) = revisions (self l)
        /\ forall v, nth_error args (S k) = Some v ->
             exists l2, pass (firstn (S (S k)) args) = Ok l2
                        /\ revisions (self l2) = revisions (self l) ++ [v]
                        /\ grep_args (self l2) = grep_args (self l)
                        /\ next_arg_processor l2 = None)
    /\ (tok <> "--rev" -> tok <> "-r" ->
        revisions (self l1) = revisions (self l) ++ [Py.slice_from 2 tok]
        /\ next_arg_processor l1 = None)
    /\ (exists a, ArgParser_init ["-r"; "R1"; "-r"; "R2"; "hello"] = Ok a
                  /\ revisions a = ["R1"; "R2"] /\ grep_args a = ["-E"; "hello"]).
Proof.
  intros Hnth Hpass Hnone Htok.
  destruct (String.eqb_spec tok "--rev") as [Hrev|Hrev];
    [|destruct (String.eqb_spec tok "-r") as [Hr|Hr]].
  - exists (set_next_arg_processor (Some revisions_append) l).
    pose proof (pass_succ _ _ _ _ Hnth Hpass) as H1.
    rewrite (step_bare_revision l tok Hnone (or_introl Hrev)) in H1.
    split; [exact H1|]. split; [reflexivity|]. split; [|split].
    + intros _. split; [reflexivity|]. intros v Hv.
      eexists. rewrite (pass_succ _ _ _ _ Hv H1).
      split; [apply step_feed_pending; reflexivity|]. repeat split.
    + intros H. contradiction.
    + eexists. split; [vm_compute; reflexivity|split; reflexivity].
  - exists (set_next_arg_processor (Some revisions_append) l).
    pose proof (pass_succ _ _ _ _ Hnth Hpass) as H1.
    rewrite (step_bare_revision l tok Hnone (or_intror Hr)) in H1.
    split; [exact H1|]. split; [reflexivity|]. split; [|split].
    + intros _. split; [reflexivity|]. intros v Hv.
      eexists. rewrite (pass_succ _ _ _ _ Hv H1).
      split; [apply step_feed_pending; reflexivity|]. repeat split.
    + intros _ H. contradiction.
    + eexists. split; [vm_compute; reflexivity|split; reflexivity].
  - destruct Htok as [Htok|Htok]; [contradiction|].
    exists (on_self (call revisions_append (Py.slice_from 2 tok)) l).
    rewrite (pass_succ _ _ _ _ Hnth Hpass).
    split; [apply step_attached_revision; assumption|].
    split; [reflexivity|]. split; [|split].
    + intros [H|H]; contradiction.
    + intros _ _. split; [reflexivity|exact Hnone].
    + eexists. split; [vm_compute; reflexivity|split; reflexivity].
Qed.

Lemma revision_flag_value_witness :
  pass (firstn 2 ["-r"; "R1"; "-rR2"; "hello"])
  = Ok (on_self (call revisions_append "R1") initial)
  /\ exists l1,
      pass (firstn 3 ["-r"; "R1"; "-rR2"; "hello"]) = Ok l1
      /\ revisions (self l1) = ["R1"; "R2"].
Proof.
  assert (Hpass : pass (firstn 2 ["-r"; "R1"; "-rR2"; "hello"])
                  = Ok (on_self (call revisions_append "R1") initial)) by reflexivity.
  split; [exact Hpass|].
  destruct (revision_flag_value ["-r"; "R1"; "-rR2"; "hello"] 2 "-rR2" _ eq_refl Hpass)
    as (l1 & H1 & _ & _ & H2 & _).
  - reflexivity.
  - right. reflexivity.
  - exists l1. split; [exact H1|]. apply H2; discriminate.
Defined.

(** The value of [--rev=R1] is not appended to the revisions: the token is
    passed on with the matcher arguments. *)
Lemma rev_equals_is_a_matcher_flag :
  exists a, ArgParser_init ["--rev=R1"; "hello"] = Ok a
            /\ revisions a = []
            /\ grep_args a = ["-E"; "--rev=R1"; "hello"].
Proof. eexists. split; [vm_compute; reflexivity|split; reflexivity]. Qed.

(** With [-r=R1] the sign is part of the value. *)
Example short_rev_equals_keeps_sign :
  exists a, ArgParser_init ["-r=R1"; "hello"] = Ok a /\ revisions a = ["=R1"].
Proof. eexists. split; [vm_compute; reflexivity|reflexivity]. Qed.

(** C10, as amended.  A token that starts with [-r], is longer than two
    characters and is reached with no flag argument pending is appended to
    the revisions without its first two characters; it is not appended to
    the matcher arguments, and no continuation is set up.  A turn that
    starts with no flag argument pending sets up the continuation for a
    revision exactly for the tokens [-r] and [--rev].  With [hello -rn],
    [n] is a revision. *)
Theorem attached_revision (args : list string) (k : nat) (t : string) (l : locals) :
  nth_error args k = Some t -> pass (firstn k args) = Ok l ->
  next_arg_processor l = None ->
  Py.startswith t "-r" = true -> 2 < String.length t ->
  exists l1,
    pass (firstn (S k) args) = Ok l1
    /\ revisions (self l1) = revisions (self l) ++ [Py.slice_from 2 t]
    /\ grep_args (self l1) = grep_args (self l)
    /\ next_arg_processor l1 = None
    /\ (forall j tok lj lj',
           nth_error args j = Some tok -> pass (firstn j args) = Ok lj ->
           next_arg_processor lj = None -> pass (firstn (S j) args) = Ok lj' ->
           (next_arg_processor lj' = Some revisions_append <-> tok = "-r" \/ tok = "--rev"))
    /\ (exists a, ArgParser_init ["hello"; "-rn"] = Ok a
                  /\ revisions a = ["n"] /\ grep_args a = ["-E"; "hello"]).
Proof.
  intros Hnth Hpass Hnone Hpre Hlen.
  exists (on_self (call revisions_append (Py.slice_from 2 t)) l).
  rewrite (pass_succ _ _ _ _ Hnth Hpass).
  split; [|split; [|split; [|split; [|split]]]].
  - apply step_attached_revision; try assumption.
    intros ->. simpl in Hlen. lia.
  - reflexivity.
  - reflexivity.
  - exact Hnone.
  - intros j tok lj lj' Hj Hlj Hpending Hlj'.
    rewrite (pass_succ _ _ _ _ Hj Hlj) in Hlj'.
    apply (step_defers_revision _ _ _ Hpending Hlj').
  - eexists. split; [vm_compute; reflexivity|split; reflexivity].
Qed.

Lemma attached_revision_witness :
  pass (firstn 1 ["hello"; "-rn"])
  = Ok (on_self (call grep_args_append "hello")
                (set_awaiting_implicit_pattern_arg false initial))
  /\ exists l1, pass (firstn 2 ["hello"; "-rn"]) = Ok l1
                /\ revisions (self l1) = ["n"] /\ grep_args (self l1) = ["hello"].
Proof.
  assert (Hpass : pass (firstn 1 ["hello"; "-rn"])
                  = Ok (on_self (call grep_args_append "hello")
                                (set_awaiting_implicit_pattern_arg false initial)))
    by reflexivity.
  split; [exact Hpass|].
  destruct (attached_revision ["hello"; "-rn"] 1 "-rn" _ eq_refl Hpass)
    as (l1 & H1 & H2 & H3 & _).
  - reflexivity.
  - reflexivity.
  - simpl. lia.
  - exists l1. split; [exact H1|]. split; [exact H2|exact H3].
Defined.

(** A token that starts with [-r] and comes as the argument of a flag is
    not a revision: it is appended to the matcher arguments. *)
Lemma attached_revision_as_flag_argument :
  exists a, ArgParser_init ["-e"; "-rn"] = Ok a
            /\ revisions a = []
            /\ grep_args a = ["-E"; "-e"; "-rn"].
Proof. eexists. split; [vm_compute; reflexivity|split; reflexivity]. Qed.

(** * Every token goes to one place *)

Lemma sent_to_cons (dest : destination) (turn : decision * string)
  (t : list (decision * string)) :
  sent_to dest (turn :: t) = sent_to dest [turn] ++ sent_to dest t.
Proof.
  unfold sent_to, turns_to. cbn [filter].
  destruct (destination_eqb (destination_of turn) dest); reflexivity.
Qed.

Lemma setattr_true_lists (name : string) (a : ArgParser) :
  grep_args (setattr_true name a) = grep_args a
  /\ include_globs (setattr_true name a) = include_globs a
  /\ exclude_globs (setattr_true name a) = exclude_globs a
  /\ revisions (setattr_true name a) = revisions a.
Proof.
  unfold setattr_true.
  repeat match goal with |- context [if ?b then _ else _] => destruct b end;
    repeat split; reflexivity.
Qed.

(** One turn appends its value to the list of its destination and to no
    other. *)
Lemma execute_lists (l l' : locals) (tok : string) (d : decision) :
  decide l tok = Ok d -> execute d tok l = Ok l' ->
  grep_args (self l') = grep_args (self l) ++ sent_to ToMatcherArgs [(d, tok)]
  /\ include_globs (self l') = include_globs (self l) ++ sent_to ToIncludeGlobs [(d, tok)]
  /\ extension_globs l' = extension_globs l ++ sent_to ToExtensions [(d, tok)]
  /\ exclude_globs (self l') = exclude_globs (self l) ++ sent_to ToExcludeGlobs [(d, tok)]
  /\ revisions (self l') = revisions (self l) ++ sent_to ToRevisions [(d, tok)].
Proof.
  intros Hd Hex.
  destruct d as [[| |]| | | | | | | | |];
    try (injection Hex as <-; cbn; rewrite ?app_nil_r; repeat split; reflexivity).
  - assert (Hl' : l' = on_self (setattr_true (Py.slice_from 2 tok)) l)
      by (cbn [execute] in Hex; congruence).
    subst l'. clear Hex.
    destruct (setattr_true_lists (Py.slice_from 2 tok) (self l)) as (H1 & H2 & H3 & H4).
    cbn [on_self self extension_globs]. rewrite H1, H2, H3, H4.
    cbn. rewrite ?app_nil_r. repeat split; reflexivity.
  - cbn [execute] in Hex. unfold sent_to, turns_to, destination_of, value_of.
    cbn [filter fst snd].
    destruct (Py.str_in tok ["--rev"; "-r"]); injection Hex as <-; cbn;
      rewrite ?app_nil_r; repeat split; reflexivity.
  - destruct (execute_matcher_flag _ _ _ Hd Hex) as (H1 & H2 & H3 & H4 & H5 & _).
    cbn. rewrite ?app_nil_r. repeat split; assumption.
Qed.

Lemma loop_trace (args : list string) :
  forall l, exists l' t,
    loop args l = Ok l' /\ trace args l = Ok t /\ map snd t = args
    /\ grep_args (self l') = grep_args (self l) ++ sent_to ToMatcherArgs t
    /\ include_globs (self l') = include_globs (self l) ++ sent_to ToIncludeGlobs t
    /\ extension_globs l' = extension_globs l ++ sent_to ToExtensions t
    /\ exclude_globs (self l') = exclude_globs (self l) ++ sent_to ToExcludeGlobs t
    /\ revisions (self l') = revisions (self l) ++ sent_to ToRevisions t.
Proof.
  induction args as [|arg rest IH]; intros l.
  - exists l, []. cbn. rewrite !app_nil_r. repeat split; reflexivity.
  - destruct (decide_ok l arg) as [d Hd].
    destruct (execute_ok l arg d Hd) as [l1 Hex].
    destruct (IH l1) as (l' & t & Hloop & Htrace & Hmap & H1 & H2 & H3 & H4 & H5).
    destruct (execute_lists _ _ _ _ Hd Hex) as (E1 & E2 & E3 & E4 & E5).
    exists l', ((d, arg) :: t).
    cbn [loop trace]. unfold step. rewrite Hd. cbn [bind]. rewrite Hex. cbn [bind].
    rewrite Hloop, Htrace. cbn [bind map snd].
    rewrite Hmap, H1, H2, H3, H4, H5, E1, E2, E3, E4, E5.
    rewrite !(sent_to_cons _ (d, arg) t), <- !app_assoc.
    repeat split; reflexivity.
Qed.

(** The turns are shared out among the seven destinations. *)
Lemma turns_partition (t : list (decision * string)) :
  List.length t =
  List.length (turns_to ToMatcherArgs t) + List.length (turns_to ToIncludeGlobs t)
  + List.length (turns_to ToExtensions t) + List.length (turns_to ToExcludeGlobs t)
  + List.length (turns_to ToRevisions t) + List.length (turns_to ToAttribute t)
  + List.length (turns_to Deferring t).
Proof.
  induction t as [|turn t IH]; [reflexivity|].
  unfold turns_to in *. cbn [filter].
  destruct (destination_of turn); cbn [destination_eqb List.length]; lia.
Qed.

(** C9, as amended.  The pass takes one decision for every token, in
    order.  The matcher arguments (before the default flag), the include
    globs (before the extensions are merged), the extension shorthands, the
    exclude globs and the revisions are, each, the tokens whose decision
    sends them there, in the order of the arguments (for [-rVALUE], the
    value).  The other tokens are the editor, switch and colour flags,
    which set an attribute, and the bare [-X], [-r] and [--rev], whose
    following token is the entry.  So the entries of the five lists are as
    many as the tokens that are neither of these. *)
Theorem tokens_distributed_once (args : list string) :
  exists l t,
    pass args = Ok l /\ trace args initial = Ok t
    /\ map snd t = args
    /\ grep_args (self l) = sent_to ToMatcherArgs t
    /\ include_globs (self l) = sent_to ToIncludeGlobs t
    /\ extension_globs l = sent_to ToExtensions t
    /\ exclude_globs (self l) = sent_to ToExcludeGlobs t
    /\ revisions (self l) = sent_to ToRevisions t
    /\ List.length (grep_args (self l)) + List.length (include_globs (self l))
       + List.length (extension_globs l) + List.length (exclude_globs (self l))
       + List.length (revisions (self l))
       + List.length (turns_to ToAttribute t) + List.length (turns_to Deferring t)
       = List.length args.
Proof.
  destruct (loop_trace args initial) as (l & t & Hloop & Htrace & Hmap & H1 & H2 & H3 & H4 & H5).
  exists l, t. cbn [initial self grep_args include_globs extension_globs exclude_globs
                      revisions app] in H1, H2, H3, H4, H5.
  repeat (split; [assumption|]).
  rewrite H1, H2, H3, H4, H5. unfold sent_to. rewrite !length_map.
  rewrite <- Hmap, length_map. symmetry. apply turns_partition.
Qed.

(** The colour flag is a token that is not the argument of a flag, and it
    goes to none of the places the count of the specification names: with
    [hello --color=always] the count is one, not two. *)
Lemma colour_flag_is_not_counted :
  exists l t,
    pass ["hello"; "--color=always"] = Ok l
    /\ trace ["hello"; "--color=always"] initial = Ok t
    /\ grep_color_arg (self l) = "--color=always"
    /\ distributed l = 1
    /\ paired_arguments t = 0
    /\ distributed l <> List.length ["hello"; "--color=always"] - paired_arguments t.
Proof.
  eexists. eexists. split; [vm_compute; reflexivity|].
  split; [vm_compute; reflexivity|].
  repeat split. vm_compute. discriminate.
Qed.

(** Two editor flags leave one editor, the second. *)
Example second_editor_flag_replaces_first :
  exists l, pass ["--vim"; "--gvim"] = Ok l
            /\ editor (self l) = Some "gvim" /\ distributed l = 1.
Proof. eexists. split; [vm_compute; reflexivity|split; reflexivity]. Qed.

(** A bare [-X] at the end leaves nothing. *)
Example trailing_exclude_flag_leaves_nothing :
  pass ["hello"; "-X"]
  = Ok (set_next_arg_processor (Some exclude_globs_append)
          (on_self (call grep_args_append "hello")
                   (set_awaiting_implicit_pattern_arg false initial))).
Proof. reflexivity. Qed.

(** * The glob compiler: [.] segments *)


Lemma sub_dot_segments_cons (b : bool) (c : ascii) (rest : string) :
  Re.sub_dot_segments b (String c rest) =
  if b && Ascii.eqb c "." then
    match rest with
    | EmptyString => EmptyString
    | String d rest' =>
        if Ascii.eqb d "/" then Re.sub_dot_segments true rest'
        else if Ascii.eqb d Re.newline && Py.is_empty rest' then rest
        else String c (Re.sub_dot_segments false rest)
    end
  else String c (Re.sub_dot_segments (Ascii.eqb c "/") rest).
Proof. reflexivity. Qed.



(** The glob itself is only used in the two messages: what is returned
    depends on the glob without its [.] segments. *)
Lemma walk_piece_glob (g1 g2 : string) (i : nat) (piece : string) (w w' : walk_state) :
  walk_piece g1 i piece w = Ok w' -> walk_piece g2 i piece w = Ok w'.
Proof.
  unfold walk_piece.
  destruct (Py.is_empty piece); [auto|].
  destruct (Nat.eqb (i mod 2) 0); [auto|].
  destruct (String.eqb piece "?"); [auto|].
  destruct (String.eqb piece "*"); [auto|].
  destruct (first_is piece "*") as [[|]|e]; cbn [bind]; auto.
  destruct (first_is piece "[") as [[|]|e]; cbn [bind]; auto.
  destruct (String.eqb piece "{"); [auto|].
  destruct (String.eqb piece ","); [auto|].
  destruct (String.eqb piece "}"); [|auto].
  destruct (Z.eqb (brace_depth w) 0); [discriminate|auto].
Qed.

Lemma walk_glob (g1 g2 : string) (pieces : list string) :
  forall i w w', walk g1 i pieces w = Ok w' -> walk g2 i pieces w = Ok w'.
Proof.
  induction pieces as [|piece rest IH]; intros i w w' H; cbn [walk] in *.
  - exact H.
  - apply bind_ok in H. destruct H as (w1 & H1 & H2).
    rewrite (walk_piece_glob g1 g2 _ _ _ _ H1). cbn [bind]. apply IH, H2.
Qed.

Lemma same_segments_same_pattern (g1 g2 r : string) :
  Re.sub_dot_segments true g1 = Re.sub_dot_segments true g2 ->
  glob_to_grep_pattern g1 = Ok r -> glob_to_grep_pattern g2 = Ok r.
Proof.
  unfold glob_to_grep_pattern. intros <-.
  destruct (Py.is_empty (Re.sub_dot_segments true g1)); [auto|].
  intros H. apply bind_ok in H. destruct H as (w & Hw & H).
  rewrite (walk_glob g1 g2 _ _ _ _ Hw). cbn [bind].
  destruct (Z.ltb 0 (brace_depth w)); [discriminate|exact H].
Qed.

(** ** On either Python *)

Lemma walk_on_python36 (glob : string) (pieces : list string) :
  forall i w, walk_on Python36 glob i pieces w = walk glob i pieces w.
Proof.
  induction pieces as [|piece rest IH]; intros i w; cbn [walk_on walk]; [reflexivity|].
  change (walk_piece_on Python36 glob i piece w) with (walk_piece glob i piece w).
  destruct (walk_piece glob i piece w); cbn [bind]; [apply IH|reflexivity].
Qed.

(** On the Python of the docstring the compiler is the one above. *)
Lemma glob_to_grep_pattern_on_python36 (glob : string) :
  glob_to_grep_pattern_on Python36 glob = glob_to_grep_pattern glob.
Proof.
  unfold glob_to_grep_pattern_on, glob_to_grep_pattern. cbv zeta.
  rewrite walk_on_python36. reflexivity.
Qed.






(** * The glob compiler: braces *)

Lemma match_meta_shape (s m : string) : Re.match_meta s = Some m -> meta_shape m.
Proof.
  unfold Re.match_meta, meta_shape. destruct s as [|c rest]; [discriminate|].
  destruct (Ascii.eqb c "*" && Py.startswith rest "*/"); [intros [= <-]; auto|].
  destruct (Ascii.eqb c "*" && Py.startswith rest "*"); [intros [= <-]; auto|].
  destruct (Py.char_in c "*?,{}") eqn:Hc; [intros [= <-]; right; right; left; eauto|].
  destruct (Ascii.eqb c "["); [|discriminate].
  destruct (Re.until_rbracket rest) as [[|b body]|]; try discriminate.
  intros [= <-]. right. right. right. eexists. reflexivity.
Qed.

Lemma split_from_alternating (s : string) :
  forall skip lit, alternating (Re.split_from skip lit s).
Proof.
  induction s as [|c rest IH]; intros skip lit; cbn [Re.split_from].
  - constructor.
  - destruct skip as [|k]; [|apply IH].
    destruct (Re.match_meta (String c rest)) as [m|] eqn:Hm; [|apply IH].
    constructor; [apply (match_meta_shape _ _ Hm)|apply IH].
Qed.

(** A piece of text leaves the depth alone. *)
Lemma walk_piece_text (glob : string) (i : nat) (lit : string) (w : walk_state) :
  i mod 2 = 0 ->
  exists out, walk_piece glob i lit w = Ok (mkWalk (brace_depth w) out).
Proof.
  intros Hi. unfold walk_piece. rewrite Hi. cbn [Nat.eqb].
  destruct (Py.is_empty lit); [destruct w|]; eexists; reflexivity.
Qed.

(** A match is one of the cases of the chain: the assertion at its end is
    never reached, and only the braces change the depth. *)
Lemma walk_piece_meta (glob : string) (i : nat) (m : string) (w : walk_state) :
  meta_shape m -> i mod 2 = 1 ->
  exists frag,
    walk_piece glob i m w =
    if String.eqb m "{" then Ok (mkWalk (brace_depth w + 1) (result w ++ ["("]))
    else if String.eqb m "}" then
      if Z.eqb (brace_depth w) 0 then Raise (ValueError (unexpected_brace_msg glob))
      else Ok (mkWalk (brace_depth w - 1) (result w ++ [")"]))
    else Ok (mkWalk (brace_depth w) (result w ++ [frag])).
Proof.
  intros Hm Hi. unfold walk_piece. rewrite Hi. cbn [Nat.eqb].
  destruct Hm as [->|[->|[(c & -> & Hc)|(body & ->)]]].
  - eexists. reflexivity.
  - eexists. reflexivity.
  - cbn [Py.char_in] in Hc.
    destruct (Ascii.eqb c "*") eqn:E1;
      [apply Ascii.eqb_eq in E1; subst c; eexists; reflexivity|].
    destruct (Ascii.eqb c "?") eqn:E2;
      [apply Ascii.eqb_eq in E2; subst c; eexists; reflexivity|].
    destruct (Ascii.eqb c ",") eqn:E3.
    { apply Ascii.eqb_eq in E3. subst c. cbn.
      destruct (Z.eqb (brace_depth w) 0); eexists; reflexivity. }
    destruct (Ascii.eqb c "{") eqn:E4;
      [apply Ascii.eqb_eq in E4; subst c; exists ""; reflexivity|].
    destruct (Ascii.eqb c "}") eqn:E5;
      [apply Ascii.eqb_eq in E5; subst c; exists ""; reflexivity|].
    discriminate.
  - exists (String "[" body). reflexivity.
Qed.

Ltac count_braces :=
  cbn [firstn count_token];
  try change (String.eqb "{" "{") with true;
  try change (String.eqb "{" "}") with false;
  try change (String.eqb "}" "{") with false;
  try change (String.eqb "}" "}") with true;
  cbv iota.

(** The walk over the pieces of a split, from an even index and a depth
    that is not negative: it stops at the first closing brace that closes
    nothing, and otherwise ends with the depth of the braces still open. *)
Lemma walk_alternating (glob : string) (pieces : list string) :
  alternating pieces ->
  forall i w, i mod 2 = 0 -> (0 <= brace_depth w)%Z ->
    (walk glob i pieces w = Raise (ValueError (unexpected_brace_msg glob))
     /\ exists n, (brace_depth w + opens (firstn n (separators pieces))
                   < closes (firstn n (separators pieces)))%Z)
    \/ (exists w', walk glob i pieces w = Ok w'
                   /\ brace_depth w' = (brace_depth w + opens (separators pieces)
                                        - closes (separators pieces))%Z
                   /\ forall n, (closes (firstn n (separators pieces))
                                 <= brace_depth w + opens (firstn n (separators pieces)))%Z).
Proof.
  induction 1 as [lit|lit m rest Hm Halt IH]; intros i w Hi Hw.
  - right. cbn [walk separators].
    destruct (walk_piece_text glob i lit w Hi) as [out ->]. cbn [bind].
    eexists. split; [reflexivity|]. cbn. split; [lia|].
    intros n. rewrite firstn_nil. cbn. lia.
  - assert (Hi1 : S i mod 2 = 1).
    { replace (S i) with (1 + i) by lia.
      rewrite Nat.Div0.add_mod, Hi by lia. reflexivity. }
    assert (Hi2 : S (S i) mod 2 = 0).
    { replace (S (S i)) with (i + 1 * 2) by lia.
      rewrite Nat.Div0.mod_add. exact Hi. }
    cbn [walk separators].
    destruct (walk_piece_text glob i lit w Hi) as [out ->]. cbn [bind].
    destruct (walk_piece_meta glob (S i) m (mkWalk (brace_depth w) out) Hm Hi1)
      as [frag ->].
    cbn [brace_depth result].
    unfold opens, closes in *.
    destruct (String.eqb_spec m "{") as [->|Hopen].
    + cbn [bind].
      destruct (IH (S (S i)) (mkWalk (brace_depth w + 1) (out ++ ["("])) Hi2)
        as [[Hr [n Hn]]|(w' & Hok & Hd & Hall)]; [cbn [brace_depth]; lia| |];
        cbn [brace_depth] in *.
      * left. split; [exact Hr|]. exists (S n).
        count_braces.
        lia.
      * right. exists w'. split; [exact Hok|].
        count_braces.
        split; [lia|].
        intros [|n]; count_braces; [lia|]. specialize (Hall n).
        lia.
    + destruct (String.eqb_spec m "}") as [->|Hclose].
      * destruct (Z.eqb_spec (brace_depth w) 0) as [Hz|Hz].
        -- left. split; [reflexivity|]. exists 1%nat.
           count_braces.
           lia.
        -- cbn [bind].
           destruct (IH (S (S i)) (mkWalk (brace_depth w - 1) (out ++ [")"])) Hi2)
             as [[Hr [n Hn]]|(w' & Hok & Hd & Hall)]; [cbn [brace_depth]; lia| |];
             cbn [brace_depth] in *.
           ++ left. split; [exact Hr|]. exists (S n).
              count_braces.
              lia.
           ++ right. exists w'. split; [exact Hok|].
              count_braces.
              split; [lia|].
              intros [|n]; count_braces; [lia|]. specialize (Hall n).
              lia.
      * cbn [bind].
        assert (E1 : String.eqb m "{" = false) by (apply String.eqb_neq; exact Hopen).
        assert (E2 : String.eqb m "}" = false) by (apply String.eqb_neq; exact Hclose).
        destruct (IH (S (S i)) (mkWalk (brace_depth w) (out ++ [frag])) Hi2)
          as [[Hr [n Hn]]|(w' & Hok & Hd & Hall)]; [cbn [brace_depth]; lia| |];
          cbn [brace_depth] in *.
        -- left. split; [exact Hr|]. exists (S n).
           cbn [firstn count_token]. rewrite E1, E2. lia.
        -- right. exists w'. split; [exact Hok|].
           cbn [firstn count_token]. rewrite E1, E2.
           split; [lia|].
           intros [|n]; cbn [firstn count_token]; [lia|]. specialize (Hall n).
           rewrite E1, E2. lia.
Qed.

Lemma messages_differ (glob : string) :
  unexpected_brace_msg glob <> unclosed_brace_msg glob.
Proof. unfold unexpected_brace_msg, unclosed_brace_msg. cbn. discriminate. Qed.

(** The three outcomes of the compiler and when each one comes. *)
Lemma glob_outcome (glob : string) :
  (glob_to_grep_pattern glob = Raise (ValueError (unexpected_brace_msg glob))
   /\ unexpected_closing_brace (brace_tokens glob))
  \/ (glob_to_grep_pattern glob = Raise (ValueError (unclosed_brace_msg glob))
      /\ unclosed_brace (brace_tokens glob))
  \/ ((exists r, glob_to_grep_pattern glob = Ok r) /\ balanced (brace_tokens glob)).
Proof.
  unfold glob_to_grep_pattern, brace_tokens, unexpected_closing_brace, unclosed_brace,
    balanced, never_closed_early.
  destruct (walk_alternating glob (Re.split (Re.sub_dot_segments true glob))
              (split_from_alternating _ 0 "") 0 (mkWalk 0 ["^"]) eq_refl (Z.le_refl 0))
    as [[Hr [n Hn]]|(w' & Hok & Hd & Hall)]; cbn [brace_depth] in *.
  - destruct (Py.is_empty (Re.sub_dot_segments true glob)) eqn:He.
    + exfalso. destruct (Re.sub_dot_segments true glob); [|discriminate].
      destruct n; cbn in Hn; lia.
    + left. rewrite Hr. split; [reflexivity|]. exists n. lia.
  - assert (Hearly : forall n,
               (closes (firstn n (separators (Re.split (Re.sub_dot_segments true glob))))
                <= opens (firstn n (separators (Re.split (Re.sub_dot_segments true glob)))))%Z).
    { intros n. specialize (Hall n). lia. }
    pose proof (Hearly (List.length (separators (Re.split (Re.sub_dot_segments true glob)))))
      as Hlast.
    rewrite firstn_all in Hlast.
    destruct (Py.is_empty (Re.sub_dot_segments true glob)) eqn:He.
    + right. right. split; [eauto|]. split; [exact Hearly|].
      destruct (Re.sub_dot_segments true glob); [reflexivity|discriminate].
    + rewrite Hok. cbn [bind]. rewrite Hd.
      destruct (Z.ltb_spec 0 (0 + opens (separators (Re.split (Re.sub_dot_segments true glob)))
                              - closes (separators (Re.split (Re.sub_dot_segments true glob)))))
        as [Hlt|Hge].
      * right. left. split; [reflexivity|]. split; [exact Hearly|lia].
      * right. right. split; [eauto|]. split; [exact Hearly|lia].
Qed.

(** C2.  The compiler raises exactly when the braces among the tokens of
    the glob do not nest: with the message for an unexpected closing brace
    when some closing brace comes while no group is open, and with the
    message for an unclosed brace when that never happens and a group is
    still open at the end; both messages end with the glob as it was
    given.  It returns a pattern exactly when the braces are balanced, and
    it raises nothing else.  [{a,b{c,d}}] compiles, to two nested groups;
    [a{b] is unclosed and [a}] has an unexpected closing brace. *)
Theorem brace_errors (glob : string) :
  (glob_to_grep_pattern glob = Raise (ValueError (unexpected_brace_msg glob))
   <-> unexpected_closing_brace (brace_tokens glob))
  /\ (glob_to_grep_pattern glob = Raise (ValueError (unclosed_brace_msg glob))
      <-> unclosed_brace (brace_tokens glob))
  /\ ((exists r, glob_to_grep_pattern glob = Ok r) <-> balanced (brace_tokens glob))
  /\ (forall e, glob_to_grep_pattern glob = Raise e ->
                e = ValueError (unexpected_brace_msg glob)
                \/ e = ValueError (unclosed_brace_msg glob))
  /\ (exists tail, unexpected_brace_msg glob = (tail ++ glob)%string)
  /\ (exists tail, unclosed_brace_msg glob = (tail ++ glob)%string)
  /\ glob_to_grep_pattern "{a,b{c,d}}" = Ok "^(a|b(c|d))(/|$)"
  /\ glob_to_grep_pattern "a{b" = Raise (ValueError (unclosed_brace_msg "a{b"))
  /\ glob_to_grep_pattern "a}" = Raise (ValueError (unexpected_brace_msg "a}")).
Proof.
  pose proof (messages_differ glob) as Hmsg.
  assert (Hx1 : unexpected_closing_brace (brace_tokens glob) ->
                ~ never_closed_early (brace_tokens glob)).
  { intros [n Hn] H. specialize (H n). lia. }
  assert (Hx2 : unclosed_brace (brace_tokens glob) -> ~ balanced (brace_tokens glob)).
  { intros [_ H1] [_ H2]. lia. }
  assert (Hrest :
            (exists tail, unexpected_brace_msg glob = (tail ++ glob)%string)
            /\ (exists tail, unclosed_brace_msg glob = (tail ++ glob)%string)
            /\ glob_to_grep_pattern "{a,b{c,d}}" = Ok "^(a|b(c|d))(/|$)"
            /\ glob_to_grep_pattern "a{b" = Raise (ValueError (unclosed_brace_msg "a{b"))
            /\ glob_to_grep_pattern "a}" = Raise (ValueError (unexpected_brace_msg "a}"))).
  { split; [|split].
    - exists ("invalid glob pattern (unexpected " ++ dquote ++ "}" ++ dquote ++ "): ")%string.
      reflexivity.
    - exists ("invalid glob pattern (unclosed " ++ dquote ++ "}" ++ dquote ++ "): ")%string.
      reflexivity.
    - repeat split; vm_compute; reflexivity. }
  destruct (glob_outcome glob) as [[Hr Hc]|[[Hr Hc]|[[r Hr] Hc]]]; rewrite Hr.
  - split; [split; auto|]. split; [|split; [|split]].
    + split; [intros [= H]; elim Hmsg; exact H|intros [H _]; elim (Hx1 Hc H)].
    + split; [intros [r H]; discriminate|intros [H _]; elim (Hx1 Hc H)].
    + intros e [= <-]. auto.
    + exact Hrest.
  - split; [|split; [split; auto|split; [|split]]].
    + split; [intros [= H]; elim Hmsg; symmetry; exact H
             |intros H; destruct Hc as [Hc _]; elim (Hx1 H Hc)].
    + split; [intros [r H]; discriminate|intros H; elim (Hx2 Hc H)].
    + intros e [= <-]. auto.
    + exact Hrest.
  - split; [|split; [|split; [split; eauto|split]]].
    + split; [discriminate|intros H; destruct Hc as [Hc _]; elim (Hx1 H Hc)].
    + split; [discriminate|intros H; elim (Hx2 H Hc)].
    + discriminate.
    + exact Hrest.
Qed.

(** * The glob compiler: globs without meta-characters *)

Lemma last_cons_nonempty (x : string) (l : list string) :
  l <> [] -> last (x :: l) EmptyString = last l EmptyString.
Proof. destruct l; [contradiction|reflexivity]. Qed.

Lemma kept_segments_tail (x : string) (l : list string) :
  kept_segments (x :: l) -> kept_segments l.
Proof.
  intros [Hin Hlast]. split.
  - intros H. apply Hin. right. exact H.
  - intros Hne. rewrite <- (last_cons_nonempty x l Hne). apply Hlast. discriminate.
Qed.

(** Without a [.] segment, and without a dot and a newline as the last
    segment, the substitution deletes nothing.  After a character other
    than [/] the condition is on the segments that follow the current
    one. *)
Lemma sub_dot_segments_keeps (g : string) :
  (kept_segments (segments g) -> Re.sub_dot_segments true g = g)
  /\ (kept_segments (tl (segments g)) -> Re.sub_dot_segments false g = g).
Proof.
  induction g as [|c rest [IHtrue IHfalse]]; [split; reflexivity|].
  assert (Hstep : kept_segments (tl (segments (String c rest))) ->
                  String c (Re.sub_dot_segments (Ascii.eqb c "/") rest) = String c rest).
  { cbn [segments]. destruct (Ascii.eqb c "/"); cbn [tl]; intros H; f_equal.
    - apply IHtrue, H.
    - apply IHfalse. destruct (segments rest); [|exact H].
      split; [intros []|intros Hne; contradiction]. }
  split; [|rewrite sub_dot_segments_cons; exact Hstep].
  intros Hkept. rewrite sub_dot_segments_cons. cbn [andb].
  destruct (Ascii.eqb c ".") eqn:Hdot.
  - apply Ascii.eqb_eq in Hdot. subst c.
    destruct rest as [|d rest'].
    + exfalso. apply (proj1 Hkept). left. reflexivity.
    + destruct (Ascii.eqb d "/") eqn:Hslash.
      * exfalso. apply (proj1 Hkept). cbn [segments].
        change (Ascii.eqb "." "/") with false. cbv iota. rewrite Hslash.
        left. reflexivity.
      * destruct (Ascii.eqb d Re.newline && Py.is_empty rest') eqn:Hnl.
        -- exfalso. apply andb_true_iff in Hnl. destruct Hnl as [Hd He].
           apply Ascii.eqb_eq in Hd. subst d.
           destruct rest'; [|discriminate].
           apply (proj2 Hkept); [discriminate|reflexivity].
        -- change false with (Ascii.eqb "." "/").
           apply Hstep. revert Hkept.
           cbn [segments]. change (Ascii.eqb "." "/") with false. cbv iota.
           rewrite Hslash.
           destruct (segments rest') as [|seg more]; cbn [tl].
           ++ intros _. split; [intros []|intros Hne; contradiction].
           ++ apply kept_segments_tail.
  - apply Hstep. revert Hkept. cbn [segments].
    destruct (Ascii.eqb c "/"); cbn [tl].
    + apply kept_segments_tail.
    + destruct (segments rest) as [|seg more]; cbn [tl].
      * intros _. split; [intros []|intros Hne; contradiction].
      * apply kept_segments_tail.
Qed.

Lemma until_rbracket_some (rest body : string) :
  Re.until_rbracket rest = Some body ->
  Py.char_in "]" body = false /\ exists post, rest = (body ++ "]" ++ post)%string.
Proof.
  revert body. induction rest as [|c rest IH]; intros body; cbn [Re.until_rbracket].
  - discriminate.
  - destruct (Ascii.eqb c "]") eqn:Hc.
    + intros [= <-]. apply Ascii.eqb_eq in Hc. subst c. split; [reflexivity|].
      exists rest. reflexivity.
    + destruct (Re.until_rbracket rest) as [b|]; [|discriminate].
      intros [= <-]. destruct (IH b eq_refl) as [Hin [post ->]].
      split.
      * cbn [Py.char_in]. rewrite Ascii.eqb_sym, Hc. exact Hin.
      * exists post. reflexivity.
Qed.

Lemma match_meta_none (c : ascii) (rest : string) :
  Py.char_in c "*?,{}" = false ->
  no_bracket_expression (String c rest) ->
  Re.match_meta (String c rest) = None.
Proof.
  intros Hc Hb. unfold Re.match_meta. rewrite Hc.
  assert (Hstar : Ascii.eqb c "*" = false).
  { cbn [Py.char_in] in Hc. apply orb_false_iff in Hc. apply Hc. }
  rewrite Hstar. cbn [andb].
  destruct (Ascii.eqb c "[") eqn:Hopen; [|reflexivity].
  apply Ascii.eqb_eq in Hopen. subst c.
  destruct (Re.until_rbracket rest) as [[|b body]|] eqn:Hu; try reflexivity.
  destruct (until_rbracket_some _ _ Hu) as [Hin [post ->]].
  discriminate (Hb "" (String b body) post eq_refl Hin).
Qed.

Lemma append_assoc_char (lit : string) (c : ascii) (rest : string) :
  ((lit ++ String c "") ++ rest)%string = (lit ++ String c rest)%string.
Proof. induction lit as [|d lit IH]; cbn; [reflexivity|rewrite IH; reflexivity]. Qed.

(** A glob without meta-characters and bracket expressions is one piece. *)
Lemma split_from_literal (s : string) :
  forall lit, no_meta_character s -> no_bracket_expression s ->
              Re.split_from 0 lit s = [(lit ++ s)%string].
Proof.
  induction s as [|c rest IH]; intros lit Hm Hb; cbn [Re.split_from].
  - rewrite append_empty_r. reflexivity.
  - rewrite match_meta_none; [| |exact Hb].
    + rewrite IH; [rewrite append_assoc_char; reflexivity| |].
      * intros d Hd. apply Hm. cbn [Py.char_in]. rewrite Hd. apply orb_true_r.
      * intros pre body post Hg. apply (Hb (String c pre) body post).
        rewrite Hg. reflexivity.
    + apply Hm. cbn [Py.char_in]. rewrite Ascii.eqb_refl. reflexivity.
Qed.

(** C3, as amended.  A glob that is not empty, has none of the characters
    [*], [?], [,], [{], [}], no bracket expression and no segment [.], and
    whose last segment is not a dot and a newline, compiles to [^], the
    glob escaped, and [(/|$)]. *)
Theorem literal_glob (g : string) :
  g <> EmptyString ->
  no_meta_character g -> no_bracket_expression g ->
  ~ In "." (segments g) -> last (segments g) EmptyString <> dot_newline ->
  glob_to_grep_pattern g = Ok ("^" ++ Re.escape g ++ "(/|$)")%string.
Proof.
  intros Hne Hm Hb Hdot Hlast. unfold glob_to_grep_pattern.
  rewrite (proj1 (sub_dot_segments_keeps g)); [|split; [exact Hdot|intros _; exact Hlast]].
  unfold Re.split. rewrite (split_from_literal g "" Hm Hb).
  destruct g as [|c rest]; [contradiction|]. reflexivity.
Qed.

Lemma no_meta_character_check (g : string) :
  (fix all (s : string) : bool :=
     match s with
     | EmptyString => true
     | String c rest => negb (Py.char_in c "*?,{}") && all rest
     end) g = true ->
  no_meta_character g.
Proof.
  induction g as [|d g IH]; intros Hall c Hc; cbn [Py.char_in] in Hc.
  - discriminate.
  - apply andb_true_iff in Hall. destruct Hall as [Hd Hall].
    apply orb_true_iff in Hc. destruct Hc as [Hc|Hc].
    + apply Ascii.eqb_eq in Hc. subst d. apply negb_true_iff, Hd.
    + apply IH; assumption.
Qed.

Lemma char_in_middle (c : ascii) (pre post : string) :
  Py.char_in c (pre ++ String c post) = true.
Proof.
  induction pre as [|d pre IH]; cbn [String.append Py.char_in].
  - rewrite Ascii.eqb_refl. reflexivity.
  - rewrite IH. apply orb_true_r.
Qed.

Lemma no_bracket_check (g : string) :
  Py.char_in "[" g = false -> no_bracket_expression g.
Proof.
  intros H pre body post Hg. rewrite Hg in H.
  change (pre ++ "[" ++ body ++ "]" ++ post)%string
    with (pre ++ String "[" (body ++ "]" ++ post))%string in H.
  rewrite char_in_middle in H. discriminate.
Qed.

Lemma literal_glob_witness :
  glob_to_grep_pattern "src/main.c" = Ok "^src\/main\.c(/|$)".
Proof.
  apply (literal_glob "src/main.c").
  - discriminate.
  - apply no_meta_character_check. reflexivity.
  - apply no_bracket_check. reflexivity.
  - cbn. intros [H|[H|[]]]; discriminate.
  - cbn. discriminate.
Defined.

(** The empty glob satisfies the conditions of the specification and is
    compiled to the empty string, not to [^(/|$)]. *)
Lemma empty_glob_is_no_pattern :
  no_meta_character "" /\ no_bracket_expression "" /\ ~ In "." (segments "")
  /\ glob_to_grep_pattern "" = Ok ""
  /\ glob_to_grep_pattern "" <> Ok ("^" ++ Re.escape "" ++ "(/|$)")%string.
Proof.
  split; [intros c H; discriminate|].
  split; [intros pre body post H; destruct pre; discriminate|].
  split; [intros [H|[]]; discriminate|].
  split; [reflexivity|discriminate].
Qed.

(** A last segment that is a dot and a newline loses its dot. *)
Example dot_newline_loses_dot :
  glob_to_grep_pattern dot_newline = Ok (String "^" (String "\" (String Re.newline "(/|$)"))).
Proof. reflexivity. Qed.

(** * More about the classifier *)

(** The pass and its trace go through the same states. *)
Lemma loop_trace_ind (P : locals -> list (decision * string) -> locals -> Prop) :
  (forall l, P l [] l) ->
  (forall l d tok l1 t l',
      decide l tok = Ok d -> execute d tok l = Ok l1 -> P l1 t l' ->
      P l ((d, tok) :: t) l') ->
  forall args l l' t, loop args l = Ok l' -> trace args l = Ok t -> P l t l'.
Proof.
  intros Hnil Hcons. induction args as [|arg rest IH]; intros l l' t Hloop Htrace.
  - injection Hloop as <-. injection Htrace as <-. apply Hnil.
  - cbn [loop trace] in *. unfold step in Hloop.
    apply bind_ok in Htrace. destruct Htrace as (d & Hd & Htrace).
    apply bind_ok in Htrace. destruct Htrace as (l1 & Hex & Htrace).
    apply bind_ok in Htrace. destruct Htrace as (t' & Htrace & Ht).
    injection Ht as <-.
    rewrite Hd in Hloop. cbn [bind] in Hloop. rewrite Hex in Hloop. cbn [bind] in Hloop.
    apply (Hcons l d arg l1 t' l' Hd Hex). apply IH; assumption.
Qed.

Lemma pass_trace_ok (args : list string) :
  exists l t, pass args = Ok l /\ trace args initial = Ok t.
Proof.
  destruct (loop_trace args initial) as (l & t & H1 & H2 & _). eauto.
Qed.

(** The scan touches the object only to set [version]. *)
Lemma scan_flags_self (arg : string) :
  forall idxs l l', scan_flags arg idxs l = Ok l' ->
    self l' = self l \/ self l' = set_version true (self l).
Proof.
  induction idxs as [|i later IH]; intros l l' Hscan.
  - injection Hscan as <-. left. reflexivity.
  - rewrite scan_flags_cons in Hscan. apply bind_ok in Hscan.
    destruct Hscan as (c & _ & Hscan).
    destruct (Ascii.eqb c "V").
    + apply IH in Hscan. cbn [on_self self] in Hscan.
      right. destruct Hscan as [->| ->]; reflexivity.
    + cbv zeta in Hscan.
      destruct (Py.char_in c grep_flags_suppress_implicit_pattern_arg);
        [|destruct (Py.char_in c grep_flags_matcher_select)];
        (destruct (Py.char_in c grep_flags_with_argument);
         [injection Hscan as <-; destruct (Nat.eqb i _); left; reflexivity
         |apply IH in Hscan; exact Hscan]).
Qed.

Lemma execute_matcher_flag_self (l l' : locals) (arg : string) :
  execute MatcherFlag arg l = Ok l' ->
  self l' = call grep_args_append arg (self l)
  \/ self l' = set_version true (call grep_args_append arg (self l)).
Proof.
  cbn [execute]. intros Hex. apply bind_ok in Hex. destruct Hex as (c & _ & Hex).
  destruct (negb _).
  - apply scan_flags_self in Hex. exact Hex.
  - injection Hex as <-. left. reflexivity.
Qed.

Lemma find_app {A : Type} (f : A -> bool) (l1 l2 : list A) :
  find f (l1 ++ l2) = match find f l1 with Some x => Some x | None => find f l2 end.
Proof.
  induction l1 as [|x l1 IH]; cbn [app find]; [reflexivity|].
  destruct (f x); [reflexivity|exact IH].
Qed.

Lemma last_token_cons (want : decision -> bool) (d : decision) (tok : string)
  (t : list (decision * string)) :
  last_token want ((d, tok) :: t) =
  match last_token want t with
  | Some x => Some x
  | None => if want d then Some tok else None
  end.
Proof.
  unfold last_token. cbn [rev]. rewrite find_app.
  destruct (find _ (rev t)); cbn; [reflexivity|].
  destruct (want d); reflexivity.
Qed.

Lemma setattr_true_attrs (name : string) (a : ArgParser) :
  editor (setattr_true name a) = editor a
  /\ grep_color_arg (setattr_true name a) = grep_color_arg a.
Proof.
  unfold setattr_true.
  repeat match goal with |- context [if ?b then _ else _] => destruct b end;
    split; reflexivity.
Qed.

(** What one turn does to the editor and to the colour argument. *)
Lemma execute_editor_colour (l l' : locals) (tok : string) (d : decision) :
  execute d tok l = Ok l' ->
  editor (self l')
  = (if is_editor_flag d then Some (Py.lstrip "-" tok) else editor (self l))
  /\ grep_color_arg (self l')
     = (if is_color_flag d then tok else grep_color_arg (self l)).
Proof.
  intros Hex.
  destruct d as [[| |]| | | | | | | | |];
    try (injection Hex as <-; split; reflexivity).
  - assert (Hl' : l' = on_self (setattr_true (Py.slice_from 2 tok)) l)
      by (cbn [execute] in Hex; congruence).
    subst l'. cbn [on_self self is_editor_flag is_color_flag].
    apply setattr_true_attrs.
  - cbn [execute] in Hex.
    destruct (Py.str_in tok ["--rev"; "-r"]); injection Hex as <-; split; reflexivity.
  - destruct (execute_matcher_flag_self _ _ _ Hex) as [-> | ->]; split; reflexivity.
Qed.

Lemma finalize_editor_colour (l : locals) :
  editor (finalize l) = editor (self l)
  /\ grep_color_arg (finalize l) = grep_color_arg (self l).
Proof.
  unfold finalize.
  destruct (extension_globs l), (include_globs (self l)), (use_default_matcher l);
    split; reflexivity.
Qed.

Lemma str_in_editor_flags (tok : string) :
  Py.str_in tok editor_flags = true -> tok = "--vim" \/ tok = "--gvim".
Proof.
  unfold Py.str_in, editor_flags. cbn [existsb].
  rewrite !orb_true_iff, !String.eqb_eq. intuition discriminate.
Qed.

Lemma startswith_shorter (p q : string) :
  forall tok, Py.startswith tok (p ++ q) = true -> Py.startswith tok p = true.
Proof.
  induction p as [|c p IH]; intros tok H; [reflexivity|].
  cbn [String.append Py.startswith] in *.
  destruct tok as [|d tok]; [discriminate|].
  apply andb_true_iff in H. destruct H as [H1 H2].
  rewrite H1. apply IH, H2.
Qed.

Lemma startswith_color (tok : string) :
  tok = "--color" \/ Py.startswith tok "--color=" = true ->
  Py.startswith tok "--color" = true.
Proof.
  intros [->|H]; [reflexivity|]. apply (startswith_shorter "--color" "="), H.
Qed.

(** X2.  The editor is that of the last editor flag the pass reaches, and
    none when there is no such flag; it is [vim], [gvim] or none.  The
    colour argument is the last colour flag the pass reaches, and the
    default [--color] when there is none; it starts with [--color]. *)
Theorem editor_and_colour_last_wins (args : list string) :
  exists t a,
    trace args initial = Ok t /\ ArgParser_init args = Ok a
    /\ editor a = option_map (Py.lstrip "-") (last_token is_editor_flag t)
    /\ (editor a = None \/ editor a = Some "vim" \/ editor a = Some "gvim")
    /\ grep_color_arg a = match last_token is_color_flag t with
                          | Some tok => tok
                          | None => "--color"
                          end
    /\ Py.startswith (grep_color_arg a) "--color" = true.
Proof.
  destruct (pass_trace_ok args) as (l & t & Hpass & Htrace).
  exists t, (finalize l). split; [exact Htrace|].
  split; [unfold ArgParser_init; rewrite Hpass; reflexivity|].
  destruct (finalize_editor_colour l) as [-> ->].
  assert (H : (editor (self l)
               = match last_token is_editor_flag t with
                 | Some tok => Some (Py.lstrip "-" tok)
                 | None => editor (self initial)
                 end
               /\ (editor (self initial) = None \/ editor (self initial) = Some "vim"
                   \/ editor (self initial) = Some "gvim" ->
                   editor (self l) = None \/ editor (self l) = Some "vim"
                   \/ editor (self l) = Some "gvim"))
              /\ (grep_color_arg (self l)
                  = match last_token is_color_flag t with
                    | Some tok => tok
                    | None => grep_color_arg (self initial)
                    end
                  /\ (Py.startswith (grep_color_arg (self initial)) "--color" = true ->
                      Py.startswith (grep_color_arg (self l)) "--color" = true))).
  { apply (loop_trace_ind
             (fun l0 t0 l1 =>
                (editor (self l1)
                 = match last_token is_editor_flag t0 with
                   | Some tok => Some (Py.lstrip "-" tok)
                   | None => editor (self l0)
                   end
                 /\ (editor (self l0) = None \/ editor (self l0) = Some "vim"
                     \/ editor (self l0) = Some "gvim" ->
                     editor (self l1) = None \/ editor (self l1) = Some "vim"
                     \/ editor (self l1) = Some "gvim"))
                /\ (grep_color_arg (self l1)
                    = match last_token is_color_flag t0 with
                      | Some tok => tok
                      | None => grep_color_arg (self l0)
                      end
                    /\ (Py.startswith (grep_color_arg (self l0)) "--color" = true ->
                        Py.startswith (grep_color_arg (self l1)) "--color" = true)))
             ) with (args := args); [| |exact Hpass|exact Htrace].
    - intros l0. repeat split; auto.
    - intros l0 d tok l1 t0 l2 Hd Hex [[IH1 IH2] [IH3 IH4]].
      destruct (execute_editor_colour _ _ _ _ Hex) as [He Hc].
      rewrite !last_token_cons. apply decide_inv in Hd.
      repeat split.
      + rewrite IH1, He.
        destruct (last_token is_editor_flag t0); [reflexivity|].
        destruct (is_editor_flag d); reflexivity.
      + intros H0. apply IH2. rewrite He.
        destruct d; cbn [is_editor_flag]; try exact H0.
        destruct Hd as [_ Hd]. apply str_in_editor_flags in Hd.
        destruct Hd as [-> | ->]; auto.
      + rewrite IH3, Hc.
        destruct (last_token is_color_flag t0); [reflexivity|].
        destruct (is_color_flag d); reflexivity.
      + intros H0. apply IH4. rewrite Hc.
        destruct d; cbn [is_color_flag]; try exact H0.
        destruct Hd as [_ Hd]. apply startswith_color, Hd. }
  destruct H as [[H1 H2] [H3 H4]]. cbn [initial self editor grep_color_arg] in *.
  split; [rewrite H1; destruct (last_token is_editor_flag t); reflexivity|].
  split; [apply H2; auto|]. split; [exact H3|apply H4; reflexivity].
Qed.

(** The matcher arguments only grow, and they are not empty once the
    default matcher is switched off: the flag that switched it off is
    among them. *)
Lemma step_matcher_args (l l' : locals) (tok : string) :
  step l tok = Ok l' ->
  (use_default_matcher l = false -> grep_args (self l) <> []) ->
  use_default_matcher l' = false -> grep_args (self l') <> [].
Proof.
  intros Hstep Hinv Hoff.
  pose proof (use_default_matcher_step _ _ _ Hstep) as Hflag.
  apply step_inv in Hstep. destruct Hstep as (d & Hd & Hex).
  destruct (execute_lists _ _ _ _ Hd Hex) as (Hgrep & _).
  destruct (use_default_matcher l) eqn:Hdefault.
  - assert (Hm : d = MatcherFlag).
    { destruct d; try reflexivity; exfalso;
        (assert (Hon : use_default_matcher l' = true)
          by (apply Hflag; split; [reflexivity|intros [H _]; congruence]));
        congruence. }
    subst d. rewrite Hgrep. cbn. intros H. apply app_eq_nil in H.
    destruct H as [_ H]. discriminate.
  - rewrite Hgrep. intros H. apply app_eq_nil in H. destruct H as [H _].
    apply Hinv; [reflexivity|exact H].
Qed.

Lemma loop_matcher_args (args : list string) :
  forall l l', loop args l = Ok l' ->
    (use_default_matcher l = false -> grep_args (self l) <> []) ->
    use_default_matcher l' = false -> grep_args (self l') <> [].
Proof.
  induction args as [|arg rest IH]; intros l l' Hloop Hinv; cbn [loop] in Hloop.
  - injection Hloop as <-. exact Hinv.
  - apply bind_ok in Hloop. destruct Hloop as (l1 & Hstep & Hloop).
    apply (IH _ _ Hloop). apply (step_matcher_args _ _ _ Hstep Hinv).
Qed.

Lemma pass_grep_args_nonempty (args : list string) (l : locals) :
  pass args = Ok l -> grep_args (finalize l) <> [].
Proof.
  intros Hl. rewrite finalize_grep_args.
  destruct (use_default_matcher l) eqn:Hdefault; [discriminate|].
  apply (loop_matcher_args args initial l Hl); [discriminate|exact Hdefault].
Qed.

(** X1.  The matcher arguments of the object are never empty: the default
    matcher flag is in front of them, or the flag that switched the default
    off is among them. *)
Theorem matcher_args_never_empty (args : list string) :
  exists a, ArgParser_init args = Ok a /\ grep_args a <> [].
Proof.
  destruct (pass_ok args) as [l Hl]. exists (finalize l).
  split; [unfold ArgParser_init; rewrite Hl; reflexivity|].
  apply (pass_grep_args_nonempty args l Hl).
Qed.

Lemma dash_test_spec (tok : string) (b : bool) :
  dash_test tok = Ok b -> (b = true <-> looks_like_flag tok).
Proof.
  unfold dash_test, looks_like_flag.
  destruct (Nat.leb_spec 2 (String.length tok)) as [Hlen|Hlen].
  - destruct (index_lt tok 0) as (c & Hc & Hget); [lia|].
    rewrite Hc, Hget. cbn [bind]. intros [= <-].
    rewrite Ascii.eqb_eq. split; [intros ->; auto|intros [_ [= ->]]; reflexivity].
  - intros [= <-]. split; [discriminate|intros [H _]; lia].
Qed.

Lemma decide_positional_no_flag (l : locals) (tok : string) (d : decision) :
  decide l tok = Ok d -> positional d = true -> ~ looks_like_flag tok.
Proof.
  unfold decide.
  destruct (next_arg_processor l); [intros [= <-]; discriminate|].
  destruct (Py.str_in tok editor_flags); [intros [= <-]; discriminate|].
  destruct (Py.str_in tok _); [intros [= <-]; discriminate|].
  destruct (String.eqb tok "-X"); [intros [= <-]; discriminate|].
  destruct (_ || _); [intros [= <-]; discriminate|].
  destruct (_ || _); [intros [= <-]; discriminate|].
  destruct (dash_test tok) as [b|e] eqn:Hdash; cbn [bind]; [|discriminate].
  apply dash_test_spec in Hdash.
  destruct b; [intros [= <-]; discriminate|].
  intros _ _ H. apply Hdash in H. discriminate.
Qed.

Lemma sent_path_filter (d : decision) (tok g : string) :
  In g (sent_to ToIncludeGlobs [(d, tok)]) \/ In g (sent_to ToExtensions [(d, tok)]) ->
  g = tok /\ positional d = true.
Proof.
  unfold sent_to, turns_to, destination_of, value_of. cbn [filter fst snd].
  destruct d as [[| |]| | | | | | | | |];
    try destruct (Py.str_in tok ["--rev"; "-r"]);
    cbn [destination_eqb map In fst snd positional];
    intros [H|H]; try contradiction; destruct H as [<-|[]]; auto.
Qed.

(** X5.  A token that looks like a flag (two characters or more, the
    first a dash) is never taken for a path filter: the include globs and
    the extension shorthands of the pass are tokens of the arguments that
    do not look like one. *)
Theorem flags_are_no_path_filters (args : list string) :
  exists l, pass args = Ok l
            /\ forall g, In g (include_globs (self l)) \/ In g (extension_globs l) ->
                         In g args /\ ~ looks_like_flag g.
Proof.
  destruct (loop_trace args initial) as (l & t & Hloop & Htrace & Hmap & _).
  exists l. split; [exact Hloop|].
  assert (H : forall g, In g (include_globs (self l)) \/ In g (extension_globs l) ->
                (In g (include_globs (self initial)) \/ In g (extension_globs initial))
                \/ (In g (map snd t) /\ ~ looks_like_flag g)).
  { apply (loop_trace_ind
             (fun l0 t0 l1 =>
                forall g, In g (include_globs (self l1)) \/ In g (extension_globs l1) ->
                  (In g (include_globs (self l0)) \/ In g (extension_globs l0))
                  \/ (In g (map snd t0) /\ ~ looks_like_flag g)))
      with (args := args); [| |exact Hloop|exact Htrace].
    - intros l0 g Hg. left. exact Hg.
    - intros l0 d tok l1 t0 l2 Hd Hex IH g Hg.
      destruct (IH g Hg) as [Hin|[Hin Hno]]; [|right; split; [right; exact Hin|exact Hno]].
      destruct (execute_lists _ _ _ _ Hd Hex) as (_ & Hinc & Hext & _).
      rewrite Hinc, Hext in Hin.
      assert (Hnew : In g (sent_to ToIncludeGlobs [(d, tok)])
                     \/ In g (sent_to ToExtensions [(d, tok)]) ->
                     In g (map snd ((d, tok) :: t0)) /\ ~ looks_like_flag g).
      { intros Hsent. destruct (sent_path_filter _ _ _ Hsent) as [-> Hpos].
        split; [left; reflexivity|].
        apply (decide_positional_no_flag l0 tok d Hd Hpos). }
      destruct Hin as [Hin|Hin]; apply in_app_or in Hin;
        destruct Hin as [Hin|Hin]; auto. }
  intros g Hg. destruct (H g Hg) as [[[]|[]]|[Hin Hno]].
  rewrite Hmap in Hin. auto.
Qed.

Lemma scanned_from_head_at (a : nat) (tok : string) (c : ascii)
  (Q : nat -> ascii -> Prop) :
  String.get a tok = Some c ->
  ((exists i c', scanned_from a tok i c' /\ Q i c') <->
   (Q a c \/ (Py.char_in c grep_flags_with_argument = false
              /\ exists i c', scanned_from (S a) tok i c' /\ Q i c'))).
Proof.
  intros Ha. split.
  - intros (i & c' & (Hi & Hget & Hbefore) & HQ).
    destruct (Nat.eq_dec i a) as [->|Hne].
    + rewrite Ha in Hget. injection Hget as <-. left. exact HQ.
    + right. split.
      * apply (Hbefore a c); [lia|exact Ha].
      * exists i, c'. split; [|exact HQ].
        repeat split; [lia|exact Hget|].
        intros j d Hj. apply Hbefore. lia.
  - intros [HQ|(Hc & i & c' & (Hi & Hget & Hbefore) & HQ)].
    + exists a, c. split; [|exact HQ].
      repeat split; [lia|exact Ha|]. intros j d Hj. lia.
    + exists i, c'. split; [|exact HQ].
      repeat split; [lia|exact Hget|].
      intros j d Hj Hd.
      destruct (Nat.eq_dec j a) as [->|Hne].
      * rewrite Ha in Hd. injection Hd as <-. exact Hc.
      * apply (Hbefore j); [lia|exact Hd].
Qed.

Lemma scanned_from_end_at (a : nat) (tok : string) (Q : nat -> ascii -> Prop) :
  String.length tok <= a -> ~ exists i c, scanned_from a tok i c /\ Q i c.
Proof.
  intros Ha (i & c & (Hi & Hget & _) & _). apply get_some_lt in Hget. lia.
Qed.

(** The scan sets [version] exactly when it reads a [V]. *)
Lemma scan_flags_version (arg : string) :
  forall n a l l',
    a + n = String.length arg ->
    scan_flags arg (seq a n) l = Ok l' ->
    (version (self l') = true <->
     version (self l) = true \/ exists i, scanned_from a arg i "V").
Proof.
  assert (Hex : forall a, (exists i, scanned_from a arg i "V")
                          <-> exists i c, scanned_from a arg i c /\ c = "V"%char).
  { intros a. split; [intros [i H]; eauto|intros (i & c & H & ->); eauto]. }
  induction n as [|n IH]; intros a l l' Ha Hscan; cbn [seq] in Hscan.
  - injection Hscan as <-. rewrite Hex.
    pose proof (scanned_from_end_at a arg (fun _ c => c = "V"%char)) as Hend.
    split; [auto|]. intros [H|H]; [exact H|]. exfalso. apply Hend; [lia|exact H].
  - rewrite scan_flags_cons in Hscan.
    destruct (index_lt arg a) as (c & Hc & Hget); [lia|].
    rewrite Hc in Hscan. cbn [bind] in Hscan.
    rewrite Hex, (scanned_from_head_at a arg c (fun _ c => c = "V"%char) Hget), <- Hex.
    destruct (Ascii.eqb c "V") eqn:HV.
    + apply Ascii.eqb_eq in HV. subst c.
      apply IH in Hscan; [|lia]. cbn [on_self self set_version version] in Hscan.
      rewrite Hscan. tauto.
    + apply Ascii.eqb_neq in HV. cbv zeta in Hscan.
      set (l1 := if Py.char_in c grep_flags_suppress_implicit_pattern_arg
                 then set_awaiting_implicit_pattern_arg false l
                 else if Py.char_in c grep_flags_matcher_select
                      then set_use_default_matcher false l else l) in Hscan.
      assert (Hl1 : self l1 = self l).
      { unfold l1. destruct (Py.char_in c grep_flags_suppress_implicit_pattern_arg);
          [|destruct (Py.char_in c grep_flags_matcher_select)]; reflexivity. }
      destruct (Py.char_in c grep_flags_with_argument) eqn:Hw.
      * injection Hscan as <-.
        assert (Hs : forall l2, self (if Nat.eqb a (String.length arg - 1)
                                      then set_next_arg_processor (Some grep_args_append) l2
                                      else l2) = self l2)
          by (intros l2; destruct (Nat.eqb a _); reflexivity).
        rewrite Hs, Hl1. intuition discriminate.
      * apply IH in Hscan; [|lia]. rewrite Hscan, Hl1. tauto.
Qed.

Lemma str_in_switches (tok : string) :
  Py.str_in tok ["--explain"; "--help"; "--show"; "--version"] = true ->
  tok = "--explain" \/ tok = "--help" \/ tok = "--show" \/ tok = "--version".
Proof.
  unfold Py.str_in. cbn [existsb].
  rewrite !orb_true_iff, !String.eqb_eq. intuition discriminate.
Qed.

(** What one turn does to the four switches. *)
Lemma execute_switches (l l' : locals) (tok : string) (d : decision) :
  decide l tok = Ok d -> execute d tok l = Ok l' ->
  (explain (self l') = true <-> explain (self l) = true \/ (d, tok) = (SwitchFlag, "--explain"))
  /\ (help (self l') = true <-> help (self l) = true \/ (d, tok) = (SwitchFlag, "--help"))
  /\ (show (self l') = true <-> show (self l) = true \/ (d, tok) = (SwitchFlag, "--show"))
  /\ (version (self l') = true <->
      version (self l) = true \/ (d, tok) = (SwitchFlag, "--version")
      \/ (d = MatcherFlag /\ short_flag tok "V")).
Proof.
  intros Hd Hex.
  destruct d as [[| |]| | | | | | | | |];
    try (injection Hex as <-; cbn; intuition discriminate).
  - apply decide_inv in Hd. destruct Hd as [_ Hd]. apply str_in_switches in Hd.
    cbn [execute] in Hex.
    destruct Hd as [->|[->|[->| ->]]]; injection Hex as <-; cbn;
      intuition (discriminate || auto).
  - cbn [execute] in Hex.
    destruct (Py.str_in tok ["--rev"; "-r"]); injection Hex as <-; cbn;
      intuition discriminate.
  - pose proof (execute_matcher_flag_self _ _ _ Hex) as Hself.
    assert (Hsame : explain (self l') = explain (self l)
                    /\ help (self l') = help (self l)
                    /\ show (self l') = show (self l))
      by (destruct Hself as [-> | ->]; repeat split; reflexivity).
    destruct Hsame as (-> & -> & ->).
    split; [intuition discriminate|]. split; [intuition discriminate|].
    split; [intuition discriminate|].
    apply decide_matcher_flag_length in Hd.
    cbn [execute] in Hex.
    destruct (index_lt tok 1) as (c & Hc & Hget); [lia|].
    rewrite Hc in Hex. cbn [bind] in Hex. unfold short_flag. rewrite Hget.
    destruct (Ascii.eqb c "-") eqn:Hdash; cbn [negb] in Hex.
    + apply Ascii.eqb_eq in Hdash. subst c. injection Hex as <-. cbn.
      split; [auto|]. intros [H|[H|[_ [H _]]]]; [exact H|discriminate|congruence].
    + apply Ascii.eqb_neq in Hdash.
      apply scan_flags_version in Hex; [|lia]. cbn in Hex. rewrite Hex.
      assert (Hne : Some c <> Some "-"%char) by congruence.
      split; [intros [H|H]; auto|].
      intros [H|[H|[_ [_ H]]]]; [auto|discriminate|auto].
Qed.

Lemma finalize_switches (l : locals) :
  explain (finalize l) = explain (self l) /\ help (finalize l) = help (self l)
  /\ show (finalize l) = show (self l) /\ version (finalize l) = version (self l).
Proof.
  unfold finalize.
  destruct (extension_globs l), (include_globs (self l)), (use_default_matcher l);
    repeat split; reflexivity.
Qed.

(** X3.  A switch of the object is set exactly when the pass takes its
    token, [--explain], [--help], [--show] or [--version], as a switch;
    [version] is also set when the pass takes a cluster of short flags as a
    matcher flag and the scan reads a [V] in it.  No other token sets a
    switch: [-h] does not set [help]. *)
Theorem switches_set_by_their_tokens (args : list string) :
  exists t a,
    trace args initial = Ok t /\ ArgParser_init args = Ok a
    /\ (explain a = true <-> In (SwitchFlag, "--explain") t)
    /\ (help a = true <-> In (SwitchFlag, "--help") t)
    /\ (show a = true <-> In (SwitchFlag, "--show") t)
    /\ (version a = true <->
        In (SwitchFlag, "--version") t
        \/ exists tok, In (MatcherFlag, tok) t /\ short_flag tok "V").
Proof.
  destruct (pass_trace_ok args) as (l & t & Hpass & Htrace).
  exists t, (finalize l). split; [exact Htrace|].
  split; [unfold ArgParser_init; rewrite Hpass; reflexivity|].
  destruct (finalize_switches l) as (-> & -> & -> & ->).
  assert (H : (explain (self l) = true <->
               explain (self initial) = true \/ In (SwitchFlag, "--explain") t)
              /\ (help (self l) = true <->
                  help (self initial) = true \/ In (SwitchFlag, "--help") t)
              /\ (show (self l) = true <->
                  show (self initial) = true \/ In (SwitchFlag, "--show") t)
              /\ (version (self l) = true <->
                  version (self initial) = true \/ In (SwitchFlag, "--version") t
                  \/ exists tok, In (MatcherFlag, tok) t /\ short_flag tok "V")).
  { apply (loop_trace_ind
             (fun l0 t0 l1 =>
                (explain (self l1) = true <->
                 explain (self l0) = true \/ In (SwitchFlag, "--explain") t0)
                /\ (help (self l1) = true <->
                    help (self l0) = true \/ In (SwitchFlag, "--help") t0)
                /\ (show (self l1) = true <->
                    show (self l0) = true \/ In (SwitchFlag, "--show") t0)
                /\ (version (self l1) = true <->
                    version (self l0) = true \/ In (SwitchFlag, "--version") t0
                    \/ exists tok, In (MatcherFlag, tok) t0 /\ short_flag tok "V")))
      with (args := args); [| |exact Hpass|exact Htrace].
    - intros l0. cbn [In]. repeat split; try tauto.
      intros [H|[[]|(tok & [] & _)]]. exact H.
    - intros l0 d tok l1 t0 l2 Hd Hex (I1 & I2 & I3 & I4).
      destruct (execute_switches _ _ _ _ Hd Hex) as (E1 & E2 & E3 & E4).
      cbn [In]. rewrite I1, I2, I3, I4, E1, E2, E3, E4.
      repeat split; try tauto.
      + intros [[H|[H|[-> H]]]|[H|(tok' & H1 & H2)]]; eauto 6.
      + intros [H|[[H|H]|(tok' & [H1|H1] & H2)]]; eauto 6.
        injection H1 as -> ->. left. right. right. auto. }
  cbn [initial self explain help show version] in H.
  destruct H as (H1 & H2 & H3 & H4). rewrite H1, H2, H3, H4.
  repeat split; try tauto; intros H; try (right; exact H);
    destruct H as [H|H]; try discriminate; auto.
Qed.

(** The scan sets up the continuation exactly when the last character of
    the token is a flag that takes an argument and the scan reads it. *)
Lemma scan_flags_defers (arg : string) :
  forall n a l l',
    a + n = String.length arg -> next_arg_processor l = None ->
    scan_flags arg (seq a n) l = Ok l' ->
    (next_arg_processor l' = Some grep_args_append <->
     exists i c, scanned_from a arg i c
                 /\ (i = String.length arg - 1
                     /\ Py.char_in c grep_flags_with_argument = true)).
Proof.
  induction n as [|n IH]; intros a l l' Ha Hnone Hscan; cbn [seq] in Hscan.
  - injection Hscan as <-. rewrite Hnone. split; [discriminate|].
    intros H. exfalso. revert H. apply scanned_from_end_at. lia.
  - rewrite scan_flags_cons in Hscan.
    destruct (index_lt arg a) as (c & Hc & Hget); [lia|].
    rewrite Hc in Hscan. cbn [bind] in Hscan.
    rewrite (scanned_from_head_at a arg c
               (fun i c => i = String.length arg - 1
                           /\ Py.char_in c grep_flags_with_argument = true) Hget).
    destruct (Ascii.eqb c "V") eqn:HV.
    + apply Ascii.eqb_eq in HV. subst c.
      apply IH in Hscan; [|lia|exact Hnone]. rewrite Hscan.
      change (Py.char_in "V" grep_flags_with_argument) with false.
      intuition discriminate.
    + cbv zeta in Hscan.
      set (l1 := if Py.char_in c grep_flags_suppress_implicit_pattern_arg
                 then set_awaiting_implicit_pattern_arg false l
                 else if Py.char_in c grep_flags_matcher_select
                      then set_use_default_matcher false l else l) in Hscan.
      assert (Hl1 : next_arg_processor l1 = None).
      { unfold l1. destruct (Py.char_in c grep_flags_suppress_implicit_pattern_arg);
          [|destruct (Py.char_in c grep_flags_matcher_select)]; exact Hnone. }
      destruct (Py.char_in c grep_flags_with_argument) eqn:Hw.
      * injection Hscan as <-.
        destruct (Nat.eqb_spec a (String.length arg - 1)) as [Hlast|Hlast].
        -- cbn. intuition discriminate.
        -- rewrite Hl1. intuition discriminate.
      * apply IH in Hscan; [|lia|exact Hl1]. rewrite Hscan. intuition discriminate.
Qed.

(** X4.  After a token taken as a matcher flag, a continuation is pending
    exactly when the token is a cluster of short flags whose last character
    takes an argument and is read by the scan (no earlier character of the
    cluster takes one); otherwise none is.  When it is pending, the next
    token, whatever it is, is appended to the matcher arguments right after
    the flag, and nothing else changes. *)
Theorem matcher_flag_argument (args : list string) (k : nat) (tok : string)
  (l : locals) :
  dispatched args k tok l MatcherFlag ->
  exists l1,
    pass (firstn (S k) args) = Ok l1
    /\ (next_arg_processor l1 = Some grep_args_append <-> takes_next_argument tok)
    /\ (next_arg_processor l1 = None <-> ~ takes_next_argument tok)
    /\ (takes_next_argument tok ->
        forall v, nth_error args (S k) = Some v ->
          exists l2, pass (firstn (S (S k)) args) = Ok l2
                     /\ grep_args (self l2) = grep_args (self l) ++ [tok; v]
                     /\ include_globs (self l2) = include_globs (self l)
                     /\ extension_globs l2 = extension_globs l
                     /\ exclude_globs (self l2) = exclude_globs (self l)
                     /\ revisions (self l2) = revisions (self l)
                     /\ next_arg_processor l2 = None).
Proof.
  intros Hk. pose proof Hk as (Hnth & Hpass & Hd).
  destruct (execute_ok l tok MatcherFlag Hd) as [l1 Hex].
  exists l1. rewrite (dispatched_step _ _ _ _ _ Hk). split; [exact Hex|].
  assert (Hnone : next_arg_processor l = None) by (apply decide_inv in Hd; apply Hd).
  assert (Hdefers : next_arg_processor l1 = Some grep_args_append
                    <-> takes_next_argument tok).
  { pose proof (decide_matcher_flag_length _ _ Hd) as Hlen.
    pose proof Hex as Hex'. cbn [execute] in Hex'.
    destruct (index_lt tok 1) as (c & Hc & Hget); [lia|].
    rewrite Hc in Hex'. cbn [bind] in Hex'. unfold takes_next_argument. rewrite Hget.
    destruct (Ascii.eqb c "-") eqn:Hdash; cbn [negb] in Hex'.
    - apply Ascii.eqb_eq in Hdash. subst c. injection Hex' as <-. cbn. rewrite Hnone.
      split; [discriminate|intros [H _]; congruence].
    - apply Ascii.eqb_neq in Hdash.
      apply scan_flags_defers in Hex'; [|lia|exact Hnone]. rewrite Hex'.
      assert (Hne : Some c <> Some "-"%char) by congruence.
      split.
      + intros (i & c' & Hs & -> & Hw). split; [exact Hne|eauto].
      + intros (_ & c' & Hs & Hw). eauto. }
  assert (Hpending : next_arg_processor l1 = None
                     \/ next_arg_processor l1 = Some grep_args_append).
  { cbn [execute] in Hex. apply bind_ok in Hex. destruct Hex as (c & _ & Hex).
    destruct (negb _).
    - apply scan_flags_pending in Hex. cbn in Hex. rewrite Hnone in Hex. exact Hex.
    - injection Hex as <-. left. exact Hnone. }
  split; [exact Hdefers|]. split.
  - rewrite <- Hdefers. destruct Hpending as [-> | ->]; split; congruence.
  - intros Htakes v Hv. apply Hdefers in Htakes.
    pose proof (pass_succ _ _ _ _ Hnth Hpass) as H1.
    pose proof Hex as Hstep.
    assert (Hstep1 : step l tok = Ok l1) by (unfold step; rewrite Hd; exact Hex).
    rewrite Hstep1 in H1.
    eexists. rewrite (pass_succ _ _ _ _ Hv H1).
    split; [apply step_feed_pending; exact Htakes|].
    destruct (execute_matcher_flag _ _ _ Hd Hex) as (G1 & G2 & G3 & G4 & G5 & _).
    cbn. rewrite G1, G2, G3, G4, G5, <- app_assoc. repeat split; reflexivity.
Qed.

Lemma matcher_flag_argument_witness :
  dispatched ["-ie"; "--help"; "src"] 0 "-ie" initial MatcherFlag
  /\ exists l2, pass (firstn 2 ["-ie"; "--help"; "src"]) = Ok l2
                /\ grep_args (self l2) = ["-ie"; "--help"]
                /\ help (self l2) = false.
Proof.
  assert (H : dispatched ["-ie"; "--help"; "src"] 0 "-ie" initial MatcherFlag)
    by (repeat split; reflexivity).
  split; [exact H|].
  destruct (matcher_flag_argument _ _ _ _ H) as (l1 & H1 & Hdefers & _ & Hnext).
  assert (Hl1 : next_arg_processor l1 = Some grep_args_append).
  { vm_compute in H1. injection H1 as <-. reflexivity. }
  destruct (Hnext (proj1 Hdefers Hl1) "--help" eq_refl) as (l2 & H2 & Hg & _).
  exists l2. split; [exact H2|]. split; [exact Hg|].
  vm_compute in H2. injection H2 as <-. reflexivity.
Defined.

(** * The globs to exclude *)

(** Only [-X] leaves the continuation that appends to the globs to
    exclude. *)
Lemma execute_defers_exclude (l l' : locals) (tok : string) (d : decision) :
  decide l tok = Ok d -> execute d tok l = Ok l' ->
  next_arg_processor l' = Some exclude_globs_append ->
  d = ExcludeFlag /\ tok = "-X".
Proof.
  intros Hd Hex Hn. pose proof (decide_inv _ _ _ Hd) as Hinv.
  destruct d as [p| | | | | | | | |]; cbn [execute decided] in *;
    try (injection Hex as <-; cbn in Hn; congruence);
    try (injection Hex as <-; cbn in Hn; destruct Hinv as [H0 H1]; congruence).
  - split; [reflexivity|apply Hinv].
  - destruct (Py.str_in tok ["--rev"; "-r"]); injection Hex as <-; cbn in Hn;
      [discriminate|destruct Hinv as [H0 _]; congruence].
  - destruct Hinv as [H0 _]. apply bind_ok in Hex. destruct Hex as (c & _ & Hex).
    destruct (negb (Ascii.eqb c "-")).
    + apply scan_flags_pending in Hex. cbn in Hex.
      destruct Hex as [H|H]; rewrite H in Hn; [congruence|discriminate].
    + injection Hex as <-. cbn in Hn. congruence.
Qed.

(** A turn leaves the globs to exclude as they are, or appends its token
    for the continuation of [-X]. *)
Lemma execute_exclude_globs (l l' : locals) (tok : string) (d : decision) :
  decide l tok = Ok d -> execute d tok l = Ok l' ->
  exclude_globs (self l') = exclude_globs (self l)
  \/ (next_arg_processor l = Some exclude_globs_append
      /\ exclude_globs (self l') = (exclude_globs (self l) ++ [tok])).
Proof.
  intros Hd Hex. pose proof (decide_inv _ _ _ Hd) as Hinv.
  destruct (execute_lists _ _ _ _ Hd Hex) as (_ & _ & _ & H & _). rewrite H.
  unfold sent_to, turns_to, destination_of. cbn [filter fst snd].
  destruct d as [[| |]| | | | | | | | |]; cbn [destination_eqb map value_of fst snd];
    try (left; apply app_nil_r).
  - right. split; [exact Hinv|reflexivity].
  - destruct (Py.str_in tok ["--rev"; "-r"]); cbn [destination_eqb map]; left;
      apply app_nil_r.
Qed.

(** What the pass over the first [k] tokens has excluded, and what it is
    waiting for. *)
Lemma exclude_prefix (args : list string) :
  forall k l, k <= List.length args -> pass (firstn k args) = Ok l ->
    (forall g, In g (exclude_globs (self l)) ->
               exists j, S j < k /\ nth_error args j = Some "-X"
                         /\ nth_error args (S j) = Some g)
    /\ (next_arg_processor l = Some exclude_globs_append ->
        exists j, S j = k /\ nth_error args j = Some "-X").
Proof.
  induction k as [|k IH]; intros l Hk Hpass.
  - cbn in Hpass. injection Hpass as <-. split; [intros g []|discriminate].
  - destruct (nth_error args k) as [tok|] eqn:Hnth;
      [|apply nth_error_None in Hnth; lia].
    destruct (pass_ok (firstn k args)) as [l0 Hl0].
    destruct (IH l0 ltac:(lia) Hl0) as [IHin IHnext].
    rewrite (pass_succ _ _ _ _ Hnth Hl0) in Hpass.
    apply step_inv in Hpass. destruct Hpass as (d & Hd & Hex).
    split.
    + intros g Hg.
      destruct (execute_exclude_globs _ _ _ _ Hd Hex) as [H|[Hnext H]]; rewrite H in Hg.
      * destruct (IHin g Hg) as (j & Hj & Hx & Hv). exists j. split; [lia|auto].
      * apply in_app_or in Hg. destruct Hg as [Hg|[<-|[]]].
        -- destruct (IHin g Hg) as (j & Hj & Hx & Hv). exists j. split; [lia|auto].
        -- destruct (IHnext Hnext) as (j & <- & Hx). exists j. split; [lia|auto].
    + intros Hnext. destruct (execute_defers_exclude _ _ _ _ Hd Hex Hnext) as [_ ->].
      exists k. split; [reflexivity|exact Hnth].
Qed.

Lemma finalize_exclude_globs (l : locals) :
  exclude_globs (finalize l) = exclude_globs (self l).
Proof.
  unfold finalize.
  destruct (extension_globs l), (include_globs (self l)), (use_default_matcher l);
    reflexivity.
Qed.

(** What the pass over a prefix has excluded stays excluded. *)
Lemma exclude_globs_kept (args : list string) (k : nat) (l0 l : locals) :
  pass (firstn k args) = Ok l0 -> pass args = Ok l ->
  forall g, In g (exclude_globs (self l0)) -> In g (exclude_globs (self l)).
Proof.
  intros H0 Hl g Hg. unfold pass in *.
  rewrite <- (firstn_skipn k args), loop_app, H0 in Hl. cbn [bind] in Hl.
  destruct (loop_trace (skipn k args) l0) as (l' & t & Hloop & _ & _ & _ & _ & _ & H & _).
  rewrite Hloop in Hl. injection Hl as <-. rewrite H. apply in_or_app. left. exact Hg.
Qed.

(** X15.  The globs to exclude are tokens that come right after an [-X]:
    nothing else is excluded.  When the pass takes an [-X] as the flag, the
    token after it, whatever it is, is excluded; an [-X] that is the last
    token excludes nothing and is no error. *)
Theorem excluded_after_their_flag (args : list string) :
  exists a,
    ArgParser_init args = Ok a
    /\ (forall g, In g (exclude_globs a) ->
                  exists k, nth_error args k = Some "-X" /\ nth_error args (S k) = Some g)
    /\ (forall k l v, dispatched args k "-X" l ExcludeFlag ->
                      nth_error args (S k) = Some v -> In v (exclude_globs a)).
Proof.
  destruct (pass_ok args) as [l Hl]. exists (finalize l).
  split; [unfold ArgParser_init; rewrite Hl; reflexivity|].
  rewrite finalize_exclude_globs. split.
  - intros g Hg.
    destruct (exclude_prefix args (List.length args) l (le_n _)) as [H _];
      [rewrite firstn_all; exact Hl|].
    destruct (H g Hg) as (j & _ & Hx & Hv). eauto.
  - intros k l0 v Hk Hv. pose proof Hk as (Hnth & Hpass & Hd).
    pose proof (dispatched_step _ _ _ _ _ Hk) as H1. cbn [execute] in H1.
    pose proof (pass_succ _ _ _ _ Hv H1) as H2.
    rewrite (step_feed_pending (set_next_arg_processor (Some exclude_globs_append) l0)
               exclude_globs_append v eq_refl) in H2.
    apply (exclude_globs_kept args (S (S k)) _ l H2 Hl).
    cbn. apply in_or_app. right. left. reflexivity.
Qed.

(** * More about the glob compiler *)

Lemma is_empty_sub_false (s : string) :
  Py.is_empty (Re.sub_dot_segments false s) = Py.is_empty s.
Proof. destruct s; reflexivity. Qed.

(** What the substitution returns has no segment left to delete. *)
Lemma sub_dot_segments_twice :
  forall n g, String.length g <= n ->
    Re.sub_dot_segments true (Re.sub_dot_segments true g) = Re.sub_dot_segments true g
    /\ Re.sub_dot_segments false (Re.sub_dot_segments false g)
       = Re.sub_dot_segments false g.
Proof.
  induction n as [|n IH]; intros g Hg.
  - destruct g; [split; reflexivity|simpl in Hg; lia].
  - destruct g as [|c rest]; [split; reflexivity|]. simpl in Hg.
    assert (Hkeep : forall b,
               Re.sub_dot_segments b (String c (Re.sub_dot_segments (Ascii.eqb c "/") rest))
               = String c (Re.sub_dot_segments (Ascii.eqb c "/") rest) ->
               Re.sub_dot_segments b (String c (Re.sub_dot_segments (Ascii.eqb c "/") rest))
               = String c (Re.sub_dot_segments (Ascii.eqb c "/") rest)) by auto.
    assert (Hplain : Re.sub_dot_segments false
                       (String c (Re.sub_dot_segments (Ascii.eqb c "/") rest))
                     = String c (Re.sub_dot_segments (Ascii.eqb c "/") rest)).
    { rewrite sub_dot_segments_cons. cbn [andb]. f_equal.
      destruct (Ascii.eqb c "/"); apply IH; lia. }
    split; [|rewrite (sub_dot_segments_cons false c rest); exact Hplain].
    rewrite (sub_dot_segments_cons true c rest). cbn [andb].
    destruct (Ascii.eqb c ".") eqn:Hdot.
    + apply Ascii.eqb_eq in Hdot. subst c.
      destruct rest as [|d rest']; [reflexivity|].
      destruct (Ascii.eqb d "/") eqn:Hslash.
      * apply IH. simpl in Hg. lia.
      * destruct (Ascii.eqb d Re.newline && Py.is_empty rest') eqn:Hnl.
        -- apply andb_true_iff in Hnl. destruct Hnl as [Hd He].
           apply Ascii.eqb_eq in Hd. subst d. destruct rest'; [reflexivity|discriminate].
        -- rewrite (sub_dot_segments_cons false d rest'). cbn [andb]. rewrite Hslash.
           rewrite (sub_dot_segments_cons true "."). cbn [andb Ascii.eqb Bool.eqb].
           rewrite Hslash, is_empty_sub_false, Hnl.
           f_equal. rewrite (sub_dot_segments_cons false d). cbn [andb]. rewrite Hslash.
           f_equal. apply IH. simpl in Hg. lia.
    + rewrite sub_dot_segments_cons. cbn [andb]. rewrite Hdot. f_equal.
      destruct (Ascii.eqb c "/"); apply IH; lia.
Qed.

(** X6.  Deleting the [.] segments a second time changes nothing, so a
    glob and the glob without its [.] segments compile to the same
    pattern. *)
Theorem dot_segments_deleted_once (g : string) :
  Re.sub_dot_segments true (Re.sub_dot_segments true g) = Re.sub_dot_segments true g
  /\ forall r, glob_to_grep_pattern (Re.sub_dot_segments true g) = Ok r
               <-> glob_to_grep_pattern g = Ok r.
Proof.
  pose proof (proj1 (sub_dot_segments_twice _ g (le_n _))) as Htwice.
  split; [exact Htwice|].
  intros r. split; apply same_segments_same_pattern; [exact Htwice|symmetry; exact Htwice].
Qed.

Lemma string_app_assoc (a b c : string) :
  ((a ++ b) ++ c)%string = (a ++ b ++ c)%string.
Proof. induction a as [|x a IH]; cbn; [reflexivity|rewrite IH; reflexivity]. Qed.

Lemma concat_empty_app (l1 l2 : list string) :
  String.concat "" (l1 ++ l2) = (String.concat "" l1 ++ String.concat "" l2)%string.
Proof.
  induction l1 as [|x l1 IH]; [reflexivity|].
  cbn [app]. destruct l1 as [|y l1].
  - cbn [app String.concat]. destruct l2; cbn [String.concat];
      [rewrite append_empty_r; reflexivity|reflexivity].
  - change (String.concat "" (x :: (y :: l1) ++ l2))
      with (x ++ "" ++ String.concat "" ((y :: l1) ++ l2))%string.
    rewrite IH. change (String.concat "" (x :: y :: l1))
      with (x ++ "" ++ String.concat "" (y :: l1))%string.
    cbn [String.append]. rewrite string_app_assoc. reflexivity.
Qed.

(** The walk only appends to the list of fragments. *)
Lemma walk_piece_appends (glob : string) (i : nat) (piece : string) (w w' : walk_state) :
  walk_piece glob i piece w = Ok w' -> exists frags, result w' = result w ++ frags.
Proof.
  unfold walk_piece.
  destruct (Py.is_empty piece); [intros [= <-]; exists []; rewrite app_nil_r; reflexivity|].
  destruct (Nat.eqb (i mod 2) 0); [intros [= <-]; eexists; reflexivity|].
  destruct (String.eqb piece "?"); [intros [= <-]; eexists; reflexivity|].
  destruct (String.eqb piece "*"); [intros [= <-]; eexists; reflexivity|].
  destruct (first_is piece "*") as [[|]|e]; cbn [bind];
    [intros [= <-]; eexists; reflexivity| |discriminate].
  destruct (first_is piece "[") as [[|]|e]; cbn [bind];
    [intros [= <-]; eexists; reflexivity| |discriminate].
  destruct (String.eqb piece "{"); [intros [= <-]; eexists; reflexivity|].
  destruct (String.eqb piece ",").
  { destruct (Z.eqb (brace_depth w) 0); intros [= <-]; eexists; reflexivity. }
  destruct (String.eqb piece "}"); [|discriminate].
  destruct (Z.eqb (brace_depth w) 0); [discriminate|].
  intros [= <-]. eexists. reflexivity.
Qed.

Lemma walk_appends (glob : string) (pieces : list string) :
  forall i w w', walk glob i pieces w = Ok w' ->
                 exists frags, result w' = result w ++ frags.
Proof.
  induction pieces as [|piece rest IH]; intros i w w' H; cbn [walk] in H.
  - injection H as <-. exists []. rewrite app_nil_r. reflexivity.
  - apply bind_ok in H. destruct H as (w1 & H1 & H2).
    destruct (walk_piece_appends _ _ _ _ _ H1) as [f1 E1].
    destruct (IH _ _ _ H2) as [f2 E2].
    exists (f1 ++ f2). rewrite E2, E1, app_assoc. reflexivity.
Qed.

(** X7.  A pattern that the compiler returns is empty, exactly when the
    glob has nothing but [.] segments, or it starts with [^] and ends with
    [(/|$)]. *)
Theorem pattern_is_anchored (glob r : string) :
  glob_to_grep_pattern glob = Ok r ->
  (Re.sub_dot_segments true glob = "" /\ r = "")
  \/ (Re.sub_dot_segments true glob <> ""
      /\ exists body, r = ("^" ++ body ++ "(/|$)")%string).
Proof.
  unfold glob_to_grep_pattern.
  destruct (Re.sub_dot_segments true glob) as [|c glob2] eqn:Hglob2; cbn [Py.is_empty].
  - intros [= <-]. left. auto.
  - intros H. right. split; [discriminate|].
    apply bind_ok in H. destruct H as (w & Hw & H).
    destruct (Z.ltb 0 (brace_depth w)); [discriminate|]. injection H as <-.
    destruct (walk_appends _ _ _ _ _ Hw) as [frags ->]. cbn [result].
    exists (String.concat "" frags). unfold Py.join.
    change (["^"] ++ frags) with ([String "^" ""] ++ frags).
    rewrite !concat_empty_app. reflexivity.
Qed.

Lemma pattern_is_anchored_witness :
  exists body, "^[^/]*\.cpp(/|$)" = ("^" ++ body ++ "(/|$)")%string.
Proof.
  destruct (pattern_is_anchored "*.cpp" "^[^/]*\.cpp(/|$)") as [[H _]|[_ H]].
  - reflexivity.
  - discriminate.
  - exact H.
Defined.

(** * [__repr__] *)

(** The examples of the class docstring, as the interpreter prints them. *)
Example doctest_repr :
  explain_of ["hello"]
  = Some (text_of ["grep_args: ['-E', 'hello']"; "grep_color_arg: '--color'"])
  /\ explain_of ["hello"; "--color=always"]
     = Some (text_of ["grep_args: ['-E', 'hello']"; "grep_color_arg: '--color=always'"])
  /\ explain_of ["hello"; "-G"]
     = Some (text_of ["grep_args: ['hello', '-G']"; "grep_color_arg: '--color'"])
  /\ explain_of ["--show"; "hello"; "--gvim"]
     = Some (text_of ["editor: 'gvim'"; "grep_args: ['-E', 'hello']";
                      "grep_color_arg: '--color'"; "show: True"])
  /\ explain_of ["pat"; ".h"; ".cpp"]
     = Some (text_of ["grep_args: ['-E', 'pat']"; "grep_color_arg: '--color'";
                      "include_globs: ['**{.h,.cpp}']"])
  /\ explain_of ["pat"; ".cpp"; "src"; "docs/"]
     = Some (text_of ["grep_args: ['-E', 'pat']"; "grep_color_arg: '--color'";
                      "include_globs: ['src/**{.cpp}', 'docs/**{.cpp}']"])
  /\ explain_of ["-Ff"; "pattern-file"]
     = Some (text_of ["grep_args: ['-Ff', 'pattern-file']"; "grep_color_arg: '--color'"])
  /\ explain_of ["-e"; "pat1"; "-e"; "pat2"; "path"]
     = Some (text_of ["grep_args: ['-E', '-e', 'pat1', '-e', 'pat2']";
                      "grep_color_arg: '--color'"; "include_globs: ['path']"])
  /\ explain_of ["--rev"; "ae279a85a0ad"; "-r"; "."; "hello"]
     = Some (text_of ["grep_args: ['-E', 'hello']"; "grep_color_arg: '--color'";
                      "revisions: ['ae279a85a0ad', '.']"])
  /\ explain_of ["hello"; "-GV"]
     = Some (text_of ["grep_args: ['hello', '-GV']"; "grep_color_arg: '--color'";
                      "version: True"]).
Proof. repeat split; vm_compute; reflexivity. Qed.

Lemma repr_lines_plain (items : list (string * value)) :
  Forall (fun item => exists c rest, fst item = String c rest /\ c <> "_"%char) items ->
  repr_lines items
  = Ok (map repr_line (filter (fun item => Repr.truthy (snd item)) items)).
Proof.
  induction 1 as [|item rest (c & tail & Hkey & Hc) _ IH]; [reflexivity|].
  cbn [repr_lines filter]. unfold Py.index. rewrite Hkey. cbn [String.get bind].
  rewrite IH. cbn [bind].
  apply Ascii.eqb_neq in Hc. rewrite Hc. cbn [negb andb].
  destruct (Repr.truthy (snd item)); reflexivity.
Qed.

Lemma sorted_dict_items (a : ArgParser) : Repr.sorted (dict_items a) = items_by_name a.
Proof. reflexivity. Qed.

Lemma ArgParser_repr_shown (a : ArgParser) :
  ArgParser_repr a = Ok (text_of (map repr_line (shown_items a))).
Proof.
  unfold ArgParser_repr. rewrite sorted_dict_items, repr_lines_plain; [reflexivity|].
  unfold items_by_name.
  repeat (constructor; [eexists; eexists; split; [reflexivity|discriminate]|]).
  constructor.
Qed.

(** The colour argument and the editor of the object. *)
Lemma pass_attrs (args : list string) (l : locals) :
  pass args = Ok l ->
  Py.startswith (grep_color_arg (self l)) "--color" = true
  /\ (editor (self l) = None \/ editor (self l) = Some "vim"
      \/ editor (self l) = Some "gvim").
Proof.
  intros Hpass. destruct (pass_trace_ok args) as (l0 & t & Hpass' & Htrace).
  rewrite Hpass in Hpass'. injection Hpass' as <-.
  assert (H : (Py.startswith (grep_color_arg (self initial)) "--color" = true
               /\ (editor (self initial) = None \/ editor (self initial) = Some "vim"
                   \/ editor (self initial) = Some "gvim")) ->
              Py.startswith (grep_color_arg (self l)) "--color" = true
              /\ (editor (self l) = None \/ editor (self l) = Some "vim"
                  \/ editor (self l) = Some "gvim")).
  { apply (loop_trace_ind
             (fun l0 t0 l1 =>
                (Py.startswith (grep_color_arg (self l0)) "--color" = true
                 /\ (editor (self l0) = None \/ editor (self l0) = Some "vim"
                     \/ editor (self l0) = Some "gvim")) ->
                Py.startswith (grep_color_arg (self l1)) "--color" = true
                /\ (editor (self l1) = None \/ editor (self l1) = Some "vim"
                    \/ editor (self l1) = Some "gvim")))
      with (args := args) (t := t); [| |exact Hpass|exact Htrace].
    - auto.
    - intros l0 d tok l1 t0 l2 Hd Hex IH [Hc He]. apply IH.
      destruct (execute_editor_colour _ _ _ _ Hex) as [-> ->].
      apply decide_inv in Hd. split.
      + destruct d; cbn [is_color_flag]; try exact Hc.
        destruct Hd as [_ Hd]. apply startswith_color, Hd.
      + destruct d; cbn [is_editor_flag]; try exact He.
        destruct Hd as [_ Hd]. apply str_in_editor_flags in Hd.
        destruct Hd as [-> | ->]; auto. }
  apply H. split; [reflexivity|left; reflexivity].
Qed.

Lemma StronglySorted_filter {A : Type} (R : A -> A -> Prop) (f : A -> bool) (l : list A) :
  StronglySorted R l -> StronglySorted R (filter f l).
Proof.
  induction 1 as [|x l Hs IH Hall]; cbn [filter]; [constructor|].
  destruct (f x); [|exact IH].
  constructor; [exact IH|].
  apply Forall_forall. intros y Hy. apply filter_In in Hy.
  apply (proj1 (Forall_forall _ _) Hall y), Hy.
Qed.

Lemma items_by_name_sorted (a : ArgParser) :
  StronglySorted (fun x y => String.ltb (fst x) (fst y) = true) (items_by_name a).
Proof.
  unfold items_by_name.
  repeat (constructor; [|repeat (constructor; [reflexivity|]); constructor]).
  constructor.
Qed.

(** X8.  The text of [--explain] has one line for every attribute that is
    not false, empty or [None], in the order of the names of the
    attributes, and no other line.  For the object of any arguments the
    lines of [grep_args] and of [grep_color_arg] are among them: the text
    is never empty. *)
Theorem explain_lists_attributes_by_name (args : list string) :
  exists a,
    ArgParser_init args = Ok a
    /\ ArgParser_repr a = Ok (text_of (map repr_line (shown_items a)))
    /\ In ("grep_args", VList (grep_args a)) (shown_items a)
    /\ In ("grep_color_arg", VStr (grep_color_arg a)) (shown_items a)
    /\ (forall item, In item (shown_items a) <->
                     In item (dict_items a) /\ Repr.truthy (snd item) = true)
    /\ StronglySorted (fun x y => String.ltb (fst x) (fst y) = true) (shown_items a).
Proof.
  destruct (pass_ok args) as [l Hl]. exists (finalize l).
  split; [unfold ArgParser_init; rewrite Hl; reflexivity|].
  split; [apply ArgParser_repr_shown|].
  pose proof (pass_grep_args_nonempty args l Hl) as Hgrep.
  destruct (pass_attrs args l Hl) as [Hcolour _].
  rewrite <- (proj2 (finalize_editor_colour l)) in Hcolour.
  unfold shown_items. split; [|split; [|split]].
  - apply filter_In. split; [cbn; tauto|].
    cbn. destruct (grep_args (finalize l)); [contradiction|reflexivity].
  - apply filter_In. split; [cbn; tauto|].
    cbn. destruct (grep_color_arg (finalize l)); [discriminate|reflexivity].
  - intros item. rewrite filter_In. cbn [items_by_name dict_items In]. tauto.
  - apply StronglySorted_filter, items_by_name_sorted.
Qed.

(** * [quote], [globs_to_grep_pipe] and the script *)

Lemma safe_char_plain (c : ascii) :
  Py.char_in c Shlex.safe_chars = true ->
  Ascii.eqb c " " = false /\ Ascii.eqb c "|" = false
  /\ Ascii.eqb c "'" = false /\ Ascii.eqb c "034" = false.
Proof.
  intros H. repeat split; apply Ascii.eqb_neq; intros ->; vm_compute in H; discriminate.
Qed.

(** A run of safe characters outside quotes goes to the word. *)
Lemma sh_read_safe (s : string) :
  forall word rest,
    Shlex.find_unsafe s = false -> s <> EmptyString ->
    sh_read Bare word (s ++ rest) = sh_read Bare (Some (word_text word ++ s)%string) rest.
Proof.
  induction s as [|c s IH]; intros word rest Hsafe Hne; [contradiction|].
  cbn [Shlex.find_unsafe] in Hsafe. apply orb_false_iff in Hsafe.
  destruct Hsafe as [Hc Hs]. apply negb_false_iff in Hc.
  destruct (safe_char_plain c Hc) as (H1 & H2 & H3 & H4).
  cbn [String.append sh_read]. rewrite H1, H2, H3, H4, Hc.
  destruct s as [|d s].
  - reflexivity.
  - rewrite (IH (add_char word c) rest Hs); [|discriminate].
    unfold add_char. cbn [word_text]. rewrite append_assoc_char. reflexivity.
Qed.

(** The text between the single quotes of [shlex.quote] reads as the
    string that was quoted. *)
Lemma sh_read_quoted (s : string) :
  forall w rest,
    sh_read InSingle (Some w) (Shlex.replace_squote s ++ String "'" rest)
    = sh_read Bare (Some (w ++ s)%string) rest.
Proof.
  induction s as [|c s IH]; intros w rest.
  - cbn. rewrite append_empty_r. reflexivity.
  - cbn [Shlex.replace_squote].
    destruct (Ascii.eqb c "'") eqn:Hc.
    + apply Ascii.eqb_eq in Hc. subst c.
      unfold dquote. cbn [String.append sh_read Ascii.eqb Bool.eqb Py.char_in orb
                           andb word_text add_char].
      rewrite IH, append_assoc_char. reflexivity.
    + cbn [String.append sh_read]. rewrite Hc. unfold add_char. cbn [word_text].
      rewrite IH, append_assoc_char. reflexivity.
Qed.

Lemma sh_read_quote (s rest : string) :
  sh_read Bare None (Shlex.quote s ++ rest) = sh_read Bare (Some s) rest.
Proof.
  unfold Shlex.quote. destruct s as [|c s]; [reflexivity|]. cbn [Py.is_empty].
  destruct (Shlex.find_unsafe (String c s)) eqn:Hunsafe; cbn [negb].
  - change (("'" ++ Shlex.replace_squote (String c s) ++ "'") ++ rest)%string
      with (String "'" ((Shlex.replace_squote (String c s) ++ "'") ++ rest))%string.
    rewrite string_app_assoc. cbn [sh_read Ascii.eqb Bool.eqb word_text].
    apply (sh_read_quoted (String c s) "" rest).
  - apply (sh_read_safe (String c s) None rest Hunsafe). discriminate.
Qed.

Lemma option_map_app_nil (A : Type) (x : option (list A)) : option_map (app []) x = x.
Proof. destruct x; reflexivity. Qed.

Lemma option_map_app (A : Type) (l1 l2 : list A) (x : option (list A)) :
  option_map (app l1) (option_map (app l2) x) = option_map (app (l1 ++ l2)) x.
Proof. destruct x; cbn; [rewrite app_assoc|]; reflexivity. Qed.

(** A text that has a reading, with a blank and more text after it: the
    reading of the text goes before the reading of what follows. *)
Lemma sh_read_then (p : string) :
  forall mode word toks rest,
    sh_read mode word p = Some toks ->
    sh_read mode word (p ++ String " " rest)
    = option_map (app toks) (sh_read Bare None rest).
Proof.
  induction p as [|c p IH]; intros mode word toks rest Hp.
  - destruct mode; try discriminate. cbn in Hp. injection Hp as <-.
    cbn [String.append sh_read Ascii.eqb Bool.eqb].
    destruct word, (sh_read Bare None rest); reflexivity.
  - cbn [String.append sh_read] in *. destruct mode.
    + destruct (Ascii.eqb c " ").
      { destruct (sh_read Bare None p) as [toks'|] eqn:Hp'; [|discriminate].
        cbn in Hp. injection Hp as <-. rewrite (IH Bare None toks' rest Hp').
        destruct word, (sh_read Bare None rest); reflexivity. }
      destruct (Ascii.eqb c "|").
      { destruct (sh_read Bare None p) as [toks'|] eqn:Hp'; [|discriminate].
        cbn in Hp. injection Hp as <-. rewrite (IH Bare None toks' rest Hp').
        destruct word, (sh_read Bare None rest); reflexivity. }
      destruct (Ascii.eqb c "'"); [apply IH; exact Hp|].
      destruct (Ascii.eqb c "034"); [apply IH; exact Hp|].
      destruct (Py.char_in c Shlex.safe_chars); [apply IH; exact Hp|discriminate].
    + destruct (Ascii.eqb c "'"); apply IH; exact Hp.
    + destruct (Ascii.eqb c "034"); [apply IH; exact Hp|].
      destruct (Py.char_in c "$`\"); [discriminate|apply IH; exact Hp].
Qed.

(** The same with a bar after the text. *)
Lemma sh_read_then_pipe (p : string) :
  forall mode word toks rest,
    sh_read mode word p = Some toks ->
    sh_read mode word (p ++ String "|" rest)
    = option_map (fun after => toks ++ Pipe :: after) (sh_read Bare None rest).
Proof.
  induction p as [|c p IH]; intros mode word toks rest Hp.
  - destruct mode; try discriminate. cbn in Hp. injection Hp as <-.
    cbn [String.append sh_read Ascii.eqb Bool.eqb].
    destruct word, (sh_read Bare None rest); reflexivity.
  - cbn [String.append sh_read] in *. destruct mode.
    + destruct (Ascii.eqb c " ").
      { destruct (sh_read Bare None p) as [toks'|] eqn:Hp'; [|discriminate].
        cbn in Hp. injection Hp as <-. rewrite (IH Bare None toks' rest Hp').
        destruct word, (sh_read Bare None rest); reflexivity. }
      destruct (Ascii.eqb c "|").
      { destruct (sh_read Bare None p) as [toks'|] eqn:Hp'; [|discriminate].
        cbn in Hp. injection Hp as <-. rewrite (IH Bare None toks' rest Hp').
        destruct word, (sh_read Bare None rest); reflexivity. }
      destruct (Ascii.eqb c "'"); [apply IH; exact Hp|].
      destruct (Ascii.eqb c "034"); [apply IH; exact Hp|].
      destruct (Py.char_in c Shlex.safe_chars); [apply IH; exact Hp|discriminate].
    + destruct (Ascii.eqb c "'"); apply IH; exact Hp.
    + destruct (Ascii.eqb c "034"); [apply IH; exact Hp|].
      destruct (Py.char_in c "$`\"); [discriminate|apply IH; exact Hp].
Qed.

(** Words written one after the other with a blank between them, each
    with the tokens [pre] in front, are read back. *)
Lemma sh_words_join (f : string -> string) (pre : list sh_token) (args : list string) :
  (forall a rest, sh_read Bare None (f a ++ rest)
                  = option_map (app pre) (sh_read Bare (Some a) rest)) ->
  sh_words (Py.join " " (map f args)) = Some (flat_map (fun a => pre ++ [Word a]) args).
Proof.
  intros Hf. unfold sh_words, Py.join.
  induction args as [|a args IH]; [reflexivity|].
  cbn [map flat_map]. destruct args as [|b args].
  - cbn [String.concat map flat_map]. rewrite <- (append_empty_r (f a)), Hf.
    cbn. rewrite app_nil_r. reflexivity.
  - change (String.concat " " (f a :: map f (b :: args)))
      with (f a ++ " " ++ String.concat " " (map f (b :: args)))%string.
    rewrite Hf. cbn [String.append sh_read Ascii.eqb Bool.eqb].
    change (String.concat " " (map f (b :: args)))
      with (String.concat " " (f b :: map f args)).
    cbn [map] in IH. rewrite IH. cbn [option_map end_word]. rewrite <- app_assoc.
    reflexivity.
Qed.

Lemma sh_words_plain (args : list string) :
  sh_words (quote args plain_pattern) = Some (words args).
Proof.
  unfold quote, words.
  rewrite (sh_words_join (fun a => percent plain_pattern (Shlex.quote a)) [] args).
  - reflexivity.
  - intros a rest. cbn [plain_pattern percent]. rewrite append_empty_r, sh_read_quote.
    destruct (sh_read Bare (Some a) rest); reflexivity.
Qed.

Lemma sh_words_flagged (flag : string) (args : list string) :
  flag <> EmptyString -> Shlex.find_unsafe flag = false ->
  sh_words (quote args (flag_pattern flag)) = Some (flagged flag args).
Proof.
  intros Hne Hsafe. unfold quote, flagged.
  apply (sh_words_join (fun a => percent (flag_pattern flag) (Shlex.quote a))
           [Word flag] args).
  intros a rest. cbn [flag_pattern percent].
  rewrite append_empty_r, !string_app_assoc.
  rewrite (sh_read_safe flag None _ Hsafe Hne).
  cbn [word_text String.append sh_read Ascii.eqb Bool.eqb].
  rewrite sh_read_quote.
  destruct (sh_read Bare (Some a) rest); reflexivity.
Qed.

(** X9.  What [quote] writes is made of plain shell words and reads back
    as the arguments: every argument is one word, whatever its characters.
    With a pattern that puts a flag in front, as [-e %s] does, every
    argument is the word after its flag. *)
Theorem quoted_arguments_read_back (args : list string) (flag : string) :
  flag <> EmptyString -> Shlex.find_unsafe flag = false ->
  sh_words (quote args plain_pattern) = Some (map Word args)
  /\ sh_words (quote args (flag_pattern flag))
     = Some (flat_map (fun a => [Word flag; Word a]) args).
Proof.
  intros Hne Hsafe. split;
    [apply sh_words_plain|apply sh_words_flagged; assumption].
Qed.

Lemma quoted_arguments_read_back_witness :
  sh_words (quote ["it's"; ""; "a b"; "x.c"] plain_pattern)
  = Some (map Word ["it's"; ""; "a b"; "x.c"])
  /\ sh_words (quote ["it's"; ""; "a b"; "x.c"] (flag_pattern "-e"))
     = Some (flat_map (fun a => [Word "-e"; Word a]) ["it's"; ""; "a b"; "x.c"]).
Proof.
  apply (quoted_arguments_read_back ["it's"; ""; "a b"; "x.c"] "-e");
    [discriminate|reflexivity].
Defined.

(** ** [globs_to_grep_pipe] *)

Lemma glob_ok_well_braced (glob r : string) :
  glob_to_grep_pattern glob = Ok r -> well_braced glob.
Proof.
  intros Hok. destruct (glob_outcome glob) as [[H _]|[[H _]|[_ H]]];
    [rewrite H in Hok; discriminate|rewrite H in Hok; discriminate|exact H].
Qed.

Lemma glob_raises (glob : string) (e : exn) :
  glob_to_grep_pattern glob = Raise e ->
  ~ well_braced glob
  /\ (e = ValueError (unexpected_brace_msg glob) \/ e = ValueError (unclosed_brace_msg glob)).
Proof.
  intros Hr. destruct (glob_outcome glob) as [[H Hx]|[[H Hx]|[[r H] _]]].
  - rewrite H in Hr. injection Hr as <-. split; [|left; reflexivity].
    intros [Hearly _]. destruct Hx as [n Hn]. specialize (Hearly n). lia.
  - rewrite H in Hr. injection Hr as <-. split; [|right; reflexivity].
    intros [_ Heq]. destruct Hx as [_ Hlt]. lia.
  - rewrite H in Hr. discriminate.
Qed.

(** The patterns of a list of globs, or the exception of the first glob
    that has none. *)
Lemma compile_all_outcome (patterns : list string) :
  (exists rs, compile_all patterns = Ok rs
              /\ Forall2 (fun g r => glob_to_grep_pattern g = Ok r) patterns rs
              /\ Forall well_braced patterns)
  \/ (exists good bad rest msg,
         compile_all patterns = Raise (ValueError msg)
         /\ patterns = good ++ bad :: rest
         /\ Forall well_braced good /\ ~ well_braced bad
         /\ (msg = unexpected_brace_msg bad \/ msg = unclosed_brace_msg bad)
         /\ glob_to_grep_pattern bad = Raise (ValueError msg)).
Proof.
  induction patterns as [|g patterns IH].
  - left. exists []. repeat split; constructor.
  - cbn [compile_all]. destruct (glob_to_grep_pattern g) as [r|e] eqn:Hg.
    + pose proof (glob_ok_well_braced g r Hg) as Hwb. cbn [bind].
      destruct IH as [(rs & -> & Hall & Hwbs)
                     |(good & bad & rest & msg & -> & -> & Hgood & Hbad & Hmsg & Hraise)].
      * left. exists (r :: rs). cbn [bind]. repeat split; constructor; assumption.
      * right. exists (g :: good), bad, rest, msg. cbn [bind].
        repeat split; try assumption. constructor; assumption.
    + destruct (glob_raises g e Hg) as [Hbad Hmsg]. cbn [bind]. right.
      destruct Hmsg as [-> | ->].
      * exists [], g, patterns, (unexpected_brace_msg g).
        repeat split; try assumption; [constructor|left; reflexivity].
      * exists [], g, patterns, (unclosed_brace_msg g).
        repeat split; try assumption; [constructor|right; reflexivity].
Qed.

(** The pipe is made when every glob is well braced, and the program is
    left when one is not. *)
Lemma pipe_outcome (prog : string) (patterns : list string) :
  (Forall well_braced patterns /\ exists pipe, globs_to_grep_pipe prog patterns = Done pipe)
  \/ ((exists bad, In bad patterns /\ ~ well_braced bad)
      /\ exists msg, globs_to_grep_pipe prog patterns = SystemExit msg).
Proof.
  unfold globs_to_grep_pipe.
  destruct (compile_all_outcome patterns)
    as [(rs & -> & _ & Hall)|(good & bad & rest & msg & -> & -> & _ & Hbad & _ & _)].
  - left. eauto.
  - right. split; [|eauto]. exists bad. split; [|exact Hbad].
    apply in_or_app. right. left. reflexivity.
Qed.

(** X10.  [globs_to_grep_pipe] makes the [grep] filter out of the patterns
    of the globs, one [-e] for each, when the braces of every glob nest.
    Otherwise it leaves the program with the message of the first glob
    whose braces do not nest, which names that glob, after the name of the
    program; the globs that follow are not looked at.  No other exception
    leaves it. *)
Theorem pipe_reports_first_malformed_glob (prog : string) (patterns : list string) :
  (exists rs, Forall2 (fun g r => glob_to_grep_pattern g = Ok r) patterns rs
              /\ Forall well_braced patterns
              /\ globs_to_grep_pipe prog patterns
                 = Done ("| grep -EzZ " ++ quote rs (flag_pattern "-e"))%string)
  \/ (exists good bad rest msg,
         patterns = good ++ bad :: rest
         /\ Forall well_braced good /\ ~ well_braced bad
         /\ (msg = unexpected_brace_msg bad \/ msg = unclosed_brace_msg bad)
         /\ glob_to_grep_pattern bad = Raise (ValueError msg)
         /\ globs_to_grep_pipe prog patterns = SystemExit (prog ++ ": " ++ msg)%string).
Proof.
  unfold globs_to_grep_pipe.
  destruct (compile_all_outcome patterns)
    as [(rs & -> & Hall & Hwb)
       |(good & bad & rest & msg & -> & -> & Hgood & Hbad & Hmsg & Hraise)].
  - left. exists rs. repeat split; assumption.
  - right. exists good, bad, rest, msg. repeat split; assumption.
Qed.

(** ** The script *)

Lemma well_braced_all (patterns : list string) (bad : string) :
  Forall well_braced patterns -> In bad patterns -> well_braced bad.
Proof. intros Hall Hin. rewrite Forall_forall in Hall. exact (Hall bad Hin). Qed.

(** The command that lists the files for Git, or why there is none. *)
Lemma git_command_outcome (a : ArgParser) :
  (revisions a <> []
   /\ git_command a = SystemExit "ggit: --rev is not implemented for Git")
  \/ (revisions a = []
      /\ Forall well_braced (include_globs a ++ exclude_globs a)
      /\ exists cmd, git_command a = Done cmd)
  \/ (revisions a = []
      /\ (exists bad, In bad (include_globs a ++ exclude_globs a) /\ ~ well_braced bad)
      /\ exists msg, git_command a = SystemExit msg).
Proof.
  unfold git_command. destruct (revisions a) as [|r rs].
  2:{ left. split; [discriminate|reflexivity]. }
  right.
cbv zeta.
  assert (Hexc : forall cmd1 : string,
             (Forall well_braced (exclude_globs a)
              /\ exists cmd,
                  match exclude_globs a with
                  | _ :: _ =>
                      match globs_to_grep_pipe (prog_name ggit) (exclude_globs a) with
                      | Done pipe => Done (cmd1 ++ pipe ++ " -v")%string
                      | SystemExit msg => SystemExit msg
                      | Uncaught e => Uncaught e
                      end
                  | [] => Done cmd1
                  end = Done cmd)
             \/ ((exists bad, In bad (exclude_globs a) /\ ~ well_braced bad)
                 /\ exists msg,
                     match exclude_globs a with
                     | _ :: _ =>
                         match globs_to_grep_pipe (prog_name ggit) (exclude_globs a) with
                         | Done pipe => Done (cmd1 ++ pipe ++ " -v")%string
                         | SystemExit msg => SystemExit msg
                         | Uncaught e => Uncaught e
                         end
                     | [] => Done cmd1
                     end = SystemExit msg)).
  { intros cmd1. destruct (exclude_globs a) as [|g gs].
    - left. split; [constructor|eauto].
    - destruct (pipe_outcome (prog_name ggit) (g :: gs))
        as [[Hall [pipe ->]]|[Hbad [msg ->]]]; [left|right]; eauto. }
  destruct (include_globs a) as [|g gs].
  - cbn [app].
    destruct (Hexc ("git ls-files --stage -z | sed --null-data -n -e "
                    ++ Shlex.quote "s/^100... .*\t\(.*\)/\1/p")%string)
      as [[Hall [cmd ->]]|[Hbad [msg ->]]]; [left|right]; eauto.
  - destruct (pipe_outcome (prog_name ggit) (g :: gs))
      as [[Hall [pipe ->]]|[[bad [Hin Hbad]] [msg ->]]].
    + destruct (Hexc (("git ls-files --stage -z | sed --null-data -n -e "
                       ++ Shlex.quote "s/^100... .*\t\(.*\)/\1/p") ++ pipe)%string)
        as [[Hall' [cmd ->]]|[[bad [Hin Hbad]] [msg ->]]].
      * left. split; [reflexivity|]. split; [apply Forall_app; auto|eauto].
      * right. split; [reflexivity|]. split; [|eauto].
        exists bad. split; [apply in_or_app; right; exact Hin|exact Hbad].
    + right. split; [reflexivity|]. split; [|eauto].
      exists bad. split; [apply in_or_app; left; exact Hin|exact Hbad].
Qed.

(** The command that lists the files is made, or the program is left, and
    that for Git only. *)
Lemma list_command_outcome (prog : program) (a : ArgParser) :
  (exists cmd0, list_command prog a = Done cmd0)
  \/ (prog = ggit /\ exists msg, list_command prog a = SystemExit msg).
Proof.
  destruct prog; cbn [list_command]; [left; eauto|].
  destruct (git_command_outcome a) as [[_ H]|[(_ & _ & H)|(_ & _ & H)]]; eauto.
Qed.

(** X11.  The switches of the object decide what the script sets out to
    do, in this order: with [explain] it prints the text of [__repr__],
    which is always there; else with [version] it reports the versions;
    else with [help], no argument or the single argument [-h] it writes the
    usage of its program; else it makes the command, which it prints with
    [show] and runs without, where [vim], and no other editor, is started on
    a pipe of its own.  Only [ggit] leaves the program with a message
    instead of making the command.  What happens while the text is printed,
    the versions are reported or the processes run is no part of this. *)
Theorem script_endings (prog : program) (argv : list string) :
  exists a,
    ArgParser_init argv = Ok a
    /\ (explain a = true ->
        exists text, ArgParser_repr a = Ok text /\ script prog argv = PrintExplain text)
    /\ (explain a = false -> version a = true -> script prog argv = ReportVersions)
    /\ (explain a = false -> version a = false -> searches a argv = false ->
        script prog argv = Usage prog)
    /\ (searches a argv = true ->
        (prog = ggit /\ exists msg, script prog argv = Exit msg)
        \/ (show a = true /\ exists cmd, script prog argv = PrintCommand cmd)
        \/ (show a = false /\ editor a = Some "vim"
            /\ exists cmd, script prog argv = PipeToEditor cmd "vim")
        \/ (show a = false /\ editor a <> Some "vim"
            /\ exists cmd, script prog argv = Run cmd)).
Proof.
  destruct (pass_ok argv) as [l Hl]. exists (finalize l).
  split; [unfold ArgParser_init; rewrite Hl; reflexivity|].
  destruct (pass_attrs argv l Hl) as [_ Hed].
  rewrite <- (proj1 (finalize_editor_colour l)) in Hed.
  unfold script, ArgParser_init, searches. rewrite Hl. cbn [bind].
  rewrite ArgParser_repr_shown.
  destruct (explain (finalize l)).
  { split; [eauto|]. repeat split; discriminate. }
  split; [discriminate|].
  destruct (version (finalize l)).
  { split; [reflexivity|]. split; discriminate. }
  split; [discriminate|].
  destruct (help (finalize l)
            || match argv with [] => true | _ :: _ => false end
            || match argv with [only] => String.eqb only "-h" | _ => false end).
  { split; [reflexivity|discriminate]. }
  split; [discriminate|]. intros _.
  destruct (list_command_outcome prog (finalize l)) as [[cmd0 ->]|[-> [msg ->]]];
    [|left; eauto].
  right. unfold chosen_editor.
  destruct Hed as [-> | [-> | ->]];
    cbn [Py.is_empty Py.str_in editors_that_need_stdin existsb String.eqb Ascii.eqb
           Bool.eqb orb andb];
    destruct (show (finalize l)); cbn [negb andb].
  - left. eauto.
  - right. right. split; [reflexivity|]. split; [discriminate|eauto].
  - left. eauto.
  - right. left. eauto.
  - left. eauto.
  - right. right. split; [reflexivity|]. split; [discriminate|eauto].
Qed.

(** X12.  When [ggit] goes on to the command, it leaves the program with a
    message exactly when a revision was given or the braces of one of the
    globs, to include or to exclude, do not nest; a revision is refused
    with the message that [--rev] is not implemented for Git, whatever the
    globs are. *)
Theorem ggit_refusals (argv : list string) (a : ArgParser) :
  ArgParser_init argv = Ok a -> searches a argv = true ->
  ((exists msg, script ggit argv = Exit msg)
   <-> revisions a <> []
       \/ exists bad, In bad (include_globs a ++ exclude_globs a) /\ ~ well_braced bad)
  /\ (revisions a <> [] ->
      script ggit argv = Exit "ggit: --rev is not implemented for Git").
Proof.
  intros Hinit Hsearch. unfold script. rewrite Hinit.
  unfold searches in Hsearch.
  destruct (explain a); [discriminate|]. destruct (version a); [discriminate|].
  destruct (help a
            || match argv with [] => true | _ :: _ => false end
            || match argv with [only] => String.eqb only "-h" | _ => false end);
    [discriminate|].
  cbn [list_command].
  destruct (git_command_outcome a)
    as [[Hrev ->]|[(Hrev & Hall & [cmd ->])|(Hrev & Hbad & [msg ->])]].
  - split; [|reflexivity]. split; [left; exact Hrev|eauto].
  - split; [|intros H; contradiction].
    split.
    + intros [msg H]. exfalso.
      destruct (chosen_editor a) as [e|];
        [destruct (Py.str_in e editors_that_need_stdin && negb (show a))|];
        destruct (show a); discriminate.
    + intros [H|[bad [Hin Hbad]]]; [contradiction|].
      elim Hbad. exact (well_braced_all _ bad Hall Hin).
  - split; [|intros H; contradiction].
    split; [right; exact Hbad|eauto].
Qed.

Lemma ggit_refusals_witness :
  exists a,
    ArgParser_init ["needle"; "src/{a,b"] = Ok a
    /\ ((exists msg, script ggit ["needle"; "src/{a,b"] = Exit msg)
        <-> revisions a <> []
            \/ exists bad, In bad (include_globs a ++ exclude_globs a) /\ ~ well_braced bad)
    /\ (revisions a <> [] ->
        script ggit ["needle"; "src/{a,b"] = Exit "ggit: --rev is not implemented for Git").
Proof.
  eexists. split; [vm_compute; reflexivity|].
  apply (ggit_refusals ["needle"; "src/{a,b"]); vm_compute; reflexivity.
Defined.

(** ** The command line *)

Lemma sh_words_cat (p rest : string) (toks : list sh_token) :
  sh_words p = Some toks ->
  sh_words (p ++ " " ++ rest) = option_map (app toks) (sh_words rest).
Proof. intros Hp. exact (sh_read_then p Bare None toks rest Hp). Qed.

Lemma sh_words_cat_pipe (p rest : string) (toks : list sh_token) :
  sh_words p = Some toks ->
  sh_words (p ++ "|" ++ rest)
  = option_map (fun after => toks ++ Pipe :: after) (sh_words rest).
Proof. intros Hp. exact (sh_read_then_pipe p Bare None toks rest Hp). Qed.

Lemma words_app (l1 l2 : list string) : words (l1 ++ l2) = words l1 ++ words l2.
Proof. apply map_app. Qed.

(** The listing by Mercurial, read by the shell. *)
Lemma sh_words_hg_command (a : ArgParser) : sh_words (hg_command a) = Some (hg_tokens a).
Proof.
  unfold hg_command, hg_tokens. destruct (revisions a) as [|r rs].
  - change (sh_words
              ("HGPLAIN=1 hg files --print0" ++ " "
               ++ quote (include_globs a) (flag_pattern "-I") ++ " "
               ++ quote (exclude_globs a) (flag_pattern "-X") ++ " "
               ++ "--verbose | sed --null-data -n -e 's/^.........[0-9] [^l] \(.*\)/\1/p'")
            = Some (words ["HGPLAIN=1"; "hg"; "files"; "--print0"]
                    ++ flagged "-I" (include_globs a) ++ flagged "-X" (exclude_globs a)
                    ++ words ["--verbose"]
                    ++ Pipe :: words ["sed"; "--null-data"; "-n"; "-e";
                                      "s/^.........[0-9] [^l] \(.*\)/\1/p"])).
    rewrite (sh_words_cat "HGPLAIN=1 hg files --print0" _
               (words ["HGPLAIN=1"; "hg"; "files"; "--print0"]) eq_refl).
    rewrite (sh_words_cat _ _ _ (sh_words_flagged "-I" (include_globs a)
                                   ltac:(discriminate) eq_refl)).
    rewrite (sh_words_cat _ _ _ (sh_words_flagged "-X" (exclude_globs a)
                                   ltac:(discriminate) eq_refl)).
    reflexivity.
  - change (sh_words
              ("HGPLAIN=1 hg status --print0 --no-status -X 'set:symlink()'" ++ " "
               ++ quote (include_globs a) (flag_pattern "-I") ++ " "
               ++ quote (exclude_globs a) (flag_pattern "-X") ++ " "
               ++ quote (r :: rs) (flag_pattern "--rev"))
            = Some (words ["HGPLAIN=1"; "hg"; "status"; "--print0"; "--no-status"; "-X";
                           "set:symlink()"]
                    ++ flagged "-I" (include_globs a) ++ flagged "-X" (exclude_globs a)
                    ++ flagged "--rev" (r :: rs))).
    rewrite (sh_words_cat "HGPLAIN=1 hg status --print0 --no-status -X 'set:symlink()'" _
               (words ["HGPLAIN=1"; "hg"; "status"; "--print0"; "--no-status"; "-X";
                       "set:symlink()"]) eq_refl).
    rewrite (sh_words_cat _ _ _ (sh_words_flagged "-I" (include_globs a)
                                   ltac:(discriminate) eq_refl)).
    rewrite (sh_words_cat _ _ _ (sh_words_flagged "-X" (exclude_globs a)
                                   ltac:(discriminate) eq_refl)).
    rewrite (sh_words_flagged "--rev" (r :: rs) ltac:(discriminate) eq_refl).
    reflexivity.
Qed.

(** The pipe of [globs_to_grep_pipe], when it is made. *)
Lemma pipe_done (prog : string) (patterns : list string) (pipe : string) :
  globs_to_grep_pipe prog patterns = Done pipe ->
  exists rs, Forall2 (fun g r => glob_to_grep_pattern g = Ok r) patterns rs
             /\ pipe = ("| grep -EzZ " ++ quote rs (flag_pattern "-e"))%string.
Proof.
  unfold globs_to_grep_pipe.
  destruct (compile_all_outcome patterns)
    as [(rs & -> & Hall & _)|(good & bad & rest & msg & -> & _)].
  - intros H. injection H as <-. eauto.
  - discriminate.
Qed.

Lemma sh_words_filter (cmd : string) (toks : list sh_token) (rs : list string) :
  sh_words cmd = Some toks ->
  sh_words (cmd ++ "| grep -EzZ " ++ quote rs (flag_pattern "-e"))
  = Some (toks ++ Pipe :: words ["grep"; "-EzZ"] ++ flagged "-e" rs).
Proof.
  intros Hcmd.
  change (sh_words (cmd ++ "|" ++ " grep -EzZ" ++ " " ++ quote rs (flag_pattern "-e"))
          = Some (toks ++ Pipe :: words ["grep"; "-EzZ"] ++ flagged "-e" rs)).
  rewrite (sh_words_cat_pipe cmd _ toks Hcmd).
  rewrite (sh_words_cat " grep -EzZ" _ (words ["grep"; "-EzZ"]) eq_refl).
  rewrite (sh_words_flagged "-e" rs ltac:(discriminate) eq_refl). reflexivity.
Qed.

Lemma sh_words_filter_inverted (cmd : string) (toks : list sh_token) (rs : list string) :
  sh_words cmd = Some toks ->
  sh_words (cmd ++ ("| grep -EzZ " ++ quote rs (flag_pattern "-e")) ++ " -v")
  = Some (toks ++ Pipe :: words ["grep"; "-EzZ"] ++ flagged "-e" rs ++ words ["-v"]).
Proof.
  intros Hcmd.
  change (sh_words (cmd ++ "|" ++ " grep -EzZ" ++ " "
                    ++ quote rs (flag_pattern "-e") ++ " " ++ "-v")
          = Some (toks ++ Pipe :: words ["grep"; "-EzZ"] ++ flagged "-e" rs
                  ++ words ["-v"])).
  rewrite (sh_words_cat_pipe cmd _ toks Hcmd).
  rewrite (sh_words_cat " grep -EzZ" _ (words ["grep"; "-EzZ"]) eq_refl).
  rewrite (sh_words_cat _ _ _ (sh_words_flagged "-e" rs ltac:(discriminate) eq_refl)).
  reflexivity.
Qed.

(** The filter on the names to include, and the one on the names to
    exclude. *)
Lemma include_stage (patterns : list string) (cmd0 cmd : string) (toks : list sh_token) :
  sh_words cmd0 = Some toks ->
  match patterns with
  | _ :: _ =>
      match globs_to_grep_pipe (prog_name ggit) patterns with
      | Done pipe => Done (cmd0 ++ pipe)%string
      | SystemExit msg => SystemExit msg
      | Uncaught e => Uncaught e
      end
  | [] => Done cmd0
  end = Done cmd ->
  exists rs, Forall2 (fun g r => glob_to_grep_pattern g = Ok r) patterns rs
             /\ sh_words cmd = Some (toks ++ name_filter rs []).
Proof.
  intros Hcmd0 Hdone. destruct patterns as [|g gs].
  - injection Hdone as <-. exists []. split; [constructor|].
    cbn [name_filter]. rewrite app_nil_r. exact Hcmd0.
  - destruct (globs_to_grep_pipe (prog_name ggit) (g :: gs)) as [pipe|msg|e] eqn:Hpipe;
      try discriminate.
    injection Hdone as <-. destruct (pipe_done _ _ _ Hpipe) as (rs & Hall & ->).
    exists rs. split; [exact Hall|].
    rewrite (sh_words_filter cmd0 toks rs Hcmd0).
    inversion Hall; subst. cbn [name_filter words map]. rewrite app_nil_r. reflexivity.
Qed.

Lemma exclude_stage (patterns : list string) (cmd0 cmd : string) (toks : list sh_token) :
  sh_words cmd0 = Some toks ->
  match patterns with
  | _ :: _ =>
      match globs_to_grep_pipe (prog_name ggit) patterns with
      | Done pipe => Done (cmd0 ++ pipe ++ " -v")%string
      | SystemExit msg => SystemExit msg
      | Uncaught e => Uncaught e
      end
  | [] => Done cmd0
  end = Done cmd ->
  exists rs, Forall2 (fun g r => glob_to_grep_pattern g = Ok r) patterns rs
             /\ sh_words cmd = Some (toks ++ name_filter rs ["-v"]).
Proof.
  intros Hcmd0 Hdone. destruct patterns as [|g gs].
  - injection Hdone as <-. exists []. split; [constructor|].
    cbn [name_filter]. rewrite app_nil_r. exact Hcmd0.
  - destruct (globs_to_grep_pipe (prog_name ggit) (g :: gs)) as [pipe|msg|e] eqn:Hpipe;
      try discriminate.
    injection Hdone as <-. destruct (pipe_done _ _ _ Hpipe) as (rs & Hall & ->).
    exists rs. split; [exact Hall|].
    rewrite (sh_words_filter_inverted cmd0 toks rs Hcmd0).
    inversion Hall; subst. reflexivity.
Qed.

(** The listing by Git, read by the shell. *)
Lemma sh_words_git_command (a : ArgParser) (cmd : string) :
  git_command a = Done cmd ->
  exists included excluded,
    Forall2 (fun g r => glob_to_grep_pattern g = Ok r) (include_globs a) included
    /\ Forall2 (fun g r => glob_to_grep_pattern g = Ok r) (exclude_globs a) excluded
    /\ sh_words cmd = Some (git_tokens included excluded).
Proof.
  unfold git_command. destruct (revisions a); [|discriminate]. cbv zeta.
  match goal with
  | |- match ?x with _ => _ end = _ -> _ => destruct x as [cmd1|msg|e] eqn:Hinc
  end; try discriminate.
  intros Hexc.
  destruct (include_stage (include_globs a)
              ("git ls-files --stage -z | sed --null-data -n -e "
               ++ Shlex.quote "s/^100... .*\t\(.*\)/\1/p")%string cmd1
              (words ["git"; "ls-files"; "--stage"; "-z"]
               ++ Pipe :: words ["sed"; "--null-data"; "-n"; "-e";
                                 "s/^100... .*\t\(.*\)/\1/p"])
              eq_refl Hinc) as (included & Hi & Hcmd1).
  destruct (exclude_stage (exclude_globs a) cmd1 cmd _ Hcmd1 Hexc)
    as (excluded & He & Hcmd).
  exists included, excluded. split; [exact Hi|]. split; [exact He|].
  rewrite Hcmd. unfold git_tokens. rewrite <- !app_assoc. reflexivity.
Qed.

Lemma sh_words_grep (cmd0 : string) (toks0 : list sh_token) (args : list string) :
  sh_words cmd0 = Some toks0 ->
  sh_words (cmd0 ++ " | xargs -0 " ++ grep ++ " " ++ quote args plain_pattern ++ " --")
  = Some (toks0
          ++ Pipe :: words ["xargs"; "-0"; "grep"; "--binary-files=without-match"; "-H"]
          ++ words args ++ words ["--"]).
Proof.
  intros Hcmd0.
  change (sh_words (cmd0 ++ " " ++ "| xargs -0 grep --binary-files=without-match -H"
                    ++ " " ++ quote args plain_pattern ++ " " ++ "--")
          = Some (toks0
                  ++ Pipe :: words ["xargs"; "-0"; "grep"; "--binary-files=without-match";
                                    "-H"]
                  ++ words args ++ words ["--"])).
  rewrite (sh_words_cat cmd0 _ toks0 Hcmd0).
  rewrite (sh_words_cat "| xargs -0 grep --binary-files=without-match -H" _
             (Pipe :: words ["xargs"; "-0"; "grep"; "--binary-files=without-match"; "-H"])
             eq_refl).
  rewrite (sh_words_cat _ _ _ (sh_words_plain args)).
  reflexivity.
Qed.

Lemma sh_words_editor (cmd : string) (toks : list sh_token) (e : string) :
  sh_words cmd = Some toks -> e = "vim" \/ e = "gvim" ->
  sh_words (cmd ++ " | xargs --no-run-if-empty -0 " ++ e)
  = Some (toks ++ Pipe :: words ["xargs"; "--no-run-if-empty"; "-0"; e]).
Proof.
  intros Hcmd He.
  change (sh_words (cmd ++ " " ++ "| xargs --no-run-if-empty -0 " ++ e)
          = Some (toks ++ Pipe :: words ["xargs"; "--no-run-if-empty"; "-0"; e])).
  rewrite (sh_words_cat cmd _ toks Hcmd). destruct He as [-> | ->]; reflexivity.
Qed.

(** The command of the script after the listing of the files. *)
Lemma script_command_line (prog : program) (argv : list string) (l : locals) :
  pass argv = Ok l ->
  match script prog argv with
  | PrintCommand cmd | Run cmd =>
      exists cmd0, list_command prog (finalize l) = Done cmd0
                   /\ forall toks0, sh_words cmd0 = Some toks0 ->
                                    sh_words cmd
                                    = Some (toks0 ++ grep_tokens (finalize l)
                                            ++ editor_tokens (finalize l))
  | PipeToEditor cmd e =>
      exists cmd0, list_command prog (finalize l) = Done cmd0
                   /\ forall toks0, sh_words cmd0 = Some toks0 ->
                                    sh_words cmd = Some (toks0 ++ grep_tokens (finalize l))
  | _ => True
  end.
Proof.
  intros Hl. destruct (pass_attrs argv l Hl) as [_ Hed].
  rewrite <- (proj1 (finalize_editor_colour l)) in Hed.
  unfold script, ArgParser_init. rewrite Hl. cbn [bind]. rewrite ArgParser_repr_shown.
  destruct (explain (finalize l)); [exact I|].
  destruct (version (finalize l)); [exact I|].
  destruct (help (finalize l)
            || match argv with [] => true | _ :: _ => false end
            || match argv with [only] => String.eqb only "-h" | _ => false end);
    [exact I|].
  destruct (list_command prog (finalize l)) as [cmd0|msg|e]; try exact I.
  unfold chosen_editor, grep_tokens, editor_tokens.
  destruct Hed as [-> | [-> | ->]];
    cbn [Py.is_empty Py.str_in editors_that_need_stdin existsb String.eqb Ascii.eqb
           Bool.eqb orb andb];
    destruct (show (finalize l)); cbn [negb andb];
    exists cmd0; (split; [reflexivity|]); intros toks0 H0.
  - rewrite (sh_words_grep cmd0 toks0 _ H0), words_app, app_nil_r, <- !app_assoc.
    reflexivity.
  - rewrite (sh_words_grep cmd0 toks0 _ H0), words_app, app_nil_r, <- !app_assoc.
    reflexivity.
  - rewrite (sh_words_editor _ _ "vim" (sh_words_grep cmd0 toks0 _ H0)); [|left; reflexivity].
    rewrite words_app, <- !app_assoc. reflexivity.
  - rewrite (sh_words_grep cmd0 toks0 _ H0), words_app, <- !app_assoc. reflexivity.
  - rewrite (sh_words_editor _ _ "gvim" (sh_words_grep cmd0 toks0 _ H0));
      [|right; reflexivity].
    rewrite words_app, <- !app_assoc. reflexivity.
  - rewrite (sh_words_editor _ _ "gvim" (sh_words_grep cmd0 toks0 _ H0));
      [|right; reflexivity].
    rewrite words_app, <- !app_assoc. reflexivity.
Qed.

(** X13.  The command that [hgg] prints or runs is a pipeline of plain
    words for the shell: the listing of the files by Mercurial, where every
    glob to include is the word after an [-I], every glob to exclude the
    word after an [-X] and every revision the word after a [--rev]; then
    [xargs -0 grep] with every matcher argument as one word, the colour
    argument or [-l --null] after them, and [--]; then [xargs] with the
    editor, if one was asked for.  The command that is piped to [vim] is
    the same without the last part.  No character of a token is read by
    the shell as anything but itself. *)
Theorem hgg_command_line (argv : list string) :
  exists a, ArgParser_init argv = Ok a
  /\ match script hgg argv with
     | PrintCommand cmd | Run cmd =>
         sh_words cmd = Some (hg_tokens a ++ grep_tokens a ++ editor_tokens a)
     | PipeToEditor cmd e => sh_words cmd = Some (hg_tokens a ++ grep_tokens a)
     | _ => True
     end.
Proof.
  destruct (pass_ok argv) as [l Hl]. exists (finalize l).
  split; [unfold ArgParser_init; rewrite Hl; reflexivity|].
  pose proof (script_command_line hgg argv l Hl) as H.
  destruct (script hgg argv); try exact I;
    destruct H as (cmd0 & Hcmd0 & H); cbn [list_command] in Hcmd0;
    injection Hcmd0 as <-; exact (H _ (sh_words_hg_command (finalize l))).
Qed.

(** X14.  The command that [ggit] prints or runs is a pipeline of plain
    words for the shell: [git ls-files] and the [sed] that keeps the
    regular files; a [grep -EzZ] with the pattern of every glob to include
    as the word after an [-e], if there is such a glob; a [grep -EzZ] with
    the patterns of the globs to exclude and [-v], if there is such a glob;
    then [xargs -0 grep] with the matcher arguments and the editor part as
    for [hgg]. *)
Theorem ggit_command_line (argv : list string) :
  exists a, ArgParser_init argv = Ok a
  /\ match script ggit argv with
     | PrintCommand cmd | Run cmd =>
         exists included excluded,
           Forall2 (fun g r => glob_to_grep_pattern g = Ok r) (include_globs a) included
           /\ Forall2 (fun g r => glob_to_grep_pattern g = Ok r) (exclude_globs a) excluded
           /\ sh_words cmd
              = Some (git_tokens included excluded ++ grep_tokens a ++ editor_tokens a)
     | PipeToEditor cmd e =>
         exists included excluded,
           Forall2 (fun g r => glob_to_grep_pattern g = Ok r) (include_globs a) included
           /\ Forall2 (fun g r => glob_to_grep_pattern g = Ok r) (exclude_globs a) excluded
           /\ sh_words cmd = Some (git_tokens included excluded ++ grep_tokens a)
     | _ => True
     end.
Proof.
  destruct (pass_ok argv) as [l Hl]. exists (finalize l).
  split; [unfold ArgParser_init; rewrite Hl; reflexivity|].
  pose proof (script_command_line ggit argv l Hl) as H.
  destruct (script ggit argv); try exact I;
    destruct H as (cmd0 & Hcmd0 & H); cbn [list_command] in Hcmd0;
    destruct (sh_words_git_command (finalize l) cmd0 Hcmd0)
      as (included & excluded & Hi & He & Hcmd);
    exists included, excluded; (split; [exact Hi|]); (split; [exact He|]);
    exact (H _ Hcmd).
Qed.
